(** * JustTheChip: the cutting-parameter solver

    A shallow embedding of [SpeedsFeedsCalculator]
    (src/calculations/speeds-feeds.js), of the cut-type catalog [CUT_TYPES]
    (data/tools.js), of the tool-material constants (data/materials.js) and of
    the holder-compliance table (utils/constants.js).

    JavaScript numbers are read as real numbers: [+], [*], [/], [Math.sqrt],
    [Math.tan], [Math.PI] and the comparisons are those of [R].  NaN and the
    infinities have no counterpart, so nothing below relies on the value of a
    division by zero.  A property that JavaScript may leave [undefined] is an
    [option]; [a || d] on numbers is [js_or].  The instance field
    [this.warnings] is threaded explicitly: every method that pushes returns
    the list of what it pushed, and [calculate] appends the lists in program
    order.  Locals that the source reassigns ([rpm], [fz], [vf], [fzAdjusted],
    [mrr]) appear once per assignment in the record [Trace]. *)

From Stdlib Require Import Reals Lra Psatz List String Bool ZArith.
Import ListNotations.

Open Scope R_scope.

(** ** JavaScript numeric idioms *)

Module Js.

(** [x || d] where [x] is a number or [undefined]: [undefined] and [0] are falsy. *)
Definition js_or (x : option R) (d : R) : R :=
  match x with
  | Some v => if Req_dec_T v 0 then d else v
  | None => d
  end.

(** [Math.round]: the nearest integer, ties towards +infinity. *)
Definition Math_round (x : R) : R := IZR (Int_part (x + / 2)).

(** The number written by [x.toFixed(n)] (and read back by [parseFloat]):
    the nearest multiple of 10^-n, a tie taking the larger magnitude. *)
Definition toFixed (n : nat) (x : R) : R :=
  if Rlt_dec x 0
  then - (IZR (Int_part (- x * 10 ^ n + / 2)) / 10 ^ n)
  else IZR (Int_part (x * 10 ^ n + / 2)) / 10 ^ n.

(** [s.includes(sub)] *)
Fixpoint includes (s sub : string) : bool :=
  String.prefix sub s ||
  match s with
  | EmptyString => false
  | String _ s' => includes s' sub
  end.

(** An object literal with numeric values, read by key. *)
Definition dict := list (string * R).

Fixpoint lookup (d : dict) (k : string) : option R :=
  match d with
  | [] => None
  | (k', v) :: d' => if String.eqb k' k then Some v else lookup d' k
  end.

End Js.
Import Js.

(** ** Data model *)

Inductive ToolType :=
| endmill_flat | endmill_ball | chamfer | vbit | facemill
| drill | threadmill | tapered | boring | slitting.

Definition ToolType_eq_dec (a b : ToolType) : {a = b} + {a <> b}.
Proof. decide equality. Defined.

Record Tool := {
  type : ToolType;
  diameter_mm : R;
  flutes : option R;
  stickout_mm : option R;
  shank_mm : option R;
  angle_deg : R;
  tip_diameter_mm : R;
  taper_angle_deg : R;
  flute_length_mm : option R;
  min_bore_diameter_mm : R;
  insert_count : option R;
  teeth : option R;
  tool_material : string      (* tool.material *)
}.

Record Spindle := {
  rated_power_kW : R;
  base_rpm : R;
  rpm_min : R;
  rpm_max : R
}.

Module Axes.
Record t := { x : R; y : R; z : R }.
End Axes.

Record Aggressiveness := { radial : R; axial : R; feed : R }.

Record Machine := {
  max_feed_mm_min : Axes.t;
  K_rigidity : R;
  machine_aggressiveness : Aggressiveness   (* machine.aggressiveness *)
}.

Record FzBucket := { max_d_mm : R; range : R * R }.
Record ChipThinning := { enable_below_fraction : R }.

Record Material := {
  id : string;
  category : string;
  vc_range : R * R;
  fz_mm_per_tooth_by_diameter : list FzBucket;
  toolChiploadFactors : ToolType -> option R;
  max_radial_engagement_fraction : dict;
  max_axial_per_pass_D : dict;
  chip_thinning : option ChipThinning;
  force_coeff_KN_mm2 : R;
  specific_cutting_energy_J_mm3 : option R
}.

(** A cut definition carries either [ae_fraction] or [ae_fraction_range]. *)
Inductive AeSpec :=
| ae_fraction (f : R)
| ae_fraction_range (lo hi : R).

Record CutDefinition := {
  ae_spec : AeSpec;
  ap_fraction_range : R * R
}.

Inductive Severity := info | warning | danger.

(** A template literal: text interleaved with [value.toFixed(digits)]. *)
Inductive Fragment :=
| Text (s : string)
| Fixed (digits : nat) (value : R).

Record Warning := {
  severity : Severity;          (* the [type] field of a warning *)
  message : list Fragment
}.

Definition warn (s : Severity) (m : string) : Warning :=
  {| severity := s; message := [Text m] |}.

Record Request := {
  machine : Machine;
  spindle : Spindle;
  tool : Tool;
  material : Material;
  cutType : string;
  aggressiveness : R;
  userDOC : option R
}.

(** ** Constants *)

(** [MATERIAL_CONSTANTS] of data/materials.js: Young's moduli in MPa. *)
Module MATERIAL_CONSTANTS.
Definition CARBIDE_YOUNGS_MODULUS : R := 600000.
Definition HSS_YOUNGS_MODULUS : R := 210000.
End MATERIAL_CONSTANTS.

(** The keys of [DEFLECTION_CONSTANTS.TOOL_HOLDER_COMPLIANCE]. *)
Inductive HolderType := COLLET | SHRINK_FIT | HYDRAULIC | POOR_SETUP.

(** [DEFLECTION_CONSTANTS] of utils/constants.js: holder compliance in mm/N. *)
Module DEFLECTION_CONSTANTS.
Definition TOOL_HOLDER_COMPLIANCE (h : HolderType) : R :=
  match h with
  | COLLET => 0.001
  | SHRINK_FIT => 0.0005
  | HYDRAULIC => 0.0003
  | POOR_SETUP => 0.005
  end.
End DEFLECTION_CONSTANTS.

(** ** The cut-type catalog [CUT_TYPES] (data/tools.js)

    Only the engagement fields are kept; [name] and [toolTypes] play no part
    in the solver. *)

Definition cutdef_fraction (f : R) (ap : R * R) : CutDefinition :=
  {| ae_spec := ae_fraction f; ap_fraction_range := ap |}.

Definition cutdef_range (ae ap : R * R) : CutDefinition :=
  {| ae_spec := ae_fraction_range (fst ae) (snd ae); ap_fraction_range := ap |}.

Definition CUT_TYPES : list (string * CutDefinition) :=
  [ ("slot"%string,             cutdef_fraction 1.0 (0.8, 1.0));
    ("profile"%string,          cutdef_range (0.2, 0.4) (1.0, 1.5));
    ("adaptive"%string,         cutdef_range (0.1, 0.2) (1.5, 3.0));
    ("facing"%string,           cutdef_range (0.6, 0.8) (0.1, 0.3));
    ("plunge"%string,           cutdef_fraction 1.0 (0.1, 0.3));
    ("chamfer"%string,          cutdef_range (0.3, 0.5) (0.5, 1.0));
    ("deburr"%string,           cutdef_range (0.1, 0.2) (0.1, 0.3));
    ("countersink"%string,      cutdef_fraction 1.0 (0.2, 0.5));
    ("vcarve"%string,           cutdef_range (0.8, 1.0) (0.5, 1.0));
    ("engraving"%string,        cutdef_range (0.5, 0.8) (0.1, 0.3));
    ("shoulder"%string,         cutdef_range (0.3, 0.5) (0.8, 1.2));
    ("ramping"%string,          cutdef_range (0.4, 0.6) (0.2, 0.4));
    ("drilling"%string,         cutdef_fraction 1.0 (2.0, 5.0));
    ("spot_drill"%string,       cutdef_fraction 1.0 (0.2, 0.5));
    ("peck_drill"%string,       cutdef_fraction 1.0 (0.5, 1.5));
    ("thread_mill"%string,      cutdef_range (0.6, 0.8) (0.3, 0.5));
    ("helical"%string,          cutdef_range (0.4, 0.6) (0.2, 0.4));
    ("3d_contour"%string,       cutdef_range (0.1, 0.3) (0.1, 0.5));
    ("draft_angle"%string,      cutdef_range (0.2, 0.4) (0.8, 1.5));
    ("boring"%string,           cutdef_fraction 1.0 (0.3, 0.6));
    ("internal_profile"%string, cutdef_range (0.2, 0.4) (0.5, 1.0));
    ("slitting"%string,         cutdef_fraction 1.0 (8.0, 15.0));
    ("grooving"%string,         cutdef_fraction 1.0 (5.0, 10.0)) ].

(** [CUT_TYPES[key]] *)
Fixpoint cut_types_get (tbl : list (string * CutDefinition)) (key : string)
  : option CutDefinition :=
  match tbl with
  | [] => None
  | (k, d) :: tbl' => if String.eqb k key then Some d else cut_types_get tbl' key
  end.

(** [cutDef.ae_fraction_range || [cutDef.ae_fraction, cutDef.ae_fraction]] *)
Definition aeRange_of (cutDef : CutDefinition) : R * R :=
  match ae_spec cutDef with
  | ae_fraction_range lo hi => (lo, hi)
  | ae_fraction f => (f, f)
  end.

(** The midpoint [(r[0] + r[1]) / 2] of a two-element array. *)
Definition midpoint (r : R * R) : R := (fst r + snd r) / 2.

(** ** The trace of one [calculate()] call

    The locals of [calculate] just before its [return]; a local that is
    reassigned has one field per value it takes. *)

Record Trace := {
  t_D : R;                    (* D *)
  t_z : R;                    (* z *)
  t_vc : R;                   (* vc *)
  t_rpm_nominal : R;          (* rpm, line 33 *)
  t_rpm : R;                  (* rpm after the clamp, lines 37-43 *)
  t_fzRange : R * R;          (* fzRange *)
  t_fz_nominal : R;           (* fz, line 48 *)
  t_ae : R;                   (* ae *)
  t_ap : R;                   (* ap *)
  t_fz : R;                   (* fz after chip thinning, lines 54-58 *)
  t_vf_nominal : R;           (* vf, line 61 *)
  t_vf_clamped : R;           (* vf after the machine limit, lines 70-74 *)
  t_fz_clamped : R;           (* fzAdjusted after the machine limit *)
  t_mrr_unscaled : R;         (* mrr, line 77 *)
  t_powerRequired : R;
  t_powerAvailable : R;
  t_vf : R;                   (* vf after power limiting, lines 84-90 *)
  t_fzAdjusted : R;           (* fzAdjusted after power limiting *)
  t_mrr : R;                  (* mrr after power limiting *)
  t_cuttingForce : R;
  t_deflection : R;
  t_vcActual : R;
  t_sfmActual : R;
  t_warnings : list Warning   (* this.warnings *)
}.

(** The object returned by [calculate()]. *)
Record Result := {
  rpm : R;
  feed_mm_min : R;
  fz_mm : R;
  fz_actual_mm : R;
  ae_mm : R;
  ap_mm : R;
  doc_mm : R;
  mrr_mm3_min : R;
  power_W : R;
  power_available_W : R;
  force_N : R;
  deflection_mm : R;
  vc_m_min : R;
  sfm : R;
  warnings : list Warning;
  toolType : ToolType;
  effectiveDiameter : R;
  user_doc_override : bool
}.

(** ** [SpeedsFeedsCalculator] *)

Section SpeedsFeedsCalculator.

Variable this : Request.

Definition getEffectiveDiameter : R :=
  match type (tool this) with
  | vbit =>
      let angle_rad := (angle_deg (tool this) * PI) / 180 in
      let ap_assumed := 2 in
      tip_diameter_mm (tool this) + 2 * ap_assumed * tan (angle_rad / 2)
  | chamfer => diameter_mm (tool this)
  | tapered =>
      let taper_rad := (taper_angle_deg (tool this) * PI) / 180 in
      let depth := js_or (flute_length_mm (tool this)) 10 in
      tip_diameter_mm (tool this) + depth * tan taper_rad
  | boring => min_bore_diameter_mm (tool this)
  | slitting | facemill => diameter_mm (tool this)
  | _ => diameter_mm (tool this)
  end.

Definition getEffectiveFlutes : R :=
  match type (tool this) with
  | facemill => js_or (insert_count (tool this)) 4
  | slitting => js_or (teeth (tool this)) 40
  | boring => 1
  | _ => js_or (flutes (tool this)) 2
  end.

Definition speedFactors : dict :=
  [ ("slot"%string, 1.0); ("profile"%string, 1.2); ("adaptive"%string, 1.3);
    ("facing"%string, 1.1); ("drilling"%string, 0.8); ("boring"%string, 0.9) ].

Definition getSpeedFactor : R :=
  js_or (lookup speedFactors (cutType this)) 1.0.

(** The [for] loop of [getChiploadRange]: the first bucket with
    [diameter <= max_d_mm]. *)
Fixpoint firstBucket (ranges : list FzBucket) (diameter : R) : option (R * R) :=
  match ranges with
  | [] => None
  | b :: ranges' =>
      if Rle_dec diameter (max_d_mm b) then Some (range b)
      else firstBucket ranges' diameter
  end.

(** [ranges[ranges.length - 1]]: [None] on the empty array, where reading
    [.range] of [undefined] throws. *)
Fixpoint lastBucket (ranges : list FzBucket) : option FzBucket :=
  match ranges with
  | [] => None
  | [b] => Some b
  | _ :: ranges' => lastBucket ranges'
  end.

Definition getChiploadRange (diameter : R) : option (R * R) :=
  let ranges := fz_mm_per_tooth_by_diameter (material this) in
  match firstBucket ranges diameter with
  | Some r => Some r
  | None => option_map range (lastBucket ranges)
  end.

(** The source returns this fixed structure; it does not read [CUT_TYPES]. *)
Definition getCutDefinition : CutDefinition :=
  {| ae_spec := ae_fraction 0.3; ap_fraction_range := (0.5, 1.0) |}.

(** Line 181, the local [maxAe]. *)
Definition maxAe (D : R) : R :=
  D * js_or (lookup (max_radial_engagement_fraction (material this)) (cutType this)) 0.3.

(** Line 187, the local [maxAp]. *)
Definition maxAp (D : R) : R :=
  D * js_or (lookup (max_axial_per_pass_D (material this)) (cutType this)) 1.0.

Definition getBaseEngagementParams (D : R) : R * R :=
  let cutDef := getCutDefinition in
  match type (tool this) with
  | drill => (D, D * 0.5)
  | vbit =>
      let angle_rad := (angle_deg (tool this) * PI) / 180 in
      let estimatedDepth := tip_diameter_mm (tool this) + 2 in
      (estimatedDepth * tan (angle_rad / 2) * 2, estimatedDepth)
  | _ =>
      let ae :=
        if String.eqb (cutType this) "slot" then D
        else
          let aeRange := aeRange_of cutDef in
          let aeFraction := (fst aeRange + snd aeRange) / 2 in
          Rmin (D * aeFraction) (maxAe D) * radial (machine_aggressiveness (machine this)) in
      let apRange := ap_fraction_range cutDef in
      let apFraction := (fst apRange + snd apRange) / 2 in
      let ap := Rmin (D * apFraction) (maxAp D) * axial (machine_aggressiveness (machine this)) in
      (ae, ap)
  end.

Definition getMaxAllowableDOC (D : R) : R :=
  let matLimits := js_or (lookup (max_axial_per_pass_D (material this)) (cutType this)) 1.0 in
  D * matLimits.

(** Returns [{ae, ap}] and the warnings it pushed. *)
Definition getEngagementParams (D : R) : R * R * list Warning :=
  let '(baseAe, baseAp) := getBaseEngagementParams D in
  let ap := match userDOC this with Some d => d | None => baseAp end in
  let w :=
    match userDOC this with
    | Some _ =>
        let maxAp := getMaxAllowableDOC D in
        if Rgt_dec ap maxAp
        then [ {| severity := warning;
                  message := [Text "User DOC ("; Fixed 2 ap;
                              Text "mm) exceeds recommended maximum (";
                              Fixed 2 maxAp; Text "mm)"] |} ]
        else []
    | None => []
    end in
  (baseAe, ap, w).

Definition getSpecificCuttingEnergy : R :=
  let category := category (material this) in
  if String.eqb category "metal" then
    if includes (id (material this)) "aluminum" then 0.5
    else if includes (id (material this)) "steel" then 2.5
    else if includes (id (material this)) "stainless" then 3.5
    else if includes (id (material this)) "titanium" then 5.0
    else 2.0
  else if String.eqb category "plastic" then 0.1
  else if String.eqb category "wood" then 0.05
  else 1.0.

Definition getToolPowerFactor : R :=
  match type (tool this) with
  | facemill => 0.7
  | slitting => 1.2
  | drill => 1.1
  | endmill_ball => 0.9
  | _ => 1.0
  end.

Definition calculateImprovedPower (ae ap vf : R) : R :=
  let MRR_mm3_min := ae * ap * vf in
  let MRR_cm3_min := MRR_mm3_min / 1000 in
  let specificEnergy :=
    match specific_cutting_energy_J_mm3 (material this) with
    | Some e => if Req_dec_T e 0 then getSpecificCuttingEnergy else e
    | None => getSpecificCuttingEnergy
    end in
  let cuttingPower := (MRR_mm3_min * specificEnergy) / 60 in
  let toolFactor := getToolPowerFactor in
  let cuttingPower := cuttingPower * toolFactor in
  let cuttingPower := cuttingPower * K_rigidity (machine this) in
  let spindleLosses := cuttingPower * 0.15 in
  cuttingPower + spindleLosses.

Definition calculateImprovedDeflection (force : R) : R :=
  let L := js_or (stickout_mm (tool this)) 20 in
  let d := js_or (shank_mm (tool this)) (diameter_mm (tool this)) in
  let E :=
    if String.eqb (tool_material (tool this)) "hss"
    then MATERIAL_CONSTANTS.HSS_YOUNGS_MODULUS
    else MATERIAL_CONSTANTS.CARBIDE_YOUNGS_MODULUS in
  let I := PI * d ^ 4 / 64 in
  let bendingDeflection := (force * L ^ 3) / (3 * E * I) in
  let G := E / 2.6 in
  let A := PI * d ^ 2 / 4 in
  let shearDeflection := (1.2 * force * L) / (G * A) in
  let holderCompliance := 0.002 in
  let holderDeflection := force * holderCompliance in
  bendingDeflection + shearDeflection + holderDeflection.

Definition calculateMRR (D ae ap vf : R) : R :=
  match type (tool this) with
  | drill => (PI * D * D / 4) * vf
  | _ => ae * ap * vf
  end.

(** [list.includes(this.tool.type)] *)
Definition includes_type (l : list ToolType) (t : ToolType) : bool :=
  existsb (fun t' => if ToolType_eq_dec t' t then true else false) l.

Definition validateChipload (fzAdjusted : R) (fzRange : R * R) : list Warning :=
  let minChipload := fst fzRange * 0.5 in
  let w1 :=
    if Rlt_dec fzAdjusted minChipload
    then if negb (includes_type [drill; boring] (type (tool this)))
         then [warn danger "Chipload too low - rubbing risk"] else []
    else [] in
  let maxChipload := snd fzRange * 1.5 in
  let w2 :=
    if Rgt_dec fzAdjusted maxChipload
    then [warn warning "Chipload very high - check tool strength"] else [] in
  w1 ++ w2.

Definition addToolSpecificWarnings (D ap vf cuttingForce : R) : list Warning :=
  (match type (tool this) with
   | vbit => if Rgt_dec ap (D * 0.5)
             then [warn warning "Deep V-carve - consider multiple passes"] else []
   | _ => []
   end) ++
  (match type (tool this) with
   | slitting => if Rgt_dec vf 500
                 then [warn warning "High feed for slitting saw - watch for blade flex"]
                 else []
   | _ => []
   end) ++
  (match type (tool this) with
   | boring => if Rgt_dec cuttingForce 100
               then [warn warning "High boring force - check bar rigidity"] else []
   | _ => []
   end) ++
  (if Rlt_dec D 1.0
   then if Rgt_dec cuttingForce 10
        then [warn warning "Small tool - risk of breakage"] else []
   else []) ++
  (match userDOC this with
   | Some d => if Rgt_dec d (D * 2)
               then [warn warning "Very deep DOC - ensure adequate chip evacuation"]
               else []
   | None => []
   end).

Definition calculateCuttingForce (ae ap fz : R) : R :=
  let K := force_coeff_KN_mm2 (material this) in
  let area := ae * fz in
  let forceFactor :=
    match type (tool this) with
    | drill => 1.5
    | vbit | chamfer => 0.7
    | facemill => 0.6
    | _ => 1.0
    end in
  K * area * 1000 * forceFactor.

Definition getSpindlePowerAtRPM (rpm : R) : R :=
  let efficiency := 0.85 in
  if Rlt_dec rpm (rpm_min (spindle this)) then 0
  else if Rgt_dec rpm (rpm_max (spindle this)) then 0
  else
    let availablePower :=
      if Rle_dec rpm (base_rpm (spindle this)) then
        let torqueRatio := Rmin (rpm / (rpm_min (spindle this) * 1.5)) 1.0 in
        rated_power_kW (spindle this) * 1000 * (rpm / base_rpm (spindle this)) * torqueRatio
      else
        rated_power_kW (spindle this) * 1000 in
    availablePower * efficiency.

(** *** The inline stages of [calculate] *)

(** Lines 36-43: clamp the RPM to the spindle limits. *)
Definition clampRPM (rpm : R) : R * list Warning :=
  if Rlt_dec rpm (rpm_min (spindle this))
  then (rpm_min (spindle this), [warn warning "RPM limited by spindle minimum"])
  else if Rgt_dec rpm (rpm_max (spindle this))
  then (rpm_max (spindle this), [warn warning "RPM limited by spindle maximum"])
  else (rpm, []).

(** Lines 54-58: chip thinning correction. *)
Definition applyChipThinning (D ae fz : R) : R * list Warning :=
  match chip_thinning (material this) with
  | Some ct =>
      if Rlt_dec ae (D * enable_below_fraction ct)
      then
        let thinningFactor := sqrt (D / ae) in
        (fz * thinningFactor, [warn info "Chip thinning compensation applied"])
      else (fz, [])
  | None => (fz, [])
  end.

(** Lines 65-74: machine feed limit; returns [vf], [fzAdjusted]. *)
Definition limitFeed (rpm z fz vf : R) : R * R * list Warning :=
  let maxFeed :=
    Rmin (Rmin (Axes.x (max_feed_mm_min (machine this)))
               (Axes.y (max_feed_mm_min (machine this))))
         (Axes.z (max_feed_mm_min (machine this))) in
  if Rgt_dec vf maxFeed
  then (maxFeed, maxFeed / (rpm * z), [warn warning "Feed limited by machine"])
  else (vf, fz, []).

(** Lines 84-90: power limiting; returns [vf], [fzAdjusted], [mrr]. *)
Definition limitPower (powerRequired powerAvailable vf fzAdjusted mrr : R)
  : R * R * R * list Warning :=
  if Rgt_dec powerRequired (powerAvailable * 0.9)
  then
    let powerRatio := (powerAvailable * 0.85) / powerRequired in
    (vf * powerRatio, fzAdjusted * powerRatio, mrr * powerRatio,
     [warn warning "Power limited"])
  else (vf, fzAdjusted, mrr, []).

(** Lines 96-104: tool deflection and its warnings. *)
Definition checkDeflection (cuttingForce : R) : R * list Warning :=
  if includes_type [endmill_flat; endmill_ball; tapered] (type (tool this))
  then
    let deflection := calculateImprovedDeflection cuttingForce in
    if Rgt_dec deflection 0.05
    then (deflection,
          [ {| severity := danger;
               message := [Text "High deflection: "; Fixed 3 deflection; Text "mm"] |} ])
    else if Rgt_dec deflection 0.02
    then (deflection,
          [ {| severity := warning;
               message := [Text "Moderate deflection: "; Fixed 3 deflection; Text "mm"] |} ])
    else (deflection, [])
  else (0, []).

(** [calculate()], up to its [return]: [None] when [getChiploadRange] throws
    (an empty chip-load table). *)
Definition calculate_trace : option Trace :=
  let D := getEffectiveDiameter in
  let z := getEffectiveFlutes in
  let speedFactor := getSpeedFactor in
  let vcRange := vc_range (material this) in
  let vc := (fst vcRange + snd vcRange) / 2 * speedFactor * aggressiveness this in
  let rpm0 := (vc * 1000) / (PI * D) in
  let '(rpm, w_rpm) := clampRPM rpm0 in
  match getChiploadRange D with
  | None => None
  | Some fzRange =>
      let toolFactor := js_or (toolChiploadFactors (material this) (type (tool this))) 1.0 in
      let fz0 := (fst fzRange + snd fzRange) / 2 * aggressiveness this * toolFactor in
      let '(ae, ap, w_doc) := getEngagementParams D in
      let '(fz, w_thin) := applyChipThinning D ae fz0 in
      let vf0 := rpm * z * fz in
      let '(vf1, fzAdjusted1, w_feed) := limitFeed rpm z fz vf0 in
      let mrr1 := calculateMRR D ae ap vf1 in
      let powerRequired := calculateImprovedPower ae ap vf1 in
      let powerAvailable := getSpindlePowerAtRPM rpm in
      let '(vf, fzAdjusted, mrr, w_power) :=
        limitPower powerRequired powerAvailable vf1 fzAdjusted1 mrr1 in
      let cuttingForce := calculateCuttingForce ae ap fzAdjusted in
      let '(deflection, w_defl) := checkDeflection cuttingForce in
      let w_chip := validateChipload fzAdjusted fzRange in
      let w_tool := addToolSpecificWarnings D ap vf cuttingForce in
      let vcActual := (PI * D * rpm) / 1000 in
      let sfmActual := vcActual * 3.28084 in
      Some {| t_D := D; t_z := z; t_vc := vc; t_rpm_nominal := rpm0; t_rpm := rpm;
              t_fzRange := fzRange; t_fz_nominal := fz0; t_ae := ae; t_ap := ap;
              t_fz := fz; t_vf_nominal := vf0; t_vf_clamped := vf1;
              t_fz_clamped := fzAdjusted1; t_mrr_unscaled := mrr1;
              t_powerRequired := powerRequired; t_powerAvailable := powerAvailable;
              t_vf := vf; t_fzAdjusted := fzAdjusted; t_mrr := mrr;
              t_cuttingForce := cuttingForce; t_deflection := deflection;
              t_vcActual := vcActual; t_sfmActual := sfmActual;
              t_warnings := w_rpm ++ w_doc ++ w_thin ++ w_feed ++ w_power
                            ++ w_defl ++ w_chip ++ w_tool |}
  end.

(** The [return] statement of [calculate()]. *)
Definition result_of (t : Trace) : Result :=
  {| rpm := Math_round (t_rpm t);
     feed_mm_min := Math_round (t_vf t);
     fz_mm := toFixed 4 (t_fzAdjusted t);
     fz_actual_mm := toFixed 4 (t_fz t);
     ae_mm := toFixed 2 (t_ae t);
     ap_mm := toFixed 2 (t_ap t);
     doc_mm := toFixed 2 (t_ap t);
     mrr_mm3_min := Math_round (t_mrr t);
     power_W := Math_round (t_powerRequired t);
     power_available_W := Math_round (t_powerAvailable t);
     force_N := Math_round (t_cuttingForce t);
     deflection_mm := toFixed 4 (t_deflection t);
     vc_m_min := Math_round (t_vcActual t);
     sfm := Math_round (t_sfmActual t);
     warnings := t_warnings t;
     toolType := type (tool this);
     effectiveDiameter := toFixed 2 (t_D t);
     user_doc_override := match userDOC this with Some _ => true | None => false end |}.

Definition calculate : option Result := option_map result_of calculate_trace.

End SpeedsFeedsCalculator.

(** ** Vocabulary of the properties *)

(** What the input validator (utils/validation.js) demands of a spindle:
    positive rated power, positive minimum RPM, and an RPM range in order. *)
Definition spindle_valid (s : Spindle) : Prop :=
  0 < rated_power_kW s /\ 0 < rpm_min s /\ rpm_min s <= rpm_max s.

(** The three regions of [getSpindlePowerAtRPM]. *)
Inductive PowerRegion := OutOfRange | ConstantTorque | ConstantPower.

Definition powerRegion (s : Spindle) (rpm : R) : PowerRegion :=
  if Rlt_dec rpm (rpm_min s) then OutOfRange
  else if Rgt_dec rpm (rpm_max s) then OutOfRange
  else if Rle_dec rpm (base_rpm s) then ConstantTorque
  else ConstantPower.

(** The request with its [userDOC] replaced. *)
Definition with_userDOC (this : Request) (doc : option R) : Request :=
  {| machine := machine this; spindle := spindle this; tool := tool this;
     material := material this; cutType := cutType this;
     aggressiveness := aggressiveness this; userDOC := doc |}.

Definition power_limited : Warning := warn warning "Power limited".

Definition chip_thinning_applied : Warning :=
  warn info "Chip thinning compensation applied".

(** The variants for which [calculate] computes a deflection. *)
Definition slender (ty : ToolType) : Prop :=
  ty = endmill_flat \/ ty = endmill_ball \/ ty = tapered.

Definition high_deflection (d : R) : Warning :=
  {| severity := danger;
     message := [Text "High deflection: "; Fixed 3 d; Text "mm"] |}.

Definition moderate_deflection (d : R) : Warning :=
  {| severity := warning;
     message := [Text "Moderate deflection: "; Fixed 3 d; Text "mm"] |}.

(** A warning whose message is one of the two deflection templates. *)
Definition deflection_diagnostic (w : Warning) : Prop :=
  exists n v,
    message w = [Text "High deflection: "; Fixed n v; Text "mm"] \/
    message w = [Text "Moderate deflection: "; Fixed n v; Text "mm"].

(** *** The documented readings that the code is compared with *)

(** The documented required power: the fixed surcharge on top of
    [(MRR * energy / 60) * tool factor * rigidity], with the MRR of
    [calculateMRR] (circular for the drill, rectangular otherwise). *)
Definition claimed_power (this : Request) (energy D ae ap vf : R) : R :=
  let cuttingPower :=
    (calculateMRR this D ae ap vf * energy / 60)
    * getToolPowerFactor this * K_rigidity (machine this) in
  cuttingPower + cuttingPower * 0.15.

(** The documented engagement rule: the nominal fractions are the midpoints
    of the ranges that [CUT_TYPES] gives for the requested cut type. *)
Definition catalog_engagement (this : Request) (D : R) : option (R * R) :=
  match cut_types_get CUT_TYPES (cutType this) with
  | None => None
  | Some cutDef =>
      let ae :=
        if String.eqb (cutType this) "slot" then D
        else Rmin (D * midpoint (aeRange_of cutDef)) (maxAe this D)
             * radial (machine_aggressiveness (machine this)) in
      let ap :=
        Rmin (D * midpoint (ap_fraction_range cutDef)) (maxAp this D)
        * axial (machine_aggressiveness (machine this)) in
      Some (ae, ap)
  end.

(** The documented total deflection: bending, shear and a holder term whose
    compliance is the table entry of the holder type. *)
Definition claimed_deflection (this : Request) (h : HolderType) (force : R) : R :=
  let L := js_or (stickout_mm (tool this)) 20 in
  let d := js_or (shank_mm (tool this)) (diameter_mm (tool this)) in
  let E :=
    if String.eqb (tool_material (tool this)) "hss"
    then MATERIAL_CONSTANTS.HSS_YOUNGS_MODULUS
    else MATERIAL_CONSTANTS.CARBIDE_YOUNGS_MODULUS in
  (force * L ^ 3) / (3 * E * (PI * d ^ 4 / 64))
  + (1.2 * force * L) / (E / 2.6 * (PI * d ^ 2 / 4))
  + force * DEFLECTION_CONSTANTS.TOOL_HOLDER_COMPLIANCE h.

(** ** Concrete requests *)

(** [MATERIALS.al_6061_t6] (data/materials.js), with the force coefficient
    and the specific cutting energy left open. *)
Definition aluminium (force_coeff energy : R) : Material :=
  {| id := "al_6061_t6";
     category := "metal";
     vc_range := (76, 305);
     fz_mm_per_tooth_by_diameter :=
       [ {| max_d_mm := 3; range := (0.008, 0.025) |};
         {| max_d_mm := 6; range := (0.020, 0.050) |};
         {| max_d_mm := 10; range := (0.040, 0.080) |};
         {| max_d_mm := 20; range := (0.060, 0.120) |} ];
     toolChiploadFactors := fun ty =>
       Some match ty with
            | endmill_flat => 1.0 | endmill_ball => 0.8 | chamfer => 0.7
            | vbit => 0.6 | facemill => 1.3 | drill => 0.5 | threadmill => 0.4
            | tapered => 0.85 | boring => 0.7 | slitting => 0.6
            end;
     max_radial_engagement_fraction :=
       [ ("slot"%string, 1.0); ("profile"%string, 0.35); ("adaptive"%string, 0.15);
         ("facing"%string, 0.75); ("chamfer"%string, 0.4); ("vcarve"%string, 0.8);
         ("drilling"%string, 1.0); ("boring"%string, 1.0) ];
     max_axial_per_pass_D :=
       [ ("slot"%string, 1.0); ("profile"%string, 1.5); ("adaptive"%string, 2.0);
         ("facing"%string, 0.2); ("chamfer"%string, 0.5); ("vcarve"%string, 0.8);
         ("drilling"%string, 3.0); ("boring"%string, 0.5) ];
     chip_thinning := Some {| enable_below_fraction := 0.5 |};
     force_coeff_KN_mm2 := force_coeff;
     specific_cutting_energy_J_mm3 := Some energy |}.

(** The catalog entry itself. *)
Definition al_6061_t6 : Material := aluminium 0.7 0.5.

(** A two-flute carbide tool of the given type and diameter, 20 mm stickout. *)
Definition carbide_tool (ty : ToolType) (diameter shank : R) : Tool :=
  {| type := ty; diameter_mm := diameter; flutes := Some 2;
     stickout_mm := Some 20; shank_mm := Some shank;
     angle_deg := 0; tip_diameter_mm := 0; taper_angle_deg := 0;
     flute_length_mm := None; min_bore_diameter_mm := 0;
     insert_count := None; teeth := None; tool_material := "carbide" |}.

Definition endmill_6mm : Tool := carbide_tool endmill_flat 6 6.
Definition drill_6mm : Tool := carbide_tool drill 6 6.
Definition endmill_1mm : Tool := carbide_tool endmill_flat 1 3.

(** An 8000-24000 RPM spindle with base RPM 12000. *)
Definition vfd_spindle (rated : R) : Spindle :=
  {| rated_power_kW := rated; base_rpm := 12000; rpm_min := 8000; rpm_max := 24000 |}.

Definition spindle_2_2kW : Spindle := vfd_spindle 2.2.

(** [SPINDLE_TYPES.dewalt_611] (data/spindles.js): base RPM equals minimum RPM. *)
Definition dewalt_611 : Spindle :=
  {| rated_power_kW := 1.25; base_rpm := 16000; rpm_min := 16000; rpm_max := 27000 |}.

Definition gantry (rigidity : R) : Machine :=
  {| max_feed_mm_min := {| Axes.x := 5000; Axes.y := 5000; Axes.z := 3000 |};
     K_rigidity := rigidity;
     machine_aggressiveness := {| radial := 1.0; axial := 1.0; feed := 1.0 |} |}.

Definition router : Machine := gantry 1.0.

Definition request_of (sp : Spindle) (tl : Tool) (cut : string) : Request :=
  {| machine := router; spindle := sp; tool := tl; material := al_6061_t6;
     cutType := cut; aggressiveness := 1.0; userDOC := None |}.

(** The 6 mm flat end mill, profiling, slotting and plunging; 6061 aluminium
    has no "plunge" entry in either engagement table. *)
Definition example_request : Request := request_of spindle_2_2kW endmill_6mm "profile".
Definition slot_request : Request := request_of spindle_2_2kW endmill_6mm "slot".
Definition plunge_request : Request := request_of spindle_2_2kW endmill_6mm "plunge".

(** The 6 mm drill, drilling. *)
Definition drill_request : Request := request_of spindle_2_2kW drill_6mm "drilling".

Definition dewalt_request : Request := request_of dewalt_611 endmill_6mm "profile".

(** The 1 mm end mill on a 3 mm shank, slotting, with the spindle power, the
    machine rigidity and the two material coefficients left open. *)
Definition slot_1mm_request (rated rigidity energy force_coeff : R) : Request :=
  {| machine := gantry rigidity; spindle := vfd_spindle rated; tool := endmill_1mm;
     material := aluminium force_coeff energy;
     cutType := "slot"; aggressiveness := 1.0; userDOC := None |}.

(** The deflection of [endmill_1mm] per newton: the bending, shear and holder
    terms at force 1. *)
Definition endmill_1mm_compliance : R :=
  (1 * 20 ^ 3) / (3 * 600000 * (PI * 3 ^ 4 / 64))
  + (1.2 * 1 * 20) / (600000 / 2.6 * (PI * 3 ^ 2 / 4))
  + 1 * 0.002.

(** The force coefficient is chosen so that the tool deflects by exactly
    0.05 mm. *)
Definition boundary_request : Request :=
  slot_1mm_request 2.2 1.0 0.5 (0.05 / (16.5 * endmill_1mm_compliance)).

(** A 0.1 kW spindle on a rigid machine, in a material of specific cutting
    energy 5 J/mm^3: the cut needs more power than the spindle has. *)
Definition overloaded_request : Request := slot_1mm_request 0.1 2.0 5.0 0.7.

(** ** The rest of the warning vocabulary *)

Definition rpm_limited_min : Warning := warn warning "RPM limited by spindle minimum".
Definition rpm_limited_max : Warning := warn warning "RPM limited by spindle maximum".
Definition feed_limited : Warning := warn warning "Feed limited by machine".
Definition rubbing_risk : Warning := warn danger "Chipload too low - rubbing risk".
Definition chipload_very_high : Warning :=
  warn warning "Chipload very high - check tool strength".
Definition deep_vcarve : Warning :=
  warn warning "Deep V-carve - consider multiple passes".
Definition high_feed_slitting : Warning :=
  warn warning "High feed for slitting saw - watch for blade flex".
Definition high_boring_force : Warning :=
  warn warning "High boring force - check bar rigidity".
Definition small_tool : Warning := warn warning "Small tool - risk of breakage".
Definition very_deep_doc : Warning :=
  warn warning "Very deep DOC - ensure adequate chip evacuation".

Definition user_doc_exceeds (ap maxAp : R) : Warning :=
  {| severity := warning;
     message := [Text "User DOC ("; Fixed 2 ap;
                 Text "mm) exceeds recommended maximum (";
                 Fixed 2 maxAp; Text "mm)"] |}.

(** The local [maxFeed] of [calculate], lines 65-69. *)
Definition maxFeed (this : Request) : R :=
  Rmin (Rmin (Axes.x (max_feed_mm_min (machine this)))
             (Axes.y (max_feed_mm_min (machine this))))
       (Axes.z (max_feed_mm_min (machine this))).

(** The request with its [aggressiveness] replaced. *)
Definition with_aggressiveness (this : Request) (a : R) : Request :=
  {| machine := machine this; spindle := spindle this; tool := tool this;
     material := material this; cutType := cutType this;
     aggressiveness := a; userDOC := userDOC this |}.

(** The tool with its [stickout_mm] or its [material] replaced. *)
Definition tool_with_stickout (tl : Tool) (L : option R) : Tool :=
  {| type := type tl; diameter_mm := diameter_mm tl; flutes := flutes tl;
     stickout_mm := L; shank_mm := shank_mm tl; angle_deg := angle_deg tl;
     tip_diameter_mm := tip_diameter_mm tl; taper_angle_deg := taper_angle_deg tl;
     flute_length_mm := flute_length_mm tl;
     min_bore_diameter_mm := min_bore_diameter_mm tl;
     insert_count := insert_count tl; teeth := teeth tl;
     tool_material := tool_material tl |}.

Definition tool_with_material (tl : Tool) (m : string) : Tool :=
  {| type := type tl; diameter_mm := diameter_mm tl; flutes := flutes tl;
     stickout_mm := stickout_mm tl; shank_mm := shank_mm tl; angle_deg := angle_deg tl;
     tip_diameter_mm := tip_diameter_mm tl; taper_angle_deg := taper_angle_deg tl;
     flute_length_mm := flute_length_mm tl;
     min_bore_diameter_mm := min_bore_diameter_mm tl;
     insert_count := insert_count tl; teeth := teeth tl;
     tool_material := m |}.

(** The request with its [tool] replaced. *)
Definition with_tool (this : Request) (tl : Tool) : Request :=
  {| machine := machine this; spindle := spindle this; tool := tl;
     material := material this; cutType := cutType this;
     aggressiveness := aggressiveness this; userDOC := userDOC this |}.

(** A 60 degree V-bit with a 0.2 mm tip, V-carving. *)
Definition vbit_60 : Tool :=
  {| type := vbit; diameter_mm := 0; flutes := Some 2;
     stickout_mm := Some 20; shank_mm := Some 6;
     angle_deg := 60; tip_diameter_mm := 0.2; taper_angle_deg := 0;
     flute_length_mm := None; min_bore_diameter_mm := 0;
     insert_count := None; teeth := None; tool_material := "carbide" |}.

Definition vbit_request : Request := request_of spindle_2_2kW vbit_60 "vcarve".

(** The slotting request with a 15 mm depth-of-cut override. *)
Definition deep_doc_request : Request := with_userDOC slot_request (Some 15).

(** A chip-load table whose breakpoints ascend. *)
Fixpoint ascending (ranges : list FzBucket) : Prop :=
  match ranges with
  | [] => True
  | b :: ranges' =>
      (forall b', In b' ranges' -> max_d_mm b <= max_d_mm b') /\ ascending ranges'
  end.

(** ** String case conversion *)

Module JsString.

Definition upper (c : Ascii.ascii) : Ascii.ascii :=
  let n := Ascii.nat_of_ascii c in
  if (Nat.leb 97 n && Nat.leb n 122)%bool then Ascii.ascii_of_nat (n - 32) else c.

Definition lower (c : Ascii.ascii) : Ascii.ascii :=
  let n := Ascii.nat_of_ascii c in
  if (Nat.leb 65 n && Nat.leb n 90)%bool then Ascii.ascii_of_nat (n + 32) else c.

(** [s.toUpperCase()] and [s.toLowerCase()] on ASCII strings. *)
Fixpoint toUpperCase (s : string) : string :=
  match s with
  | EmptyString => EmptyString
  | String c s' => String (upper c) (toUpperCase s')
  end.

Fixpoint toLowerCase (s : string) : string :=
  match s with
  | EmptyString => EmptyString
  | String c s' => String (lower c) (toLowerCase s')
  end.

End JsString.

(** ** Input validation (calculations/validation.js) *)

Module Validation.

(** A template literal that interpolates a number as it is. *)
Inductive Piece :=
| Str (s : string)
| Num (value : R).

(** [isValidNumber]: of type number, not NaN and finite; every real is. *)
Definition isValidNumber (value : R) : bool := true.

(** [VALIDATION_LIMITS] of utils/constants.js. *)
Definition SPINDLE_POWER_min : R := 0.1.
Definition SPINDLE_POWER_max : R := 50.
Definition SPINDLE_RPM_min : R := 100.
Definition SPINDLE_RPM_max : R := 100000.

Record Outcome := {
  errors : list string;
  warnings : list (list Piece)
}.

(** [validateSpindle]; [None] is a missing spindle object. *)
Definition validateSpindle (spindle : option Spindle) : Outcome :=
  match spindle with
  | None => {| errors := ["Spindle configuration is required"%string]; warnings := [] |}
  | Some s =>
      let rated_power_kW := rated_power_kW s in
      let power :=
        if (negb (isValidNumber rated_power_kW)
            || if Rle_dec rated_power_kW 0 then true else false)%bool
        then (["Spindle power rating must be positive"%string], [])
        else if Rlt_dec rated_power_kW SPINDLE_POWER_min
        then ([], [[Str "Spindle power below typical minimum ("; Num SPINDLE_POWER_min;
                    Str " kW)"]])
        else if Rgt_dec rated_power_kW SPINDLE_POWER_max
        then ([], [[Str "Spindle power above typical maximum ("; Num SPINDLE_POWER_max;
                    Str " kW)"]])
        else ([], []) in
      let rpm_min := rpm_min s in
      let rpm_max := rpm_max s in
      let base_rpm := base_rpm s in
      let low :=
        if (negb (isValidNumber rpm_min) || if Rle_dec rpm_min 0 then true else false)%bool
        then (["Minimum RPM must be positive"%string], [])
        else if Rlt_dec rpm_min SPINDLE_RPM_min
        then ([], [[Str "Minimum RPM very low ("; Num rpm_min; Str ")"]])
        else ([], []) in
      let high :=
        if (negb (isValidNumber rpm_max) || if Rle_dec rpm_max 0 then true else false)%bool
        then (["Maximum RPM must be positive"%string], [])
        else if Rgt_dec rpm_max SPINDLE_RPM_max
        then ([], [[Str "Maximum RPM very high ("; Num rpm_max; Str ")"]])
        else ([], []) in
      let order :=
        if Rge_dec rpm_min rpm_max
        then ["Maximum RPM must be greater than minimum RPM"%string] else [] in
      let base :=
        if Req_dec_T base_rpm 0 then []
        else if (if Rlt_dec base_rpm rpm_min then true else false)
                || (if Rgt_dec base_rpm rpm_max then true else false)
        then ["Base RPM must be within min/max RPM range"%string] else [] in
      {| errors := fst power ++ fst low ++ fst high ++ order ++ base;
         warnings := snd power ++ snd low ++ snd high |}
  end.

End Validation.

(** ** The power module (calculations/power.js) *)

Module Power.

Definition getSpindlePowerAtRPM (spindle : Spindle) (rpm : R) : R :=
  if Rlt_dec rpm (rpm_min spindle) then 0
  else if Rgt_dec rpm (rpm_max spindle) then 0
  else
    let ratedPowerW := rated_power_kW spindle * 1000 in
    if Rle_dec rpm (base_rpm spindle)
    then ratedPowerW * (rpm / base_rpm spindle)
    else ratedPowerW.

Record Utilization := {
  utilization_percent : R;
  available_power_W : R;
  required_power_W : R;
  status : string;
  message : string
}.

Definition analyzePowerUtilization (requiredPowerW : R) (spindle : Spindle) (rpm : R)
  : Utilization :=
  let availablePowerW := getSpindlePowerAtRPM spindle rpm in
  if Req_dec_T availablePowerW 0
  then {| utilization_percent := 0; available_power_W := 0;
          required_power_W := requiredPowerW; status := "error";
          message := "RPM outside spindle operating range" |}
  else
    let utilizationPercent := (requiredPowerW / availablePowerW) * 100 in
    let '(status, message) :=
      if Rle_dec utilizationPercent 80
      then ("good"%string, "Power utilization within safe limits"%string)
      else if Rle_dec utilizationPercent 95
      then ("warning"%string,
            "High power utilization - consider reducing parameters"%string)
      else ("danger"%string, "Power requirement exceeds spindle capability"%string) in
    {| utilization_percent := utilizationPercent;
       available_power_W := availablePowerW;
       required_power_W := requiredPowerW;
       status := status; message := message |}.

End Power.

(** ** The deflection module (calculations/deflection.js) *)

Module Deflection.

(** [MATERIAL_CONSTANTS] and [DEFLECTION_CONSTANTS.DEFLECTION_LIMITS] of
    utils/constants.js. *)
Definition CARBIDE_E_GPA : R := 600.
Definition HSS_E_GPA : R := 210.
Definition FINISH : R := 0.005.
Definition SEMI_FINISH : R := 0.02.
Definition ROUGH : R := 0.05.

(** [DEFLECTION_CONSTANTS.TOOL_HOLDER_COMPLIANCE[key]] *)
Definition holder_compliance_get (key : string) : option R :=
  if String.eqb key "COLLET"
  then Some (DEFLECTION_CONSTANTS.TOOL_HOLDER_COMPLIANCE COLLET)
  else if String.eqb key "SHRINK_FIT"
  then Some (DEFLECTION_CONSTANTS.TOOL_HOLDER_COMPLIANCE SHRINK_FIT)
  else if String.eqb key "HYDRAULIC"
  then Some (DEFLECTION_CONSTANTS.TOOL_HOLDER_COMPLIANCE HYDRAULIC)
  else if String.eqb key "POOR_SETUP"
  then Some (DEFLECTION_CONSTANTS.TOOL_HOLDER_COMPLIANCE POOR_SETUP)
  else None.

Definition calculateBendingDeflection (diameter length force E : R) : R :=
  let I := (PI * diameter ^ 4) / 64 in
  let E_Pa := E * 1000 in
  (force * length ^ 3) / (3 * E_Pa * I).

Definition calculateShearDeflection (diameter length force E : R) : R :=
  let G := E / 2.6 in
  let A := (PI * diameter * diameter) / 4 in
  let k := 1.33 in
  let G_Pa := G * 1000 in
  (k * force * length) / (G_Pa * A).

Definition calculateHolderCompliance (force : R) (holderType : string) : R :=
  let compliance :=
    js_or (holder_compliance_get (JsString.toUpperCase holderType))
          (DEFLECTION_CONSTANTS.TOOL_HOLDER_COMPLIANCE COLLET) in
  force * compliance.

Definition moduli : dict :=
  [ ("carbide"%string, CARBIDE_E_GPA); ("hss"%string, HSS_E_GPA);
    ("cermet"%string, 450); ("ceramic"%string, 380);
    ("diamond"%string, 1000); ("cbn"%string, 700) ].

Definition getToolModulus (material : string) : R :=
  js_or (lookup moduli (JsString.toLowerCase material)) CARBIDE_E_GPA.

Record Analysis := {
  status : string;
  severity : string;
  message : string;
  deflection_percent_of_diameter : R;
  recommendations : list string
}.

Definition analyzeDeflection (deflection : R) (tool : Tool) : Analysis :=
  let diameter := js_or (Some (diameter_mm tool)) 6 in
  let deflectionPercent := (deflection / diameter) * 100 in
  let '(status, severity, message, recommendations) :=
    if Rle_dec deflection FINISH
    then ("excellent"%string, "info"%string,
          "Deflection within finishing tolerance"%string, [])
    else if Rle_dec deflection SEMI_FINISH
    then ("good"%string, "info"%string,
          "Deflection suitable for semi-finishing"%string, [])
    else if Rle_dec deflection ROUGH
    then ("acceptable"%string, "warning"%string,
          "Deflection acceptable for roughing only"%string,
          ["Consider reducing cutting parameters for better finish"%string])
    else ("excessive"%string, "danger"%string,
          "Excessive deflection - risk of poor finish or tool breakage"%string,
          ["Reduce cutting forces"%string;
           "Use shorter/larger diameter tool"%string;
           "Improve tool holder rigidity"%string]) in
  let recommendations :=
    if Rgt_dec deflectionPercent 1.0
    then recommendations ++ ["Deflection > 1% of tool diameter"%string]
    else recommendations in
  {| status := status; severity := severity; message := message;
     deflection_percent_of_diameter := deflectionPercent;
     recommendations := recommendations |}.

Record Geometry := {
  geometry_diameter_mm : R;
  length_mm : R;
  modulus_GPa : R
}.

Record Report := {
  total_deflection_mm : R;
  bending_deflection_mm : R;
  shear_deflection_mm : R;
  holder_compliance_mm : R;
  deflection_analysis : Analysis;
  tool_geometry : Geometry
}.

(** [calculateToolDeflection({tool, cuttingForce, stickout, holderType})];
    a missing [holderType] is ['collet']. *)
Definition calculateToolDeflection
    (tool : Tool) (cuttingForce : R) (stickout : option R) (holderType : option string)
  : Report :=
  let holderType := match holderType with Some h => h | None => "collet"%string end in
  let diameter := js_or (Some (diameter_mm tool)) 6 in
  let length := js_or stickout (js_or (stickout_mm tool) 25) in
  let toolMaterial :=
    if String.eqb (tool_material tool) "" then "carbide"%string else tool_material tool in
  let E := getToolModulus toolMaterial in
  let bendingDeflection := calculateBendingDeflection diameter length cuttingForce E in
  let shearDeflection := calculateShearDeflection diameter length cuttingForce E in
  let holderCompliance := calculateHolderCompliance cuttingForce holderType in
  let totalDeflection := bendingDeflection + shearDeflection + holderCompliance in
  {| total_deflection_mm := totalDeflection;
     bending_deflection_mm := bendingDeflection;
     shear_deflection_mm := shearDeflection;
     holder_compliance_mm := holderCompliance;
     deflection_analysis := analyzeDeflection totalDeflection tool;
     tool_geometry := {| geometry_diameter_mm := diameter; length_mm := length;
                         modulus_GPa := E |} |}.

End Deflection.

(** ** Basic facts about the pipeline *)

Section Pipeline.

Variable this : Request.

(** The trace, field by field, in terms of the stages. *)
Lemma calculate_trace_fields (t : Trace) :
  calculate_trace this = Some t ->
  t_D t = getEffectiveDiameter this /\
  t_z t = getEffectiveFlutes this /\
  t_rpm t = fst (clampRPM this (t_rpm_nominal t)) /\
  getChiploadRange this (t_D t) = Some (t_fzRange t) /\
  t_ae t = fst (fst (getEngagementParams this (t_D t))) /\
  t_ap t = snd (fst (getEngagementParams this (t_D t))) /\
  t_fz t = fst (applyChipThinning this (t_D t) (t_ae t) (t_fz_nominal t)) /\
  t_vf_nominal t = t_rpm t * t_z t * t_fz t /\
  t_vf_clamped t = fst (fst (limitFeed this (t_rpm t) (t_z t) (t_fz t) (t_vf_nominal t))) /\
  t_fz_clamped t = snd (fst (limitFeed this (t_rpm t) (t_z t) (t_fz t) (t_vf_nominal t))) /\
  t_mrr_unscaled t = calculateMRR this (t_D t) (t_ae t) (t_ap t) (t_vf_clamped t) /\
  t_powerRequired t = calculateImprovedPower this (t_ae t) (t_ap t) (t_vf_clamped t) /\
  t_powerAvailable t = getSpindlePowerAtRPM this (t_rpm t) /\
  (t_vf t, t_fzAdjusted t, t_mrr t) =
    fst (limitPower (t_powerRequired t) (t_powerAvailable t)
                    (t_vf_clamped t) (t_fz_clamped t) (t_mrr_unscaled t)) /\
  t_cuttingForce t = calculateCuttingForce this (t_ae t) (t_ap t) (t_fzAdjusted t) /\
  t_deflection t = fst (checkDeflection this (t_cuttingForce t)) /\
  t_warnings t =
    snd (clampRPM this (t_rpm_nominal t))
    ++ snd (getEngagementParams this (t_D t))
    ++ snd (applyChipThinning this (t_D t) (t_ae t) (t_fz_nominal t))
    ++ snd (limitFeed this (t_rpm t) (t_z t) (t_fz t) (t_vf_nominal t))
    ++ snd (limitPower (t_powerRequired t) (t_powerAvailable t)
                       (t_vf_clamped t) (t_fz_clamped t) (t_mrr_unscaled t))
    ++ snd (checkDeflection this (t_cuttingForce t))
    ++ validateChipload this (t_fzAdjusted t) (t_fzRange t)
    ++ addToolSpecificWarnings this (t_D t) (t_ap t) (t_vf t) (t_cuttingForce t).
Proof.
  unfold calculate_trace.
  destruct (clampRPM this _) as [rpm' w_rpm] eqn:Hclamp.
  destruct (getChiploadRange this _) as [fzRange|] eqn:Hfz; [|discriminate].
  destruct (getEngagementParams this _) as [[ae ap] w_doc] eqn:Heng.
  destruct (applyChipThinning this _ ae _) as [fz w_thin] eqn:Hthin.
  destruct (limitFeed this rpm' _ fz _) as [[vf1 fzA1] w_feed] eqn:Hfeed.
  destruct (limitPower _ _ vf1 fzA1 _) as [[[vf fzA] mrr] w_power] eqn:Hpow.
  destruct (checkDeflection this _) as [defl w_defl] eqn:Hdefl.
  intros H; injection H as <-; cbn [t_D t_z t_rpm t_rpm_nominal t_fzRange t_ae t_ap
    t_fz t_fz_nominal t_vf_nominal t_vf_clamped t_fz_clamped t_mrr_unscaled
    t_powerRequired t_powerAvailable t_vf t_fzAdjusted t_mrr t_cuttingForce
    t_deflection t_warnings].
  rewrite Hclamp, Hfz, Heng, Hthin, Hfeed, Hpow, Hdefl; cbn [fst snd].
  repeat split; reflexivity.
Qed.

(** The nominal values computed before any clamping. *)
Lemma calculate_trace_nominal (t : Trace) :
  calculate_trace this = Some t ->
  t_vc t = (fst (vc_range (material this)) + snd (vc_range (material this))) / 2
           * getSpeedFactor this * aggressiveness this /\
  t_rpm_nominal t = (t_vc t * 1000) / (PI * t_D t) /\
  t_fz_nominal t =
    (fst (t_fzRange t) + snd (t_fzRange t)) / 2 * aggressiveness this
    * js_or (toolChiploadFactors (material this) (type (tool this))) 1.0 /\
  t_vcActual t = (PI * t_D t * t_rpm t) / 1000 /\
  t_sfmActual t = t_vcActual t * 3.28084.
Proof.
  unfold calculate_trace.
  destruct (clampRPM this _) as [rpm' w_rpm] eqn:Hclamp.
  destruct (getChiploadRange this _) as [fzRange|] eqn:Hfz; [|discriminate].
  destruct (getEngagementParams this _) as [[ae ap] w_doc] eqn:Heng.
  destruct (applyChipThinning this _ ae _) as [fz w_thin] eqn:Hthin.
  destruct (limitFeed this rpm' _ fz _) as [[vf1 fzA1] w_feed] eqn:Hfeed.
  destruct (limitPower _ _ vf1 fzA1 _) as [[[vf fzA] mrr] w_power] eqn:Hpow.
  destruct (checkDeflection this _) as [defl w_defl] eqn:Hdefl.
  intros H; injection H as <-; cbn.
  repeat split; reflexivity.
Qed.

(** [calculate()] returns whenever the chip-load table is not empty. *)
Lemma calculate_trace_returns :
  fz_mm_per_tooth_by_diameter (material this) <> [] ->
  exists t, calculate_trace this = Some t.
Proof.
  intros Hne. unfold calculate_trace.
  destruct (clampRPM this _) as [rpm' w_rpm].
  assert (Hsome : exists r, getChiploadRange this (getEffectiveDiameter this) = Some r).
  { unfold getChiploadRange.
    destruct (firstBucket _ _) as [r|]; [now exists r|].
    destruct (fz_mm_per_tooth_by_diameter (material this)) as [|b l]; [contradiction|].
    clear Hne. revert b. induction l as [|b' l IH]; intros b.
    - now exists (range b).
    - destruct (IH b') as [r Hr]. exists r. exact Hr. }
  destruct Hsome as [r ->].
  destruct (getEngagementParams this _) as [[ae ap] w_doc].
  destruct (applyChipThinning this _ ae _) as [fz w_thin].
  destruct (limitFeed this rpm' _ fz _) as [[vf1 fzA1] w_feed].
  destruct (limitPower _ _ vf1 fzA1 _) as [[[vf fzA] mrr] w_power].
  destruct (checkDeflection this _) as [defl w_defl].
  eexists; reflexivity.
Qed.

End Pipeline.

(** ** Warnings: which stage pushes what *)

(** Reduces a hypothesis [In w (stage ...)] to the equalities [w' = w], one
    per warning the stage can push, and closes the impossible ones. *)
Ltac stage_cases H :=
  unfold clampRPM, getEngagementParams, applyChipThinning, limitFeed, limitPower,
    checkDeflection, validateChipload, addToolSpecificWarnings, warn in H;
  repeat match type of H with
         | context [if ?c then _ else _] => destruct c
         | context [match ?x with _ => _ end] => destruct x
         end;
  cbn [fst snd app In] in H;
  repeat match type of H with
         | _ \/ _ => destruct H as [H | H]
         | False => contradiction
         | _ = _ => try discriminate H
         end.

Section Warnings.

Variable this : Request.

Lemma power_limited_only_from_limitPower (t : Trace) :
  calculate_trace this = Some t ->
  In power_limited (t_warnings t) ->
  In power_limited
     (snd (limitPower (t_powerRequired t) (t_powerAvailable t)
                      (t_vf_clamped t) (t_fz_clamped t) (t_mrr_unscaled t))).
Proof.
  intros Ht Hin.
  destruct (calculate_trace_fields this t Ht)
    as (_ & _ & _ & _ & _ & _ & _ & _ & _ & _ & _ & _ & _ & _ & _ & _ & Hw).
  rewrite Hw in Hin. unfold power_limited in *.
  repeat (apply in_app_or in Hin; destruct Hin as [Hin | Hin]);
    try assumption; exfalso; stage_cases Hin.
Qed.

Lemma chip_thinning_only_from_applyChipThinning (t : Trace) :
  calculate_trace this = Some t ->
  In chip_thinning_applied (t_warnings t) ->
  In chip_thinning_applied
     (snd (applyChipThinning this (t_D t) (t_ae t) (t_fz_nominal t))).
Proof.
  intros Ht Hin.
  destruct (calculate_trace_fields this t Ht)
    as (_ & _ & _ & _ & _ & _ & _ & _ & _ & _ & _ & _ & _ & _ & _ & _ & Hw).
  rewrite Hw in Hin. unfold chip_thinning_applied in *.
  repeat (apply in_app_or in Hin; destruct Hin as [Hin | Hin]);
    try assumption; exfalso; stage_cases Hin.
Qed.

End Warnings.

(** ** The spindle power curve and the RPM clamp *)

Section SpindlePower.

Variable this : Request.

Let s := spindle this.

Lemma getSpindlePowerAtRPM_by_region (rpm : R) :
  getSpindlePowerAtRPM this rpm =
  match powerRegion s rpm with
  | OutOfRange => 0
  | ConstantTorque =>
      rated_power_kW s * 1000 * (rpm / base_rpm s)
      * Rmin (rpm / (rpm_min s * 1.5)) 1.0 * 0.85
  | ConstantPower => rated_power_kW s * 1000 * 0.85
  end.
Proof.
  unfold getSpindlePowerAtRPM, powerRegion, s.
  destruct (Rlt_dec _ _); [reflexivity|].
  destruct (Rgt_dec _ _); [reflexivity|].
  destruct (Rle_dec _ _); reflexivity.
Qed.

Lemma clampRPM_in_range (rpm : R) :
  rpm_min s <= rpm_max s ->
  rpm_min s <= fst (clampRPM this rpm) <= rpm_max s.
Proof.
  intros Hle. unfold clampRPM. fold s.
  destruct (Rlt_dec rpm (rpm_min s)); cbn [fst]; [lra|].
  destruct (Rgt_dec rpm (rpm_max s)); cbn [fst]; lra.
Qed.

Lemma powerRegion_in_range (rpm : R) :
  rpm_min s <= rpm <= rpm_max s -> powerRegion s rpm <> OutOfRange.
Proof.
  intros [H1 H2]. unfold powerRegion.
  destruct (Rlt_dec _ _); [lra|].
  destruct (Rgt_dec _ _); [lra|].
  destruct (Rle_dec _ _); discriminate.
Qed.

Lemma getSpindlePowerAtRPM_pos (rpm : R) :
  spindle_valid s ->
  rpm_min s <= rpm <= rpm_max s ->
  0 < getSpindlePowerAtRPM this rpm.
Proof.
  intros (Hp & Hmin & Hord) [H1 H2].
  rewrite getSpindlePowerAtRPM_by_region. unfold powerRegion.
  destruct (Rlt_dec _ _); [lra|].
  destruct (Rgt_dec _ _); [lra|].
  destruct (Rle_dec _ _) as [Hb|Hb]; [|lra].
  assert (0 < rpm) by lra.
  assert (0 < rpm / base_rpm s) by (apply Rdiv_lt_0_compat; lra).
  assert (0 < rpm / (rpm_min s * 1.5)) by (apply Rdiv_lt_0_compat; lra).
  assert (0 < Rmin (rpm / (rpm_min s * 1.5)) 1.0)
    by (apply Rmin_glb_lt; lra).
  assert (0 < rated_power_kW s * 1000 * (rpm / base_rpm s))
    by (apply Rmult_lt_0_compat; lra).
  assert (0 < rated_power_kW s * 1000 * (rpm / base_rpm s)
              * Rmin (rpm / (rpm_min s * 1.5)) 1.0)
    by (apply Rmult_lt_0_compat; lra).
  lra.
Qed.

End SpindlePower.

(** ** Required power is linear in the feed *)

Lemma calculateImprovedPower_scale (this : Request) (ae ap vf k : R) :
  calculateImprovedPower this ae ap (vf * k) =
  calculateImprovedPower this ae ap vf * k.
Proof.
  unfold calculateImprovedPower.
  destruct (specific_cutting_energy_J_mm3 (material this)) as [e|];
    [destruct (Req_dec_T e 0)|]; field.
Qed.


(** ** Engagement *)

Lemma getEngagementParams_ae (this : Request) (D : R) :
  fst (fst (getEngagementParams this D)) = fst (getBaseEngagementParams this D).
Proof.
  unfold getEngagementParams.
  destruct (getBaseEngagementParams this D) as [baseAe baseAp]. reflexivity.
Qed.

Lemma getEngagementParams_ap (this : Request) (D : R) :
  snd (fst (getEngagementParams this D)) =
  match userDOC this with
  | Some d => d
  | None => snd (getBaseEngagementParams this D)
  end.
Proof.
  unfold getEngagementParams.
  destruct (getBaseEngagementParams this D) as [baseAe baseAp]. reflexivity.
Qed.

(** What the code computes for every variant other than drill and V-bit:
    the nominal fractions are the constants 0.3 and 0.75 of the fixed
    structure, whatever the cut type. *)
Lemma getBaseEngagementParams_standard (this : Request) (D : R) :
  type (tool this) <> drill ->
  type (tool this) <> vbit ->
  getBaseEngagementParams this D =
  ((if String.eqb (cutType this) "slot" then D
    else Rmin (D * 0.3) (maxAe this D) * radial (machine_aggressiveness (machine this))),
   Rmin (D * 0.75) (maxAp this D) * axial (machine_aggressiveness (machine this))).
Proof.
  intros Hd Hv. unfold getBaseEngagementParams, getCutDefinition, aeRange_of.
  cbn [ae_spec ap_fraction_range fst snd].
  replace ((0.3 + 0.3) / 2) with 0.3 by lra.
  replace ((0.5 + 1.0) / 2) with 0.75 by lra.
  destruct (type (tool this)); try reflexivity; contradiction.
Qed.

(** ** Required power *)

Lemma calculateImprovedPower_energy (this : Request) (e ae ap vf : R) :
  specific_cutting_energy_J_mm3 (material this) = Some e ->
  e <> 0 ->
  calculateImprovedPower this ae ap vf =
  (ae * ap * vf * e / 60) * getToolPowerFactor this * K_rigidity (machine this)
  + (ae * ap * vf * e / 60) * getToolPowerFactor this * K_rigidity (machine this) * 0.15.
Proof.
  intros He Hne. unfold calculateImprovedPower. rewrite He.
  destruct (Req_dec_T e 0); [contradiction|]. reflexivity.
Qed.

(** ** Deflection *)

Lemma includes_type_slender (ty : ToolType) :
  includes_type [endmill_flat; endmill_ball; tapered] ty = true <-> slender ty.
Proof.
  unfold slender. destruct ty; cbn; split; intros H;
    try reflexivity; try discriminate; auto;
    destruct H as [H|[H|H]]; discriminate.
Qed.

Lemma calculateImprovedDeflection_linear (this : Request) (force : R) :
  calculateImprovedDeflection this force =
  force * calculateImprovedDeflection this 1.
Proof. unfold calculateImprovedDeflection. unfold Rdiv. ring. Qed.

Lemma holder_compliance_not_in_table (h : HolderType) :
  DEFLECTION_CONSTANTS.TOOL_HOLDER_COMPLIANCE h <> 0.002.
Proof. destruct h; cbn; lra. Qed.

Lemma calculateImprovedDeflection_vs_claimed
      (this : Request) (h : HolderType) (force : R) :
  calculateImprovedDeflection this force - claimed_deflection this h force
  = force * (0.002 - DEFLECTION_CONSTANTS.TOOL_HOLDER_COMPLIANCE h).
Proof. unfold calculateImprovedDeflection, claimed_deflection. ring. Qed.

Section DeflectionCheck.

Variable this : Request.

Lemma checkDeflection_slender (force : R) :
  slender (type (tool this)) ->
  let d := calculateImprovedDeflection this force in
  fst (checkDeflection this force) = d /\
  (d > 0.05 -> snd (checkDeflection this force) = [high_deflection d]) /\
  (0.02 < d <= 0.05 -> snd (checkDeflection this force) = [moderate_deflection d]) /\
  (d <= 0.02 -> snd (checkDeflection this force) = []).
Proof.
  intros Hs d. apply includes_type_slender in Hs.
  unfold checkDeflection. rewrite Hs. fold d.
  destruct (Rgt_dec d 0.05); [|destruct (Rgt_dec d 0.02)]; cbn [fst snd];
    repeat split; intros; try reflexivity; lra.
Qed.

Lemma checkDeflection_other :
  ~ slender (type (tool this)) ->
  forall force, checkDeflection this force = (0, []).
Proof.
  intros Hs force. unfold checkDeflection.
  destruct (includes_type _ _) eqn:Hin; [|reflexivity].
  apply includes_type_slender in Hin. contradiction.
Qed.

Lemma deflection_diagnostic_only_from_checkDeflection (t : Trace) (w : Warning) :
  calculate_trace this = Some t ->
  In w (t_warnings t) ->
  deflection_diagnostic w ->
  In w (snd (checkDeflection this (t_cuttingForce t))).
Proof.
  intros Ht Hin Hd.
  destruct (calculate_trace_fields this t Ht)
    as (_ & _ & _ & _ & _ & _ & _ & _ & _ & _ & _ & _ & _ & _ & _ & _ & Hw).
  rewrite Hw in Hin.
  repeat (apply in_app_or in Hin; destruct Hin as [Hin | Hin]);
    try assumption; exfalso; stage_cases Hin; subst w;
    destruct Hd as (? & ? & [Hd | Hd]); discriminate Hd.
Qed.

End DeflectionCheck.

(** ** The concrete requests, evaluated *)

(** Settles the comparisons of a goal whose operands are numerals. *)
Ltac Rdecide :=
  repeat match goal with
         | |- context [Rlt_dec ?a ?b] => destruct (Rlt_dec a b); try (exfalso; lra)
         | |- context [Rgt_dec ?a ?b] => destruct (Rgt_dec a b); try (exfalso; lra)
         | |- context [Rle_dec ?a ?b] => destruct (Rle_dec a b); try (exfalso; lra)
         | |- context [Req_dec_T ?a ?b] => destruct (Req_dec_T a b); try (exfalso; lra)
         end.

Lemma PI_gt_3 : 3 < PI.
Proof. pose proof PI2_3_2. lra. Qed.

Lemma Rdiv_gt_bound (a b d : R) : 0 < d -> b * d < a -> a / d > b.
Proof.
  intros Hd H. apply Rlt_gt. apply (Rmult_lt_reg_r d); [exact Hd|].
  unfold Rdiv. rewrite Rmult_assoc, Rinv_l by lra. lra.
Qed.

Lemma limitFeed_vf_pos (this : Request) (rpm z fz vf : R) :
  0 < vf ->
  0 < Axes.x (max_feed_mm_min (machine this)) ->
  0 < Axes.y (max_feed_mm_min (machine this)) ->
  0 < Axes.z (max_feed_mm_min (machine this)) ->
  0 < fst (fst (limitFeed this rpm z fz vf)).
Proof.
  intros Hvf Hx Hy Hz. unfold limitFeed.
  destruct (Rgt_dec _ _); cbn [fst]; [|exact Hvf].
  repeat apply Rmin_glb_lt; assumption.
Qed.

Lemma example_request_returns : exists t, calculate_trace example_request = Some t.
Proof. apply calculate_trace_returns. discriminate. Qed.

Lemma slot_request_returns : exists t, calculate_trace slot_request = Some t.
Proof. apply calculate_trace_returns. discriminate. Qed.

Lemma drill_request_returns : exists t, calculate_trace drill_request = Some t.
Proof. apply calculate_trace_returns. discriminate. Qed.

Lemma slot_1mm_request_returns (rated rigidity energy force_coeff : R) :
  exists t, calculate_trace (slot_1mm_request rated rigidity energy force_coeff) = Some t.
Proof. apply calculate_trace_returns. discriminate. Qed.

Lemma vfd_spindle_valid (rated : R) : 0 < rated -> spindle_valid (vfd_spindle rated).
Proof. intros H. unfold spindle_valid; cbn; lra. Qed.

Lemma plunge_no_radial_entry :
  lookup (max_radial_engagement_fraction (material plunge_request))
         (cutType plunge_request) = None.
Proof. reflexivity. Qed.

Lemma plunge_no_axial_entry :
  lookup (max_axial_per_pass_D (material plunge_request))
         (cutType plunge_request) = None.
Proof. reflexivity. Qed.

(** The trace of the drilling request: D = 6, ae = 6, ap = 3, and a positive
    feed after the machine limit. *)
Lemma drill_trace_facts (t : Trace) :
  calculate_trace drill_request = Some t ->
  t_D t = 6 /\ t_ae t = 6 /\ t_ap t = 6 * 0.5 /\ 0 < t_vf_clamped t.
Proof.
  intros Ht.
  destruct (calculate_trace_fields drill_request t Ht)
    as (HD & Hz & Hrpm & Hrange & Hae & Hap & Hfz & Hvf0 & Hvf1 & _).
  destruct (calculate_trace_nominal drill_request t Ht) as (_ & _ & Hfz0 & _).
  change (getEffectiveDiameter drill_request) with 6 in HD.
  rewrite HD in *.
  change (getEngagementParams drill_request 6) with (6, 6 * 0.5, @nil Warning) in Hae, Hap.
  cbn [fst snd] in Hae, Hap.
  assert (Hrange' : getChiploadRange drill_request 6 = Some (0.020, 0.050)).
  { unfold getChiploadRange. cbn. Rdecide. reflexivity. }
  rewrite Hrange' in Hrange. injection Hrange as Hrange.
  assert (Hz2 : t_z t = 2).
  { rewrite Hz. unfold getEffectiveFlutes. cbn. Rdecide. reflexivity. }
  assert (Hfz0' : t_fz_nominal t = 0.0175).
  { rewrite Hfz0, <- Hrange. cbn. Rdecide. lra. }
  assert (Hfz' : t_fz t = 0.0175).
  { rewrite Hfz, Hae. unfold applyChipThinning. cbn. Rdecide. exact Hfz0'. }
  assert (Hrange_rpm : 8000 <= t_rpm t <= 24000).
  { rewrite Hrpm. apply (clampRPM_in_range drill_request). cbn. lra. }
  repeat split; try assumption.
  rewrite Hvf1. apply limitFeed_vf_pos; cbn; try lra.
  rewrite Hvf0, Hz2, Hfz'. nra.
Qed.

Lemma endmill_1mm_compliance_pos : 0 < endmill_1mm_compliance.
Proof.
  unfold endmill_1mm_compliance. pose proof PI_RGT_0 as Hpi.
  assert (0 < (1 * 20 ^ 3) / (3 * 600000 * (PI * 3 ^ 4 / 64)))
    by (apply Rdiv_lt_0_compat; nra).
  assert (0 < (1.2 * 1 * 20) / (600000 / 2.6 * (PI * 3 ^ 2 / 4)))
    by (apply Rdiv_lt_0_compat; nra).
  lra.
Qed.

Section Slot1mm.

Variables rated rigidity energy force_coeff : R.
Hypothesis energy_nonzero : energy <> 0.

Let this := slot_1mm_request rated rigidity energy force_coeff.

Lemma slot_1mm_unit_deflection :
  calculateImprovedDeflection this 1 = endmill_1mm_compliance.
Proof.
  unfold calculateImprovedDeflection, endmill_1mm_compliance. cbn. Rdecide.
  unfold MATERIAL_CONSTANTS.CARBIDE_YOUNGS_MODULUS. reflexivity.
Qed.

(** The nominal RPM, [190500 / PI], is above the spindle maximum. *)
Lemma slot_1mm_rpm (t : Trace) :
  calculate_trace this = Some t -> t_rpm t = 24000.
Proof.
  intros Ht.
  destruct (calculate_trace_fields this t Ht) as (HD & _ & Hrpm & _).
  destruct (calculate_trace_nominal this t Ht) as (Hvc & Hrpm0 & _).
  change (getEffectiveDiameter this) with 1 in HD.
  assert (Hvc' : t_vc t = 190.5).
  { rewrite Hvc. unfold getSpeedFactor. cbn. Rdecide. lra. }
  rewrite Hrpm, Hrpm0, Hvc', HD. unfold clampRPM.
  cbn [this slot_1mm_request spindle vfd_spindle rpm_min rpm_max].
  pose proof PI_RGT_0 as Hpi. pose proof PI_4 as Hpi4.
  assert (Hhigh : 190.5 * 1000 / (PI * 1) > 24000)
    by (apply Rdiv_gt_bound; lra).
  destruct (Rlt_dec _ 8000); [exfalso; lra|].
  destruct (Rgt_dec _ 24000); [reflexivity|contradiction].
Qed.

(** The trace up to the power comparison: full-width engagement, no chip
    thinning, no machine feed limit. *)
Lemma slot_1mm_trace (t : Trace) :
  calculate_trace this = Some t ->
  t_ae t = 1 /\ t_ap t = 0.75 /\
  t_vf_clamped t = 792 /\ t_fz_clamped t = 0.0165 /\ t_mrr_unscaled t = 594 /\
  t_powerRequired t = 11.385 * energy * rigidity /\
  t_powerAvailable t = rated * 850.
Proof.
  intros Ht. pose proof (slot_1mm_rpm t Ht) as Hrpm.
  destruct (calculate_trace_fields this t Ht)
    as (HD & Hz & _ & Hrange & Hae & Hap & Hfz & Hvf0 & Hvf1 & Hfz1 & Hmrr & Hreq & Hav & _).
  destruct (calculate_trace_nominal this t Ht) as (_ & _ & Hfz0 & _).
  change (getEffectiveDiameter this) with 1 in HD.
  rewrite HD in *.
  assert (Hrange' : getChiploadRange this 1 = Some (0.008, 0.025)).
  { unfold getChiploadRange. cbn. Rdecide. reflexivity. }
  rewrite Hrange' in Hrange. injection Hrange as Hrange.
  assert (Hz2 : t_z t = 2).
  { rewrite Hz. unfold getEffectiveFlutes. cbn. Rdecide. reflexivity. }
  assert (Hae1 : t_ae t = 1).
  { rewrite Hae, getEngagementParams_ae.
    rewrite getBaseEngagementParams_standard by discriminate. reflexivity. }
  assert (Hap1 : t_ap t = 0.75).
  { rewrite Hap, getEngagementParams_ap. cbn [userDOC this slot_1mm_request].
    rewrite getBaseEngagementParams_standard by discriminate.
    unfold maxAp, Rmin. cbn. Rdecide; lra. }
  assert (Hfz0' : t_fz_nominal t = 0.0165).
  { rewrite Hfz0, <- Hrange. cbn. Rdecide. lra. }
  assert (Hfz' : t_fz t = 0.0165).
  { rewrite Hfz, Hae1. unfold applyChipThinning. cbn. Rdecide. exact Hfz0'. }
  assert (Hvf0' : t_vf_nominal t = 792).
  { rewrite Hvf0, Hrpm, Hz2, Hfz'. lra. }
  assert (Hfeed : limitFeed this (t_rpm t) (t_z t) (t_fz t) (t_vf_nominal t)
                  = (792, 0.0165, [])).
  { rewrite Hvf0', Hfz'. unfold limitFeed, Rmin. cbn. Rdecide. reflexivity. }
  rewrite Hfeed in Hvf1, Hfz1. cbn [fst snd] in Hvf1, Hfz1.
  repeat split; try assumption.
  - rewrite Hmrr, Hae1, Hap1, Hvf1. cbn. lra.
  - rewrite Hreq, Hae1, Hap1, Hvf1.
    rewrite (calculateImprovedPower_energy this energy) by (reflexivity || assumption).
    cbn. lra.
  - rewrite Hav, Hrpm. unfold getSpindlePowerAtRPM. cbn. Rdecide. lra.
Qed.

End Slot1mm.

(** The trace of [boundary_request]: no power limiting, and a deflection of
    exactly 0.05. *)
Lemma boundary_trace_facts (t : Trace) :
  calculate_trace boundary_request = Some t ->
  t_cuttingForce t = 0.05 / endmill_1mm_compliance /\ t_deflection t = 0.05.
Proof.
  intros Ht.
  assert (Hne : 0.5 <> 0) by lra.
  destruct (slot_1mm_trace 2.2 1.0 0.5 _ Hne t Ht)
    as (Hae & _ & _ & Hfz1 & _ & Hreq & Hav).
  destruct (calculate_trace_fields boundary_request t Ht)
    as (_ & _ & _ & _ & _ & _ & _ & _ & _ & _ & _ & _ & _ & Hlim & Hforce & Hdefl & _).
  assert (HfzA : t_fzAdjusted t = 0.0165).
  { unfold limitPower in Hlim. rewrite Hreq, Hav in Hlim.
    destruct (Rgt_dec _ _); [exfalso; lra|].
    cbn [fst] in Hlim. injection Hlim as _ Hlim _. rewrite Hlim. exact Hfz1. }
  assert (Hforce' : t_cuttingForce t = 0.05 / endmill_1mm_compliance).
  { rewrite Hforce, Hae, HfzA. unfold calculateCuttingForce. cbn.
    unfold Rdiv. rewrite Rinv_mult. lra. }
  split; [exact Hforce'|].
  rewrite Hdefl.
  destruct (checkDeflection_slender boundary_request (t_cuttingForce t)) as (-> & _).
  { left; reflexivity. }
  rewrite calculateImprovedDeflection_linear.
  unfold boundary_request. rewrite slot_1mm_unit_deflection, Hforce'.
  pose proof endmill_1mm_compliance_pos.
  unfold Rdiv. rewrite Rmult_assoc, Rinv_l by lra. lra.
Qed.

(** The trace of [overloaded_request]: 113.85 W required, 85 W available. *)
Lemma overloaded_trace_facts (t : Trace) :
  calculate_trace overloaded_request = Some t ->
  t_vf_clamped t = 792 /\ t_powerRequired t = 113.85 /\ t_powerAvailable t = 85.
Proof.
  intros Ht.
  assert (Hne : 5.0 <> 0) by lra.
  destruct (slot_1mm_trace 0.1 2.0 5.0 0.7 Hne t Ht)
    as (_ & _ & Hvf & _ & _ & Hreq & Hav).
  repeat split; [exact Hvf| rewrite Hreq; lra | rewrite Hav; lra].
Qed.

(** ** C1: the power balancer *)

(** C1.  For a spindle that passes input validation: the feed rate, the chip
    load and the MRR are multiplied by the one factor
    [k = (available * 0.85) / required], and a warning-severity
    "Power limited" diagnostic is pushed, exactly when the required power
    exceeds 90% of the available power; otherwise the three values are
    untouched and no such diagnostic exists.  When applied, [k] lies in
    (0, 1], and the required power recomputed at the scaled feed is at most
    [available * 0.85]. *)
Theorem C1_power_balancer (this : Request) (t : Trace) :
  spindle_valid (spindle this) ->
  calculate_trace this = Some t ->
  let k := (t_powerAvailable t * 0.85) / t_powerRequired t in
  (t_powerRequired t > t_powerAvailable t * 0.9 ->
     t_vf t = t_vf_clamped t * k /\
     t_fzAdjusted t = t_fz_clamped t * k /\
     t_mrr t = t_mrr_unscaled t * k /\
     In power_limited (t_warnings t) /\
     0 < k <= 1 /\
     calculateImprovedPower this (t_ae t) (t_ap t) (t_vf t)
       <= t_powerAvailable t * 0.85) /\
  (~ t_powerRequired t > t_powerAvailable t * 0.9 ->
     t_vf t = t_vf_clamped t /\
     t_fzAdjusted t = t_fz_clamped t /\
     t_mrr t = t_mrr_unscaled t /\
     ~ In power_limited (t_warnings t)).
Proof.
  intros Hvalid Ht k.
  pose proof (power_limited_only_from_limitPower this t Ht) as Honly.
  destruct (calculate_trace_fields this t Ht)
    as (_ & _ & Hrpm & _ & _ & _ & _ & _ & _ & _ & _ & Hreq & Hav & Hlim & _ & _ & Hw).
  assert (Hpos : 0 < t_powerAvailable t).
  { rewrite Hav, Hrpm. apply getSpindlePowerAtRPM_pos; [exact Hvalid|].
    apply clampRPM_in_range. apply Hvalid. }
  unfold limitPower in Hlim, Honly, Hw.
  destruct (Rgt_dec (t_powerRequired t) (t_powerAvailable t * 0.9)) as [Hover|Hok];
    cbn [fst snd] in Hlim, Honly, Hw; injection Hlim as Hvf Hfz Hmrr.
  - split; [intros _|intros Hn; contradiction].
    assert (Hreq_pos : 0 < t_powerRequired t) by lra.
    fold k in Hvf, Hfz, Hmrr.
    repeat split; try assumption.
    + rewrite Hw. do 4 (apply in_or_app; right). apply in_or_app; left.
      left; reflexivity.
    + unfold k. apply Rdiv_lt_0_compat; lra.
    + unfold k. apply (Rmult_le_reg_r (t_powerRequired t)); [lra|].
      unfold Rdiv. rewrite Rmult_assoc, Rinv_l by lra. lra.
    + rewrite Hvf, calculateImprovedPower_scale, <- Hreq. unfold k.
      right. field. lra.
  - split; [intros Hy; contradiction|intros _].
    repeat split; try assumption.
Qed.

(** On [overloaded_request] the balancer does apply: 113.85 W are required,
    85 W are available, and the feed 792 is scaled by 72.25 / 113.85. *)
Lemma C1_power_balancer_witness :
  exists t,
    spindle_valid (spindle overloaded_request) /\
    calculate_trace overloaded_request = Some t /\
    t_powerRequired t > t_powerAvailable t * 0.9 /\
    t_vf t = 792 * (72.25 / 113.85) /\
    In power_limited (t_warnings t) /\
    0 < (t_powerAvailable t * 0.85) / t_powerRequired t <= 1.
Proof.
  destruct (slot_1mm_request_returns 0.1 2.0 5.0 0.7) as [t Ht]. exists t.
  assert (Hvalid : spindle_valid (spindle overloaded_request))
    by (apply vfd_spindle_valid; lra).
  destruct (overloaded_trace_facts t Ht) as (Hvf1 & Hreq & Hav).
  assert (Hover : t_powerRequired t > t_powerAvailable t * 0.9)
    by (rewrite Hreq, Hav; lra).
  destruct (C1_power_balancer overloaded_request t Hvalid Ht) as [Happlied _].
  destruct (Happlied Hover) as (Hvf & _ & _ & Hin & Hk & _).
  split; [exact Hvalid|]. split; [exact Ht|]. split; [exact Hover|].
  split; [|split; assumption].
  rewrite Hvf, Hvf1, Hreq, Hav. f_equal. f_equal. lra.
Defined.

(** ** C2: required power and material-removal rate *)




(** ** C3: the engagement rule and the cut-type catalog *)

(** C3 at a slotting request.  The code resolves ap = min(6 * 0.75, 6 * 1.0)
    = 4.5 from the fixed structure, where the catalog's slot range
    [0.8, 1.0] gives min(6 * 0.9, 6 * 1.0) = 5.4. *)
Theorem C3_fixed_cut_definition :
  exists t,
    calculate_trace slot_request = Some t /\
    t_D t = 6 /\ t_ae t = 6 /\ t_ap t = 4.5 /\
    cut_types_get CUT_TYPES "slot" = Some (cutdef_fraction 1.0 (0.8, 1.0)) /\
    catalog_engagement slot_request (t_D t) = Some (6, 5.4).
Proof.
  destruct slot_request_returns as [t Ht]. exists t.
  destruct (calculate_trace_fields slot_request t Ht)
    as (HD & _ & _ & _ & Hae & Hap & _).
  change (getEffectiveDiameter slot_request) with 6 in HD.
  rewrite getEngagementParams_ae in Hae. rewrite getEngagementParams_ap in Hap.
  cbn [userDOC slot_request request_of] in Hap.
  rewrite getBaseEngagementParams_standard in Hae, Hap by discriminate.
  rewrite HD in *. cbn [fst snd] in Hae, Hap.
  assert (HmaxAp : maxAp slot_request 6 = 6).
  { unfold maxAp. cbn. Rdecide. lra. }
  rewrite HmaxAp in Hap.
  assert (Hap' : t_ap t = 4.5).
  { rewrite Hap. unfold Rmin. cbn. Rdecide. lra. }
  split; [exact Ht|]. split; [reflexivity|]. split; [exact Hae|].
  split; [exact Hap'|]. split; [reflexivity|].
  unfold catalog_engagement. cbn [cutType slot_request request_of].
  change (cut_types_get CUT_TYPES "slot") with (Some (cutdef_fraction 1.0 (0.8, 1.0))).
  cbn [String.eqb Ascii.eqb Bool.eqb cutdef_fraction ap_fraction_range fst snd].
  rewrite HmaxAp. f_equal. f_equal.
  unfold Rmin, midpoint. cbn. Rdecide. lra.
Qed.

(** ** C4: a material without an entry for the cut type *)

(** C4 fails for the radial lookup: a missing radial fraction defaults
    to 0.3, not to 1.0. *)
Lemma C4_counterexample :
  lookup (max_radial_engagement_fraction (material plunge_request))
         (cutType plunge_request) = None /\
  maxAe plunge_request 6 = 6 * 0.3 /\
  maxAe plunge_request 6 <> 6 * 1.0.
Proof.
  split; [reflexivity|].
  assert (H : maxAe plunge_request 6 = 6 * 0.3) by reflexivity.
  split; [exact H|]. rewrite H. lra.
Qed.

(** C4, as the code has it.  When the material has no entry for the cut type
    in either table, the resolver still returns a pair: the radial limit is
    [D * 0.3], the axial limit (also the maximum allowable depth of cut) is
    [D * 1.0], and for the variants that use the tables the engagement is
    resolved from these limits. *)
Theorem C4_missing_fraction_defaults (this : Request) (D : R) :
  lookup (max_radial_engagement_fraction (material this)) (cutType this) = None ->
  lookup (max_axial_per_pass_D (material this)) (cutType this) = None ->
  maxAe this D = D * 0.3 /\
  maxAp this D = D * 1.0 /\
  getMaxAllowableDOC this D = D * 1.0 /\
  (exists ae ap, getBaseEngagementParams this D = (ae, ap)) /\
  (type (tool this) <> drill -> type (tool this) <> vbit ->
   getBaseEngagementParams this D =
   ((if String.eqb (cutType this) "slot" then D
     else Rmin (D * 0.3) (D * 0.3) * radial (machine_aggressiveness (machine this))),
    Rmin (D * 0.75) (D * 1.0) * axial (machine_aggressiveness (machine this)))).
Proof.
  intros Hr Ha.
  assert (HmaxAe : maxAe this D = D * 0.3) by (unfold maxAe; rewrite Hr; reflexivity).
  assert (HmaxAp : maxAp this D = D * 1.0) by (unfold maxAp; rewrite Ha; reflexivity).
  split; [exact HmaxAe|]. split; [exact HmaxAp|]. split.
  - unfold getMaxAllowableDOC. rewrite Ha. reflexivity.
  - split.
    + destruct (getBaseEngagementParams this D) as [ae ap]. now exists ae, ap.
    + intros Hd Hv. rewrite getBaseEngagementParams_standard by assumption.
      rewrite HmaxAe, HmaxAp. reflexivity.
Qed.

Lemma C4_missing_fraction_defaults_witness :
  lookup (max_radial_engagement_fraction (material plunge_request))
         (cutType plunge_request) = None /\
  lookup (max_axial_per_pass_D (material plunge_request))
         (cutType plunge_request) = None /\
  maxAe plunge_request 6 = 6 * 0.3 /\
  maxAp plunge_request 6 = 6 * 1.0.
Proof.
  split; [reflexivity|]. split; [reflexivity|].
  destruct (C4_missing_fraction_defaults plunge_request 6
              plunge_no_radial_entry plunge_no_axial_entry)
    as (H1 & H2 & _).
  split; assumption.
Defined.

(** ** C5: chip thinning *)

Lemma applyChipThinning_example (this : Request) (fz : R) :
  chip_thinning (material this) = Some {| enable_below_fraction := 0.5 |} ->
  applyChipThinning this 6 2 fz = (fz * sqrt 3, [chip_thinning_applied]).
Proof.
  intros Hct. unfold applyChipThinning. rewrite Hct. cbn [enable_below_fraction].
  destruct (Rlt_dec 2 (6 * 0.5)) as [_|Hn]; [|exfalso; lra].
  replace (6 / 2) with 3 by lra. reflexivity.
Qed.

(** The profiling request resolves D = 6 and ae = min(6 * 0.3, 6 * 0.35) = 1.8. *)
Lemma example_trace_engagement (t : Trace) :
  calculate_trace example_request = Some t -> t_D t = 6 /\ t_ae t = 1.8.
Proof.
  intros Ht.
  destruct (calculate_trace_fields example_request t Ht)
    as (HD & _ & _ & _ & Hae & _).
  change (getEffectiveDiameter example_request) with 6 in HD.
  split; [exact HD|].
  rewrite Hae, HD, getEngagementParams_ae.
  rewrite getBaseEngagementParams_standard by discriminate.
  unfold maxAe, Rmin. cbn. Rdecide; lra.
Qed.

(** C5.  The chip load that enters the feed rate is the nominal chip load
    times [sqrt (D / ae)], and the info diagnostic "Chip thinning compensation
    applied" is among the warnings, exactly when the material has a
    chip-thinning threshold and [ae < D * threshold]; otherwise the chip load
    is the nominal one and no such diagnostic exists.  The feed rate is
    computed from the corrected chip load.  With threshold 0.5, D = 6 and
    ae = 2 the factor is [sqrt 3]. *)
Theorem C5_chip_thinning (this : Request) (t : Trace) :
  calculate_trace this = Some t ->
  let applies :=
    exists ct, chip_thinning (material this) = Some ct /\
               t_ae t < t_D t * enable_below_fraction ct in
  (applies ->
     t_fz t = t_fz_nominal t * sqrt (t_D t / t_ae t) /\
     In chip_thinning_applied (t_warnings t)) /\
  (~ applies ->
     t_fz t = t_fz_nominal t /\ ~ In chip_thinning_applied (t_warnings t)) /\
  t_vf_nominal t = t_rpm t * t_z t * t_fz t /\
  (forall fz,
     chip_thinning (material this) = Some {| enable_below_fraction := 0.5 |} ->
     applyChipThinning this 6 2 fz = (fz * sqrt 3, [chip_thinning_applied])).
Proof.
  intros Ht applies.
  pose proof (chip_thinning_only_from_applyChipThinning this t Ht) as Honly.
  destruct (calculate_trace_fields this t Ht)
    as (_ & _ & _ & _ & _ & _ & Hfz & Hvf & _ & _ & _ & _ & _ & _ & _ & _ & Hw).
  split; [|split; [|split; [exact Hvf|intros fz; apply applyChipThinning_example]]].
  - intros (ct & Hct & Hlt).
    unfold applyChipThinning in Hfz, Hw. rewrite Hct in Hfz, Hw.
    destruct (Rlt_dec _ _) as [_|Hn]; [|contradiction].
    cbn [fst snd] in Hfz, Hw. split; [exact Hfz|].
    rewrite Hw. do 2 (apply in_or_app; right). apply in_or_app; left.
    left; reflexivity.
  - intros Hnot.
    assert (Hstage : applyChipThinning this (t_D t) (t_ae t) (t_fz_nominal t)
                     = (t_fz_nominal t, [])).
    { unfold applyChipThinning.
      destruct (chip_thinning (material this)) as [ct|] eqn:Hct; [|reflexivity].
      destruct (Rlt_dec _ _) as [Hlt|_]; [|reflexivity].
      exfalso. apply Hnot. exists ct. split; [reflexivity|exact Hlt]. }
    rewrite Hstage in Hfz, Honly. cbn [fst snd] in Hfz, Honly.
    split; [exact Hfz|exact Honly].
Qed.

(** On the profiling request the correction applies: ae = 1.8 < 6 * 0.5. *)
Lemma C5_chip_thinning_witness :
  exists t,
    calculate_trace example_request = Some t /\
    t_ae t < t_D t * 0.5 /\
    t_fz t = t_fz_nominal t * sqrt (6 / 1.8) /\
    In chip_thinning_applied (t_warnings t) /\
    t_vf_nominal t = t_rpm t * t_z t * t_fz t.
Proof.
  destruct example_request_returns as [t Ht]. exists t.
  destruct (example_trace_engagement t Ht) as (HD & Hae).
  assert (Hlt : t_ae t < t_D t * 0.5) by (rewrite HD, Hae; lra).
  destruct (C5_chip_thinning example_request t Ht) as (Happlies & _ & Hvf & _).
  destruct Happlies as (Hfz & Hin).
  { exists {| enable_below_fraction := 0.5 |}. split; [reflexivity|exact Hlt]. }
  rewrite HD, Hae in Hfz.
  split; [exact Ht|]. split; [exact Hlt|]. split; [exact Hfz|].
  split; [exact Hin|exact Hvf].
Defined.

(** ** C6: the spindle power curve *)

(** C6 fails at base RPM: on the DeWalt 611 the power at base RPM is two
    thirds of the rated power (times the efficiency), because the torque ratio
    reaches 1 only at [rpm_min * 1.5]; and at [rpm_min * 1.5] the torque ratio
    is 1, not near zero. *)
Lemma C6_counterexample :
  rpm_min dewalt_611 <= base_rpm dewalt_611 <= rpm_max dewalt_611 /\
  getSpindlePowerAtRPM dewalt_request (base_rpm dewalt_611)
    = rated_power_kW dewalt_611 * 1000 * (2 / 3) * 0.85 /\
  getSpindlePowerAtRPM dewalt_request (base_rpm dewalt_611)
    <> rated_power_kW dewalt_611 * 1000 * 0.85 /\
  Rmin (rpm_min dewalt_611 * 1.5 / (rpm_min dewalt_611 * 1.5)) 1.0 = 1.
Proof.
  assert (H : getSpindlePowerAtRPM dewalt_request 16000 = 1.25 * 1000 * (2 / 3) * 0.85).
  { unfold getSpindlePowerAtRPM, Rmin. cbn. Rdecide. lra. }
  cbn. split; [lra|]. split; [exact H|]. split; [rewrite H; lra|].
  unfold Rmin. Rdecide; lra.
Qed.

(** C6, as the code has it.  Outside [[rpm_min, rpm_max]] the available power
    is zero.  Inside, at or below base RPM it is
    [rated * 1000 * (rpm / base_rpm) * min (rpm / (rpm_min * 1.5)) 1 * 0.85],
    above base RPM it is [rated * 1000 * 0.85].  For a positive [rpm_min] the
    torque ratio is [rpm / (rpm_min * 1.5)] up to [rpm_min * 1.5] (two thirds
    at [rpm_min]) and 1 from there on; so the power at base RPM is the full
    [rated * 1000 * 0.85] when [base_rpm >= rpm_min * 1.5]. *)
Theorem C6_spindle_power_curve (this : Request) (rpm : R) :
  let s := spindle this in
  let torqueRatio := Rmin (rpm / (rpm_min s * 1.5)) 1.0 in
  (rpm < rpm_min s \/ rpm > rpm_max s -> getSpindlePowerAtRPM this rpm = 0) /\
  (rpm_min s <= rpm <= rpm_max s -> rpm <= base_rpm s ->
   getSpindlePowerAtRPM this rpm =
     rated_power_kW s * 1000 * (rpm / base_rpm s) * torqueRatio * 0.85) /\
  (rpm_min s <= rpm <= rpm_max s -> base_rpm s < rpm ->
   getSpindlePowerAtRPM this rpm = rated_power_kW s * 1000 * 0.85) /\
  (0 < rpm_min s ->
   torqueRatio <= 1 /\
   (rpm <= rpm_min s * 1.5 -> torqueRatio = rpm / (rpm_min s * 1.5)) /\
   (rpm = rpm_min s -> torqueRatio = 2 / 3) /\
   (rpm_min s * 1.5 <= rpm -> torqueRatio = 1)) /\
  (0 < rpm_min s -> rpm = base_rpm s -> rpm_min s * 1.5 <= base_rpm s ->
   base_rpm s <= rpm_max s ->
   getSpindlePowerAtRPM this rpm = rated_power_kW s * 1000 * 0.85).
Proof.
  intros s torqueRatio.
  assert (Hratio : 0 < rpm_min s ->
            (rpm <= rpm_min s * 1.5 -> torqueRatio = rpm / (rpm_min s * 1.5)) /\
            (rpm_min s * 1.5 <= rpm -> torqueRatio = 1)).
  { intros Hmin. unfold torqueRatio. split; intros Hle.
    - apply Rmin_left.
      apply (Rmult_le_reg_r (rpm_min s * 1.5)); [lra|].
      unfold Rdiv. rewrite Rmult_assoc, Rinv_l by lra. lra.
    - replace 1.0 with 1 by lra. apply Rmin_right.
      apply (Rmult_le_reg_r (rpm_min s * 1.5)); [lra|].
      unfold Rdiv. rewrite Rmult_assoc, Rinv_l by lra. lra. }
  rewrite getSpindlePowerAtRPM_by_region. unfold powerRegion. fold s.
  repeat split.
  - intros [H|H]; destruct (Rlt_dec _ _); try reflexivity; try lra;
      destruct (Rgt_dec _ _); try reflexivity; lra.
  - intros [H1 H2] Hb. Rdecide. reflexivity.
  - intros [H1 H2] Hb. Rdecide. reflexivity.
  - unfold torqueRatio. replace 1.0 with 1 by lra. apply Rmin_r.
  - apply Hratio; assumption.
  - intros ->. destruct (Hratio H) as [Hlow _]. rewrite Hlow by lra.
    apply (Rmult_eq_reg_r (rpm_min s * 1.5)); [|lra].
    unfold Rdiv. rewrite Rmult_assoc, Rinv_l by lra. lra.
  - apply Hratio; assumption.
  - intros Hmin -> Hb Hmax. Rdecide.
    destruct (Hratio Hmin) as [_ Hhigh]. fold torqueRatio. rewrite (Hhigh Hb).
    field. lra.
Qed.

(** ** C7: deflection diagnostics *)

(** C7 fails on the boundary: a flat end mill deflected by exactly 0.05 mm
    gets the warning diagnostic and no danger diagnostic. *)
Lemma C7_counterexample :
  exists t,
    calculate_trace boundary_request = Some t /\
    type (tool boundary_request) = endmill_flat /\
    t_deflection t >= 0.05 /\
    In (moderate_deflection (t_deflection t)) (t_warnings t) /\
    ~ In (high_deflection (t_deflection t)) (t_warnings t) /\
    (forall w, In w (t_warnings t) -> deflection_diagnostic w -> severity w <> danger).
Proof.
  destruct (slot_1mm_request_returns 2.2 1.0 0.5 (0.05 / (16.5 * endmill_1mm_compliance)))
    as [t Ht].
  exists t.
  destruct (boundary_trace_facts t Ht) as (_ & Hd).
  assert (Hs : slender (type (tool boundary_request))) by (left; reflexivity).
  destruct (calculate_trace_fields boundary_request t Ht)
    as (_ & _ & _ & _ & _ & _ & _ & _ & _ & _ & _ & _ & _ & _ & _ & Hdefl & Hw).
  destruct (checkDeflection_slender boundary_request (t_cuttingForce t) Hs)
    as (Hfst & _ & Hmod & _).
  rewrite <- Hdefl in Hfst. rewrite <- Hfst in Hmod.
  assert (Hstage : snd (checkDeflection boundary_request (t_cuttingForce t))
                   = [moderate_deflection (t_deflection t)])
    by (apply Hmod; lra).
  assert (Honly : forall w, In w (t_warnings t) -> deflection_diagnostic w ->
                            w = moderate_deflection (t_deflection t)).
  { intros w Hin Hdiag.
    apply (deflection_diagnostic_only_from_checkDeflection boundary_request t w Ht) in Hin;
      [|exact Hdiag].
    rewrite Hstage in Hin. destruct Hin as [<-|[]]. reflexivity. }
  split; [exact Ht|]. split; [reflexivity|]. split; [lra|]. split; [|split].
  - rewrite Hw. do 5 (apply in_or_app; right). apply in_or_app; left.
    rewrite Hstage. left; reflexivity.
  - intros Hin. apply Honly in Hin.
    + discriminate Hin.
    + exists 3%nat, (t_deflection t). left; reflexivity.
  - intros w Hin Hdiag. rewrite (Honly w Hin Hdiag). discriminate.
Qed.

(** C7, as the code has it.  For a slender-shank variant a deflection above
    0.05 mm gives exactly the danger diagnostic, a deflection above 0.02 mm and
    at most 0.05 mm gives exactly the warning diagnostic, each carrying the
    deflection formatted to 3 decimals, and a deflection of at most 0.02 mm
    gives no deflection diagnostic; for any other variant the deflection is 0
    and there is no deflection diagnostic. *)
Theorem C7_deflection_diagnostics (this : Request) (t : Trace) :
  calculate_trace this = Some t ->
  let d := t_deflection t in
  (slender (type (tool this)) ->
   d = calculateImprovedDeflection this (t_cuttingForce t) /\
   (d > 0.05 ->
    In (high_deflection d) (t_warnings t) /\
    forall w, In w (t_warnings t) -> deflection_diagnostic w -> w = high_deflection d) /\
   (0.02 < d <= 0.05 ->
    In (moderate_deflection d) (t_warnings t) /\
    forall w, In w (t_warnings t) -> deflection_diagnostic w -> w = moderate_deflection d) /\
   (d <= 0.02 ->
    forall w, In w (t_warnings t) -> ~ deflection_diagnostic w)) /\
  (~ slender (type (tool this)) ->
   d = 0 /\ forall w, In w (t_warnings t) -> ~ deflection_diagnostic w).
Proof.
  intros Ht d.
  pose proof (fun w => deflection_diagnostic_only_from_checkDeflection this t w Ht) as Honly.
  destruct (calculate_trace_fields this t Ht)
    as (_ & _ & _ & _ & _ & _ & _ & _ & _ & _ & _ & _ & _ & _ & _ & Hdefl & Hw).
  fold d in Hdefl.
  assert (Hstage : forall w, In w (snd (checkDeflection this (t_cuttingForce t))) ->
                             In w (t_warnings t)).
  { intros w Hin. rewrite Hw. do 5 (apply in_or_app; right).
    apply in_or_app; left. exact Hin. }
  split.
  - intros Hs.
    destruct (checkDeflection_slender this (t_cuttingForce t) Hs)
      as (Hfst & Hhigh & Hmod & Hnone).
    rewrite <- Hdefl in Hfst. rewrite <- Hfst in Hhigh, Hmod, Hnone.
    split; [exact Hfst|]. split; [|split].
    + intros Hgt. specialize (Hhigh Hgt). split.
      * apply Hstage. rewrite Hhigh. left; reflexivity.
      * intros w Hin Hd. apply Honly in Hin; [|exact Hd].
        rewrite Hhigh in Hin. destruct Hin as [<-|[]]. reflexivity.
    + intros Hbetween. specialize (Hmod Hbetween). split.
      * apply Hstage. rewrite Hmod. left; reflexivity.
      * intros w Hin Hd. apply Honly in Hin; [|exact Hd].
        rewrite Hmod in Hin. destruct Hin as [<-|[]]. reflexivity.
    + intros Hle w Hin Hd. apply Honly in Hin; [|exact Hd].
      rewrite (Hnone Hle) in Hin. exact Hin.
  - intros Hs. rewrite (checkDeflection_other this Hs) in Hdefl, Honly.
    split; [exact Hdefl|].
    intros w Hin Hd. exact (Honly w Hin Hd).
Qed.

Lemma C7_deflection_diagnostics_witness :
  exists t,
    calculate_trace boundary_request = Some t /\
    slender (type (tool boundary_request)) /\
    0.02 < t_deflection t <= 0.05 /\
    In (moderate_deflection (t_deflection t)) (t_warnings t).
Proof.
  destruct (slot_1mm_request_returns 2.2 1.0 0.5 (0.05 / (16.5 * endmill_1mm_compliance)))
    as [t Ht].
  exists t.
  destruct (boundary_trace_facts t Ht) as (_ & Hd).
  assert (Hs : slender (type (tool boundary_request))) by (left; reflexivity).
  assert (Hbetween : 0.02 < t_deflection t <= 0.05) by (rewrite Hd; lra).
  split; [exact Ht|]. split; [exact Hs|]. split; [exact Hbetween|].
  destruct (C7_deflection_diagnostics boundary_request t Ht) as (Hslender & _).
  destruct (Hslender Hs) as (_ & _ & Hmod & _).
  exact (proj1 (Hmod Hbetween)).
Defined.

(** ** C8: the deflection model *)

(** C8 fails on the holder term: whatever the holder type, the deflection of
    the pipeline differs from the documented sum, since the pipeline's holder
    compliance is the single constant 0.002. *)
Lemma C8_counterexample :
  exists t,
    calculate_trace boundary_request = Some t /\
    t_cuttingForce t <> 0 /\
    forall h : HolderType,
      t_deflection t <> claimed_deflection boundary_request h (t_cuttingForce t).
Proof.
  destruct (slot_1mm_request_returns 2.2 1.0 0.5 (0.05 / (16.5 * endmill_1mm_compliance)))
    as [t Ht].
  exists t.
  destruct (boundary_trace_facts t Ht) as (Hforce & _).
  destruct (calculate_trace_fields boundary_request t Ht)
    as (_ & _ & _ & _ & _ & _ & _ & _ & _ & _ & _ & _ & _ & _ & _ & Hdefl & _).
  destruct (checkDeflection_slender boundary_request (t_cuttingForce t))
    as (Hfst & _); [left; reflexivity|].
  rewrite <- Hdefl in Hfst.
  assert (Hnz : t_cuttingForce t <> 0).
  { rewrite Hforce. pose proof endmill_1mm_compliance_pos.
    apply Rgt_not_eq. apply Rdiv_lt_0_compat; lra. }
  split; [exact Ht|]. split; [exact Hnz|].
  intros h Heq.
  pose proof (calculateImprovedDeflection_vs_claimed
                boundary_request h (t_cuttingForce t)) as Hdiff.
  rewrite <- Hfst, Heq, Rminus_diag in Hdiff.
  symmetry in Hdiff. apply Rmult_integral in Hdiff.
  destruct Hdiff as [Hdiff|Hdiff]; [contradiction|].
  apply (holder_compliance_not_in_table h). lra.
Qed.

(** C8, as the code has it.  For a slender-shank variant the total deflection
    is the cantilever bending term [F L^3 / (3 E I)] with [I = PI d^4 / 64],
    plus the shear term [1.2 F L / ((E / 2.6) A)] with [A = PI d^2 / 4], plus
    a holder term [F * 0.002] whose compliance is one constant: it is none of
    the per-holder constants of [TOOL_HOLDER_COMPLIANCE], which are pairwise
    distinct. *)
Theorem C8_total_deflection (this : Request) (t : Trace) :
  calculate_trace this = Some t ->
  slender (type (tool this)) ->
  let F := t_cuttingForce t in
  let L := js_or (stickout_mm (tool this)) 20 in
  let d := js_or (shank_mm (tool this)) (diameter_mm (tool this)) in
  let E := if String.eqb (tool_material (tool this)) "hss" then 210000 else 600000 in
  let I := PI * d ^ 4 / 64 in
  let A := PI * d ^ 2 / 4 in
  t_deflection t
    = (F * L ^ 3) / (3 * E * I) + (1.2 * F * L) / (E / 2.6 * A) + F * 0.002 /\
  (forall h, F <> 0 -> F * 0.002 <> F * DEFLECTION_CONSTANTS.TOOL_HOLDER_COMPLIANCE h) /\
  (forall h1 h2, h1 <> h2 ->
     DEFLECTION_CONSTANTS.TOOL_HOLDER_COMPLIANCE h1
     <> DEFLECTION_CONSTANTS.TOOL_HOLDER_COMPLIANCE h2).
Proof.
  intros Ht Hs F L d E I A.
  destruct (calculate_trace_fields this t Ht)
    as (_ & _ & _ & _ & _ & _ & _ & _ & _ & _ & _ & _ & _ & _ & _ & Hdefl & _).
  destruct (checkDeflection_slender this (t_cuttingForce t) Hs) as (Hfst & _).
  split; [|split].
  - rewrite Hdefl, Hfst. unfold calculateImprovedDeflection.
    unfold MATERIAL_CONSTANTS.HSS_YOUNGS_MODULUS,
      MATERIAL_CONSTANTS.CARBIDE_YOUNGS_MODULUS.
    fold L d. subst E I A F.
    destruct (String.eqb _ _); reflexivity.
  - intros h HF Heq. apply Rmult_eq_reg_l in Heq; [|exact HF].
    apply (holder_compliance_not_in_table h). symmetry. exact Heq.
  - intros h1 h2 Hne. destruct h1, h2; cbn; try lra; contradiction.
Qed.

Lemma C8_total_deflection_witness :
  exists t,
    calculate_trace boundary_request = Some t /\
    slender (type (tool boundary_request)) /\
    t_deflection t = 0.05 /\
    t_deflection t
    = (t_cuttingForce t * 20 ^ 3) / (3 * 600000 * (PI * 3 ^ 4 / 64))
      + (1.2 * t_cuttingForce t * 20) / (600000 / 2.6 * (PI * 3 ^ 2 / 4))
      + t_cuttingForce t * 0.002.
Proof.
  destruct (slot_1mm_request_returns 2.2 1.0 0.5 (0.05 / (16.5 * endmill_1mm_compliance)))
    as [t Ht].
  exists t.
  assert (Hs : slender (type (tool boundary_request))) by (left; reflexivity).
  destruct (boundary_trace_facts t Ht) as (_ & Hd).
  split; [exact Ht|]. split; [exact Hs|]. split; [exact Hd|].
  pose proof (proj1 (C8_total_deflection boundary_request t Ht Hs)) as H.
  cbn in H. revert H. unfold js_or. Rdecide. intros H. exact H.
Defined.

(** ** C9: the zero-power branch is dead code under the clamp *)

(** C9.  When [rpm_min <= rpm_max], the RPM handed to the power lookup lies in
    [[rpm_min, rpm_max]], so the lookup is in the constant-torque or the
    constant-power region, never in the out-of-range region that returns 0,
    and the available power is the value of that in-range branch. *)
Theorem C9_zero_power_branch_unreachable (this : Request) (t : Trace) :
  rpm_min (spindle this) <= rpm_max (spindle this) ->
  calculate_trace this = Some t ->
  rpm_min (spindle this) <= t_rpm t <= rpm_max (spindle this) /\
  powerRegion (spindle this) (t_rpm t) <> OutOfRange /\
  ((powerRegion (spindle this) (t_rpm t) = ConstantTorque /\
    t_powerAvailable t =
      rated_power_kW (spindle this) * 1000 * (t_rpm t / base_rpm (spindle this))
      * Rmin (t_rpm t / (rpm_min (spindle this) * 1.5)) 1.0 * 0.85)
   \/
   (powerRegion (spindle this) (t_rpm t) = ConstantPower /\
    t_powerAvailable t = rated_power_kW (spindle this) * 1000 * 0.85)).
Proof.
  intros Hord Ht.
  destruct (calculate_trace_fields this t Ht)
    as (_ & _ & Hrpm & _ & _ & _ & _ & _ & _ & _ & _ & _ & Hav & _).
  assert (Hin : rpm_min (spindle this) <= t_rpm t <= rpm_max (spindle this)).
  { rewrite Hrpm. apply clampRPM_in_range. exact Hord. }
  pose proof (powerRegion_in_range this (t_rpm t) Hin) as Hreg.
  split; [exact Hin|]. split; [exact Hreg|].
  rewrite Hav, getSpindlePowerAtRPM_by_region.
  destruct (powerRegion (spindle this) (t_rpm t)).
  - contradiction.
  - left; split; reflexivity.
  - right; split; reflexivity.
Qed.

(** On [overloaded_request] the RPM is clamped to 24000, in the
    constant-power region. *)
Lemma C9_zero_power_branch_unreachable_witness :
  exists t,
    rpm_min (spindle overloaded_request) <= rpm_max (spindle overloaded_request) /\
    calculate_trace overloaded_request = Some t /\
    t_rpm t = 24000 /\
    powerRegion (spindle overloaded_request) (t_rpm t) <> OutOfRange.
Proof.
  destruct (slot_1mm_request_returns 0.1 2.0 5.0 0.7) as [t Ht]. exists t.
  assert (Hord : rpm_min (spindle overloaded_request) <= rpm_max (spindle overloaded_request))
    by (cbn; lra).
  split; [exact Hord|]. split; [exact Ht|].
  split; [exact (slot_1mm_rpm 0.1 2.0 5.0 0.7 t Ht)|].
  exact (proj1 (proj2 (C9_zero_power_branch_unreachable overloaded_request t Hord Ht))).
Defined.

(** ** C10: the depth-of-cut override leaves the radial engagement alone *)

Lemma calculate_trace_throws (this : Request) :
  calculate_trace this = None ->
  getChiploadRange this (getEffectiveDiameter this) = None.
Proof.
  unfold calculate_trace.
  destruct (clampRPM this _) as [rpm' w_rpm].
  destruct (getChiploadRange this _) as [fzRange|]; [|reflexivity].
  destruct (getEngagementParams this _) as [[ae ap] w_doc].
  destruct (applyChipThinning this _ ae _) as [fz w_thin].
  destruct (limitFeed this rpm' _ fz _) as [[vf1 fzA1] w_feed].
  destruct (limitPower _ _ vf1 fzA1 _) as [[[vf fzA] mrr] w_power].
  destruct (checkDeflection this _) as [defl w_defl].
  discriminate.
Qed.

(** C10.  The request run with a depth-of-cut override [d] and run without
    one: both return or both throw; the radial engagement, raw and as reported
    in [ae_mm], is the same, namely the base rule's; the axial engagement is
    [d] with the override and the base rule's without it. *)
Theorem C10_override_keeps_radial_engagement (this : Request) (d : R) :
  let overridden := with_userDOC this (Some d) in
  let plain := with_userDOC this None in
  option_map ae_mm (calculate overridden) = option_map ae_mm (calculate plain) /\
  option_map t_ae (calculate_trace overridden) = option_map t_ae (calculate_trace plain) /\
  (forall t, calculate_trace overridden = Some t ->
     t_ae t = fst (getBaseEngagementParams plain (t_D t)) /\ t_ap t = d) /\
  (forall t, calculate_trace plain = Some t ->
     t_ae t = fst (getBaseEngagementParams plain (t_D t)) /\
     t_ap t = snd (getBaseEngagementParams plain (t_D t))).
Proof.
  intros overridden plain.
  assert (Hov : forall t, calculate_trace overridden = Some t ->
            t_D t = getEffectiveDiameter plain /\
            t_ae t = fst (getBaseEngagementParams plain (t_D t)) /\ t_ap t = d).
  { intros t Ht.
    destruct (calculate_trace_fields overridden t Ht)
      as (HD & _ & _ & _ & Hae & Hap & _).
    rewrite getEngagementParams_ae in Hae. rewrite getEngagementParams_ap in Hap.
    repeat split; assumption. }
  assert (Hpl : forall t, calculate_trace plain = Some t ->
            t_D t = getEffectiveDiameter plain /\
            t_ae t = fst (getBaseEngagementParams plain (t_D t)) /\
            t_ap t = snd (getBaseEngagementParams plain (t_D t))).
  { intros t Ht.
    destruct (calculate_trace_fields plain t Ht)
      as (HD & _ & _ & _ & Hae & Hap & _).
    rewrite getEngagementParams_ae in Hae. rewrite getEngagementParams_ap in Hap.
    repeat split; assumption. }
  assert (Hae : option_map t_ae (calculate_trace overridden)
                = option_map t_ae (calculate_trace plain)).
  { destruct (calculate_trace overridden) as [t1|] eqn:H1;
      destruct (calculate_trace plain) as [t0|] eqn:H0; cbn.
    - destruct (Hov t1 eq_refl) as (HD1 & Hae1 & _).
      destruct (Hpl t0 eq_refl) as (HD0 & Hae0 & _).
      rewrite Hae1, Hae0, HD1, HD0. reflexivity.
    - apply calculate_trace_throws in H0.
      destruct (calculate_trace_fields overridden t1 H1) as (HD & _ & _ & Hfz & _).
      rewrite HD in Hfz. change (getChiploadRange plain (getEffectiveDiameter plain)
                                 = Some (t_fzRange t1)) in Hfz. congruence.
    - apply calculate_trace_throws in H1.
      destruct (calculate_trace_fields plain t0 H0) as (HD & _ & _ & Hfz & _).
      rewrite HD in Hfz. change (getChiploadRange plain (getEffectiveDiameter plain)
                                 = None) in H1. congruence.
    - reflexivity. }
  split; [|split; [exact Hae|split]].
  - unfold calculate.
    destruct (calculate_trace overridden) as [t1|];
      destruct (calculate_trace plain) as [t0|]; cbn in *; congruence.
  - intros t Ht. destruct (Hov t Ht) as (_ & H1 & H2). split; assumption.
  - intros t Ht. destruct (Hpl t Ht) as (_ & H1 & H2). split; assumption.
Qed.

(** * Further properties of the solver *)

(** ** The warning list, stage by stage *)

Section WarningStages.

Variable this : Request.
Variable t : Trace.
Hypothesis Ht : calculate_trace this = Some t.

Lemma in_warnings_iff (w : Warning) :
  In w (t_warnings t) <->
  In w (snd (clampRPM this (t_rpm_nominal t))) \/
  In w (snd (getEngagementParams this (t_D t))) \/
  In w (snd (applyChipThinning this (t_D t) (t_ae t) (t_fz_nominal t))) \/
  In w (snd (limitFeed this (t_rpm t) (t_z t) (t_fz t) (t_vf_nominal t))) \/
  In w (snd (limitPower (t_powerRequired t) (t_powerAvailable t)
                        (t_vf_clamped t) (t_fz_clamped t) (t_mrr_unscaled t))) \/
  In w (snd (checkDeflection this (t_cuttingForce t))) \/
  In w (validateChipload this (t_fzAdjusted t) (t_fzRange t)) \/
  In w (addToolSpecificWarnings this (t_D t) (t_ap t) (t_vf t) (t_cuttingForce t)).
Proof.
  destruct (calculate_trace_fields this t Ht)
    as (_ & _ & _ & _ & _ & _ & _ & _ & _ & _ & _ & _ & _ & _ & _ & _ & Hw).
  rewrite Hw, !in_app_iff. reflexivity.
Qed.

End WarningStages.

(** Splits [In w (t_warnings t)] into the eight stages and closes the
    stages that cannot push [w]. *)
Ltac by_stage Ht Hin :=
  apply (in_warnings_iff _ _ Ht) in Hin;
  destruct Hin as [Hin|[Hin|[Hin|[Hin|[Hin|[Hin|[Hin|Hin]]]]]]];
  try (exfalso; stage_cases Hin; fail).

(** ** The RPM clamp *)

(** X1.  The RPM is the nominal RPM clamped into the spindle range: the
    "minimum" warning is present exactly when the nominal RPM is below
    [rpm_min] (the RPM is then [rpm_min]), the "maximum" warning exactly when
    it is not below [rpm_min] and above [rpm_max] (the RPM is then [rpm_max]);
    otherwise the RPM is the nominal one.  The two warnings never occur
    together. *)
Theorem X1_rpm_clamp (this : Request) (t : Trace) :
  calculate_trace this = Some t ->
  let s := spindle this in
  (In rpm_limited_min (t_warnings t) <-> t_rpm_nominal t < rpm_min s) /\
  (In rpm_limited_max (t_warnings t) <->
     ~ t_rpm_nominal t < rpm_min s /\ t_rpm_nominal t > rpm_max s) /\
  (t_rpm_nominal t < rpm_min s -> t_rpm t = rpm_min s) /\
  (~ t_rpm_nominal t < rpm_min s -> t_rpm_nominal t > rpm_max s ->
   t_rpm t = rpm_max s) /\
  (rpm_min s <= t_rpm_nominal t <= rpm_max s -> t_rpm t = t_rpm_nominal t) /\
  ~ (In rpm_limited_min (t_warnings t) /\ In rpm_limited_max (t_warnings t)).
Proof.
  intros Ht s.
  destruct (calculate_trace_fields this t Ht) as (_ & _ & Hrpm & _).
  assert (Hmin : In rpm_limited_min (t_warnings t) <-> t_rpm_nominal t < rpm_min s).
  { split.
    - intros Hin. unfold rpm_limited_min in Hin. by_stage Ht Hin.
      unfold clampRPM in Hin. fold s in Hin.
      destruct (Rlt_dec _ _); [assumption|].
      destruct (Rgt_dec _ _); cbn in Hin; [|contradiction].
      destruct Hin as [Hin|[]]; discriminate Hin.
    - intros Hlt. apply (in_warnings_iff _ _ Ht). left.
      unfold clampRPM. fold s. destruct (Rlt_dec _ _); [|contradiction].
      left; reflexivity. }
  assert (Hmax : In rpm_limited_max (t_warnings t) <->
                 ~ t_rpm_nominal t < rpm_min s /\ t_rpm_nominal t > rpm_max s).
  { split.
    - intros Hin. unfold rpm_limited_max in Hin. by_stage Ht Hin.
      unfold clampRPM in Hin. fold s in Hin.
      destruct (Rlt_dec _ _); cbn in Hin.
      + destruct Hin as [Hin|[]]; discriminate Hin.
      + destruct (Rgt_dec _ _); cbn in Hin; [split; assumption|contradiction].
    - intros [Hn Hgt]. apply (in_warnings_iff _ _ Ht). left.
      unfold clampRPM. fold s. destruct (Rlt_dec _ _); [contradiction|].
      destruct (Rgt_dec _ _); [|contradiction]. left; reflexivity. }
  split; [exact Hmin|]. split; [exact Hmax|].
  unfold clampRPM in Hrpm. fold s in Hrpm.
  repeat split.
  - intros Hlt. destruct (Rlt_dec _ _); [exact Hrpm|contradiction].
  - intros Hn Hgt. destruct (Rlt_dec _ _); [contradiction|].
    destruct (Rgt_dec _ _); [exact Hrpm|contradiction].
  - intros [H1 H2]. destruct (Rlt_dec _ _); [lra|].
    destruct (Rgt_dec _ _); [lra|exact Hrpm].
  - intros [H1 H2]. apply Hmin in H1. apply Hmax in H2. tauto.
Qed.

(** The nominal RPM of the 1 mm slotting requests, [190500 / PI], is above
    the spindle maximum. *)
Lemma slot_1mm_rpm_nominal (rated rigidity energy force_coeff : R) (t : Trace) :
  calculate_trace (slot_1mm_request rated rigidity energy force_coeff) = Some t ->
  t_rpm_nominal t > 24000.
Proof.
  intros Ht.
  destruct (calculate_trace_fields _ t Ht) as (HD & _).
  destruct (calculate_trace_nominal _ t Ht) as (Hvc & Hrpm0 & _).
  change (getEffectiveDiameter (slot_1mm_request rated rigidity energy force_coeff))
    with 1 in HD.
  assert (Hvc' : t_vc t = 190.5).
  { rewrite Hvc. unfold getSpeedFactor. cbn. Rdecide. lra. }
  rewrite Hrpm0, Hvc', HD.
  pose proof PI_RGT_0 as Hpi. pose proof PI_4 as Hpi4.
  apply Rdiv_gt_bound; lra.
Qed.

Lemma X1_rpm_clamp_witness :
  exists t,
    calculate_trace overloaded_request = Some t /\
    In rpm_limited_max (t_warnings t) /\ t_rpm t = rpm_max (spindle overloaded_request).
Proof.
  destruct (slot_1mm_request_returns 0.1 2.0 5.0 0.7) as [t Ht]. exists t.
  pose proof (slot_1mm_rpm_nominal 0.1 2.0 5.0 0.7 t Ht) as Hhigh.
  assert (Hn : ~ t_rpm_nominal t < rpm_min (spindle overloaded_request)) by (cbn; lra).
  assert (Hgt : t_rpm_nominal t > rpm_max (spindle overloaded_request)) by (cbn; lra).
  destruct (X1_rpm_clamp overloaded_request t Ht) as (_ & Hmax & _ & Hrpm & _).
  split; [exact Ht|]. split.
  - apply Hmax. split; assumption.
  - exact (Hrpm Hn Hgt).
Defined.

(** X2.  Clamping is a fixed point: on a spindle with [rpm_min <= rpm_max],
    clamping an already clamped RPM returns it unchanged and pushes no
    warning. *)
Theorem X2_clamp_idempotent (this : Request) (rpm : R) :
  rpm_min (spindle this) <= rpm_max (spindle this) ->
  clampRPM this (fst (clampRPM this rpm)) = (fst (clampRPM this rpm), []).
Proof.
  intros Hord.
  pose proof (clampRPM_in_range this rpm Hord) as [Hlo Hhi].
  set (r := fst (clampRPM this rpm)) in *.
  unfold clampRPM. destruct (Rlt_dec r _); [lra|].
  destruct (Rgt_dec r _); [lra|reflexivity].
Qed.

Lemma X2_clamp_idempotent_witness :
  rpm_min (spindle example_request) <= rpm_max (spindle example_request) /\
  clampRPM example_request (fst (clampRPM example_request 30000))
  = (fst (clampRPM example_request 30000), []).
Proof.
  assert (H : rpm_min (spindle example_request) <= rpm_max (spindle example_request))
    by (cbn; lra).
  split; [exact H|]. exact (X2_clamp_idempotent example_request 30000 H).
Defined.

(** ** Feed, chip load and MRR stay consistent *)

Lemma js_or_nonzero (v : option R) (d : R) : d <> 0 -> js_or v d <> 0.
Proof.
  intros Hd. unfold js_or. destruct v as [x|]; [|exact Hd].
  destruct (Req_dec_T x 0); assumption.
Qed.

(** [tool.flutes || 2] and its siblings never yield 0: a flute count of 0 is
    replaced by the default. *)
Lemma getEffectiveFlutes_nonzero (this : Request) : getEffectiveFlutes this <> 0.
Proof.
  unfold getEffectiveFlutes.
  destruct (type (tool this)); try (apply js_or_nonzero; lra); lra.
Qed.

Lemma calculateMRR_scale (this : Request) (D ae ap vf k : R) :
  calculateMRR this D ae ap (vf * k) = calculateMRR this D ae ap vf * k.
Proof. unfold calculateMRR. destruct (type (tool this)); ring. Qed.

Lemma calculateCuttingForce_scale (this : Request) (ae ap fz k : R) :
  calculateCuttingForce this ae ap (fz * k) = k * calculateCuttingForce this ae ap fz.
Proof. unfold calculateCuttingForce. destruct (type (tool this)); ring. Qed.

Lemma limitPower_cases (req avail vf fz mrr : R) :
  let k := (avail * 0.85) / req in
  (req > avail * 0.9 /\
   limitPower req avail vf fz mrr = (vf * k, fz * k, mrr * k, [power_limited])) \/
  (~ req > avail * 0.9 /\ limitPower req avail vf fz mrr = (vf, fz, mrr, [])).
Proof.
  intros k. unfold limitPower.
  destruct (Rgt_dec req (avail * 0.9)); [left|right]; split; auto.
Qed.

(** X3.  Whatever the machine limit and the power balancer did, the reported
    values agree with one another: when the spindle's minimum RPM is positive
    and not above its maximum, the feed after the machine limit and the final
    feed are both RPM x flutes x the chip load of that stage; and the final
    MRR is always the MRR recomputed at the final feed. *)
Theorem X3_feed_chipload_mrr_consistent (this : Request) (t : Trace) :
  0 < rpm_min (spindle this) <= rpm_max (spindle this) ->
  calculate_trace this = Some t ->
  t_vf_clamped t = t_rpm t * t_z t * t_fz_clamped t /\
  t_vf t = t_rpm t * t_z t * t_fzAdjusted t /\
  t_mrr t = calculateMRR this (t_D t) (t_ae t) (t_ap t) (t_vf t).
Proof.
  intros [Hmin Hord] Ht.
  destruct (calculate_trace_fields this t Ht)
    as (_ & Hz & Hrpm & _ & _ & _ & _ & Hvf0 & Hvf1 & Hfz1 & Hmrr & _ & _ & Hlim & _).
  assert (Hrz : t_rpm t * t_z t <> 0).
  { pose proof (clampRPM_in_range this (t_rpm_nominal t) Hord) as [Hlo _].
    rewrite <- Hrpm in Hlo. pose proof (getEffectiveFlutes_nonzero this) as Hzn.
    rewrite <- Hz in Hzn. apply Rmult_integral_contrapositive. split; lra. }
  assert (H1 : t_vf_clamped t = t_rpm t * t_z t * t_fz_clamped t).
  { rewrite Hvf1, Hfz1. unfold limitFeed.
    destruct (Rgt_dec _ _); cbn [fst snd]; [|exact Hvf0].
    set (q := t_rpm t * t_z t) in *. unfold Rdiv.
    rewrite (Rmult_comm _ (/ q)), <- Rmult_assoc, Rinv_r by exact Hrz. ring. }
  split; [exact H1|].
  destruct (limitPower_cases (t_powerRequired t) (t_powerAvailable t)
              (t_vf_clamped t) (t_fz_clamped t) (t_mrr_unscaled t))
    as [[_ He]|[_ He]]; rewrite He in Hlim; cbn [fst] in Hlim;
    injection Hlim as Hvf Hfz Hm.
  - split.
    + rewrite Hvf, Hfz, H1. ring.
    + rewrite Hm, Hvf, calculateMRR_scale, <- Hmrr. reflexivity.
  - split.
    + rewrite Hvf, Hfz. exact H1.
    + rewrite Hm, Hvf. exact Hmrr.
Qed.

Lemma X3_feed_chipload_mrr_consistent_witness :
  exists t,
    0 < rpm_min (spindle overloaded_request) <= rpm_max (spindle overloaded_request) /\
    calculate_trace overloaded_request = Some t /\
    t_vf t = t_rpm t * t_z t * t_fzAdjusted t.
Proof.
  destruct (slot_1mm_request_returns 0.1 2.0 5.0 0.7) as [t Ht]. exists t.
  assert (H : 0 < rpm_min (spindle overloaded_request)
              <= rpm_max (spindle overloaded_request)) by (cbn; lra).
  split; [exact H|]. split; [exact Ht|].
  exact (proj1 (proj2 (X3_feed_chipload_mrr_consistent overloaded_request t H Ht))).
Defined.

(** ** The machine feed limit *)

(** X4.  The feed after the machine limit never exceeds the lowest axis
    ceiling; the "Feed limited by machine" warning is present exactly when the
    nominal feed exceeds that ceiling, and then the feed is the ceiling itself;
    otherwise feed and chip load are left as they were. *)
Theorem X4_machine_feed_limit (this : Request) (t : Trace) :
  calculate_trace this = Some t ->
  t_vf_clamped t <= maxFeed this /\
  (In feed_limited (t_warnings t) <-> t_vf_nominal t > maxFeed this) /\
  (t_vf_nominal t > maxFeed this -> t_vf_clamped t = maxFeed this) /\
  (~ t_vf_nominal t > maxFeed this ->
   t_vf_clamped t = t_vf_nominal t /\ t_fz_clamped t = t_fz t).
Proof.
  intros Ht.
  destruct (calculate_trace_fields this t Ht)
    as (_ & _ & _ & _ & _ & _ & _ & _ & Hvf1 & Hfz1 & _).
  assert (Hstage : forall w, In w (snd (limitFeed this (t_rpm t) (t_z t) (t_fz t)
                                                 (t_vf_nominal t))) ->
                             In w (t_warnings t)).
  { intros w Hin. apply (in_warnings_iff _ _ Ht). tauto. }
  unfold limitFeed in Hvf1, Hfz1, Hstage. fold (maxFeed this) in Hvf1, Hfz1, Hstage.
  split; [|split; [split|split]].
  - destruct (Rgt_dec _ _); cbn [fst] in Hvf1; lra.
  - intros Hin. unfold feed_limited in Hin. by_stage Ht Hin.
    unfold limitFeed in Hin. fold (maxFeed this) in Hin.
    destruct (Rgt_dec _ _); [assumption|contradiction].
  - intros Hgt. apply Hstage. destruct (Rgt_dec _ _); [|contradiction].
    left; reflexivity.
  - intros Hgt. destruct (Rgt_dec _ _); [exact Hvf1|contradiction].
  - intros Hn. destruct (Rgt_dec _ _); [contradiction|]. split; assumption.
Qed.

Lemma X4_machine_feed_limit_witness :
  exists t,
    calculate_trace overloaded_request = Some t /\
    t_vf_clamped t <= maxFeed overloaded_request /\ t_vf_clamped t = 792.
Proof.
  destruct (slot_1mm_request_returns 0.1 2.0 5.0 0.7) as [t Ht]. exists t.
  split; [exact Ht|]. split.
  - exact (proj1 (X4_machine_feed_limit overloaded_request t Ht)).
  - exact (proj1 (overloaded_trace_facts t Ht)).
Defined.

Lemma power_available_pos (this : Request) (t : Trace) :
  spindle_valid (spindle this) ->
  calculate_trace this = Some t ->
  0 < t_powerAvailable t.
Proof.
  intros Hvalid Ht.
  destruct (calculate_trace_fields this t Ht)
    as (_ & _ & Hrpm & _ & _ & _ & _ & _ & _ & _ & _ & _ & Hav & _).
  rewrite Hav, Hrpm. apply getSpindlePowerAtRPM_pos; [exact Hvalid|].
  apply clampRPM_in_range. apply Hvalid.
Qed.

(** What the balancer does to the feed on a spindle with positive available
    power: the final feed is the limited feed times a factor in (0, 1]. *)
Lemma final_feed_factor (this : Request) (t : Trace) :
  0 < t_powerAvailable t ->
  calculate_trace this = Some t ->
  exists k, 0 < k <= 1 /\
    t_vf t = t_vf_clamped t * k /\ t_fzAdjusted t = t_fz_clamped t * k /\
    ((~ t_powerRequired t > t_powerAvailable t * 0.9 /\ k = 1) \/
     (t_powerRequired t > t_powerAvailable t * 0.9 /\
      k = (t_powerAvailable t * 0.85) / t_powerRequired t)).
Proof.
  intros Hpos Ht.
  destruct (calculate_trace_fields this t Ht)
    as (_ & _ & _ & _ & _ & _ & _ & _ & _ & _ & _ & _ & _ & Hlim & _).
  destruct (limitPower_cases (t_powerRequired t) (t_powerAvailable t)
              (t_vf_clamped t) (t_fz_clamped t) (t_mrr_unscaled t))
    as [[Hover He]|[Hok He]]; rewrite He in Hlim; cbn [fst] in Hlim;
    injection Hlim as Hvf Hfz Hm.
  - exists ((t_powerAvailable t * 0.85) / t_powerRequired t).
    assert (0 < t_powerRequired t) by lra.
    repeat split; try assumption.
    + apply Rdiv_lt_0_compat; lra.
    + apply (Rmult_le_reg_r (t_powerRequired t)); [lra|].
      unfold Rdiv. rewrite Rmult_assoc, Rinv_l by lra. lra.
    + right. split; [exact Hover|reflexivity].
  - exists 1. repeat split; lra.
Qed.

(** X5.  On a validated spindle and a machine whose axis ceilings are not
    negative, the final feed (after power limiting) never exceeds any axis
    ceiling, and power limiting never raises a non-negative feed. *)
Theorem X5_final_feed_within_ceilings (this : Request) (t : Trace) :
  spindle_valid (spindle this) ->
  0 <= Axes.x (max_feed_mm_min (machine this)) ->
  0 <= Axes.y (max_feed_mm_min (machine this)) ->
  0 <= Axes.z (max_feed_mm_min (machine this)) ->
  calculate_trace this = Some t ->
  t_vf t <= Axes.x (max_feed_mm_min (machine this)) /\
  t_vf t <= Axes.y (max_feed_mm_min (machine this)) /\
  t_vf t <= Axes.z (max_feed_mm_min (machine this)) /\
  (0 <= t_vf_clamped t -> 0 <= t_vf t <= t_vf_clamped t).
Proof.
  intros Hvalid Hx Hy Hz Ht.
  destruct (final_feed_factor this t (power_available_pos this t Hvalid Ht) Ht)
    as (k & [Hk0 Hk1] & Hvf & _).
  destruct (calculate_trace_fields this t Ht)
    as (_ & _ & _ & _ & _ & _ & _ & _ & Hvf1 & _).
  assert (Hmax : t_vf_clamped t <= maxFeed this).
  { rewrite Hvf1. unfold limitFeed. fold (maxFeed this).
    destruct (Rgt_dec _ _); cbn [fst]; lra. }
  assert (Hfinal : t_vf t <= maxFeed this).
  { assert (0 <= maxFeed this) by (unfold maxFeed; repeat apply Rmin_glb; assumption).
    rewrite Hvf. destruct (Rle_dec 0 (t_vf_clamped t)); nra. }
  pose proof (Rmin_l (Rmin (Axes.x (max_feed_mm_min (machine this)))
                           (Axes.y (max_feed_mm_min (machine this))))
                     (Axes.z (max_feed_mm_min (machine this)))) as H1.
  pose proof (Rmin_r (Rmin (Axes.x (max_feed_mm_min (machine this)))
                           (Axes.y (max_feed_mm_min (machine this))))
                     (Axes.z (max_feed_mm_min (machine this)))) as H2.
  pose proof (Rmin_l (Axes.x (max_feed_mm_min (machine this)))
                     (Axes.y (max_feed_mm_min (machine this)))) as H3.
  pose proof (Rmin_r (Axes.x (max_feed_mm_min (machine this)))
                     (Axes.y (max_feed_mm_min (machine this)))) as H4.
  unfold maxFeed in Hfinal.
  repeat split; try lra.
  - rewrite Hvf. nra.
  - rewrite Hvf. nra.
Qed.

Lemma X5_final_feed_within_ceilings_witness :
  exists t,
    spindle_valid (spindle overloaded_request) /\
    calculate_trace overloaded_request = Some t /\
    t_vf t <= 3000 /\ t_vf t <= 792.
Proof.
  destruct (slot_1mm_request_returns 0.1 2.0 5.0 0.7) as [t Ht]. exists t.
  assert (Hvalid : spindle_valid (spindle overloaded_request))
    by (apply vfd_spindle_valid; lra).
  assert (Hx : 0 <= Axes.x (max_feed_mm_min (machine overloaded_request))) by (cbn; lra).
  assert (Hy : 0 <= Axes.y (max_feed_mm_min (machine overloaded_request))) by (cbn; lra).
  assert (Hz : 0 <= Axes.z (max_feed_mm_min (machine overloaded_request))) by (cbn; lra).
  destruct (X5_final_feed_within_ceilings overloaded_request t Hvalid Hx Hy Hz Ht)
    as (_ & _ & H3 & Hle).
  destruct (overloaded_trace_facts t Ht) as (Hvf1 & _).
  split; [exact Hvalid|]. split; [exact Ht|]. split; [exact H3|].
  rewrite Hvf1 in Hle. apply Hle. lra.
Defined.

(** ** Rounding *)

Lemma Int_part_bounds (x : R) : IZR (Int_part x) <= x < IZR (Int_part x) + 1.
Proof. destruct (base_Int_part x) as [H1 H2]. lra. Qed.

Lemma Int_part_monotone (x y : R) : x <= y -> (Int_part x <= Int_part y)%Z.
Proof.
  intros Hxy.
  pose proof (Int_part_bounds x) as [Hx _].
  pose proof (Int_part_bounds y) as [_ Hy].
  assert (H : IZR (Int_part x) < IZR (Int_part y + 1)) by (rewrite plus_IZR; lra).
  apply lt_IZR in H. lia.
Qed.

Lemma Int_part_IZR_half (n : Z) : Int_part (IZR n + / 2) = n.
Proof.
  pose proof (Int_part_bounds (IZR n + / 2)) as [H1 H2].
  assert (Ha : IZR (Int_part (IZR n + / 2)) < IZR (n + 1)) by (rewrite plus_IZR; lra).
  assert (Hb : IZR n < IZR (Int_part (IZR n + / 2) + 1)) by (rewrite plus_IZR; lra).
  apply lt_IZR in Ha. apply lt_IZR in Hb. lia.
Qed.

Lemma Math_round_near (x : R) : Rabs (Math_round x - x) <= / 2.
Proof.
  unfold Math_round. pose proof (Int_part_bounds (x + / 2)) as [H1 H2].
  apply Rabs_le. lra.
Qed.

Lemma Math_round_monotone (x y : R) : x <= y -> Math_round x <= Math_round y.
Proof.
  intros H. unfold Math_round. apply IZR_le, Int_part_monotone. lra.
Qed.

Lemma Math_round_IZR (n : Z) : Math_round (IZR n) = IZR n.
Proof. unfold Math_round. rewrite Int_part_IZR_half. reflexivity. Qed.

Lemma Math_round_bounds (x : R) : x - / 2 < Math_round x <= x + / 2.
Proof.
  unfold Math_round. pose proof (Int_part_bounds (x + / 2)) as [H1 H2]. lra.
Qed.

(** ** After the power balancer *)

Lemma final_power_le_budget (this : Request) (t : Trace) :
  spindle_valid (spindle this) ->
  calculate_trace this = Some t ->
  calculateImprovedPower this (t_ae t) (t_ap t) (t_vf t) <= t_powerAvailable t * 0.9.
Proof.
  intros Hvalid Ht.
  pose proof (power_available_pos this t Hvalid Ht) as Hpos.
  destruct (final_feed_factor this t Hpos Ht) as (k & [Hk0 Hk1] & Hvf & _ & Hk).
  destruct (calculate_trace_fields this t Ht)
    as (_ & _ & _ & _ & _ & _ & _ & _ & _ & _ & _ & Hreq & _ & Hlim & _).
  rewrite Hvf, calculateImprovedPower_scale, <- Hreq.
  destruct Hk as [[Hok ->]|[Hover ->]].
  - lra.
  - assert (0 < t_powerRequired t) by lra.
    replace (t_powerRequired t * (t_powerAvailable t * 0.85 / t_powerRequired t))
      with (t_powerAvailable t * 0.85) by (field; lra).
    lra.
Qed.

(** X6.  On a validated spindle the power required at the final feed never
    exceeds 90% of the available power, whether or not the balancer fired.
    The [power_W] of the returned result is the rounding of the power
    computed before scaling, not of the power at the final feed, and
    [power_available_W] the rounding of the available power.  So when the
    result carries the "Power limited" warning, the computed required power
    is above 90% of the computed available power, and on the rounded numbers
    that are returned [power_W] is at least the rounding of 90% of the
    available power and above [0.9 * power_available_W - 0.95]. *)
Theorem X6_final_power_within_budget (this : Request) (t : Trace) :
  spindle_valid (spindle this) ->
  calculate_trace this = Some t ->
  calculateImprovedPower this (t_ae t) (t_ap t) (t_vf t) <= t_powerAvailable t * 0.9 /\
  t_powerRequired t = calculateImprovedPower this (t_ae t) (t_ap t) (t_vf_clamped t) /\
  (In power_limited (t_warnings t) -> t_powerRequired t > t_powerAvailable t * 0.9) /\
  power_W (result_of this t)
  = Math_round (calculateImprovedPower this (t_ae t) (t_ap t) (t_vf_clamped t)) /\
  power_available_W (result_of this t) = Math_round (t_powerAvailable t) /\
  (In power_limited (warnings (result_of this t)) ->
   Math_round (t_powerAvailable t * 0.9) <= power_W (result_of this t) /\
   power_W (result_of this t) > 0.9 * power_available_W (result_of this t) - 0.95).
Proof.
  intros Hvalid Ht.
  destruct (calculate_trace_fields this t Ht)
    as (_ & _ & _ & _ & _ & _ & _ & _ & _ & _ & _ & Hreq & _).
  assert (Hfires : In power_limited (t_warnings t) ->
                   t_powerRequired t > t_powerAvailable t * 0.9).
  { intros Hin. apply (power_limited_only_from_limitPower this t Ht) in Hin.
    unfold limitPower in Hin. destruct (Rgt_dec _ _); [assumption|contradiction]. }
  split; [exact (final_power_le_budget this t Hvalid Ht)|].
  split; [exact Hreq|]. split; [exact Hfires|].
  cbn [power_W power_available_W warnings result_of].
  split; [rewrite <- Hreq; reflexivity|]. split; [reflexivity|].
  intros Hin. apply Hfires in Hin.
  pose proof (Math_round_bounds (t_powerRequired t)) as [Hr1 Hr2].
  pose proof (Math_round_bounds (t_powerAvailable t)) as [Ha1 Ha2].
  split.
  - apply Math_round_monotone. lra.
  - lra.
Qed.

Lemma X6_final_power_within_budget_witness :
  exists t,
    spindle_valid (spindle overloaded_request) /\
    calculate_trace overloaded_request = Some t /\
    t_powerRequired t = 113.85 /\
    calculateImprovedPower overloaded_request (t_ae t) (t_ap t) (t_vf t) <= 85 * 0.9.
Proof.
  destruct (slot_1mm_request_returns 0.1 2.0 5.0 0.7) as [t Ht]. exists t.
  assert (Hvalid : spindle_valid (spindle overloaded_request))
    by (apply vfd_spindle_valid; lra).
  destruct (overloaded_trace_facts t Ht) as (_ & Hreq & Hav).
  split; [exact Hvalid|]. split; [exact Ht|]. split; [exact Hreq|].
  rewrite <- Hav.
  exact (proj1 (X6_final_power_within_budget overloaded_request t Hvalid Ht)).
Defined.

(** X7.  When the balancer fires, the cutting force is the force at the
    machine-limited chip load times the same ratio that scaled the feed, and
    for a slender-shank variant so is the deflection: force and deflection are
    computed from the power-scaled chip load. *)
Theorem X7_force_and_deflection_follow_power_scaling (this : Request) (t : Trace) :
  calculate_trace this = Some t ->
  t_powerRequired t > t_powerAvailable t * 0.9 ->
  let k := (t_powerAvailable t * 0.85) / t_powerRequired t in
  let force_before := calculateCuttingForce this (t_ae t) (t_ap t) (t_fz_clamped t) in
  t_cuttingForce t = k * force_before /\
  (slender (type (tool this)) ->
   t_deflection t = k * calculateImprovedDeflection this force_before).
Proof.
  intros Ht Hover k force_before.
  destruct (calculate_trace_fields this t Ht)
    as (_ & _ & _ & _ & _ & _ & _ & _ & _ & _ & _ & _ & _ & Hlim & Hforce & Hdefl & _).
  destruct (limitPower_cases (t_powerRequired t) (t_powerAvailable t)
              (t_vf_clamped t) (t_fz_clamped t) (t_mrr_unscaled t))
    as [[_ He]|[Hok _]]; [|contradiction].
  rewrite He in Hlim. cbn [fst] in Hlim. injection Hlim as _ Hfz _.
  assert (HF : t_cuttingForce t = k * force_before).
  { rewrite Hforce, Hfz. apply calculateCuttingForce_scale. }
  split; [exact HF|].
  intros Hs. destruct (checkDeflection_slender this (t_cuttingForce t) Hs) as (Hfst & _).
  rewrite Hdefl, Hfst, HF.
  rewrite calculateImprovedDeflection_linear.
  rewrite (calculateImprovedDeflection_linear this force_before). ring.
Qed.

Lemma X7_force_and_deflection_follow_power_scaling_witness :
  exists t,
    calculate_trace overloaded_request = Some t /\
    t_powerRequired t > t_powerAvailable t * 0.9 /\
    t_cuttingForce t
    = (t_powerAvailable t * 0.85) / t_powerRequired t
      * calculateCuttingForce overloaded_request (t_ae t) (t_ap t) (t_fz_clamped t).
Proof.
  destruct (slot_1mm_request_returns 0.1 2.0 5.0 0.7) as [t Ht]. exists t.
  destruct (overloaded_trace_facts t Ht) as (_ & Hreq & Hav).
  assert (Hover : t_powerRequired t > t_powerAvailable t * 0.9)
    by (rewrite Hreq, Hav; lra).
  split; [exact Ht|]. split; [exact Hover|].
  exact (proj1 (X7_force_and_deflection_follow_power_scaling
                  overloaded_request t Ht Hover)).
Defined.

(** ** Speed factor and nominal values *)

Lemma getSpeedFactor_bounds (this : Request) : 0.8 <= getSpeedFactor this <= 1.3.
Proof.
  unfold getSpeedFactor, speedFactors, lookup.
  repeat match goal with
         | |- context [String.eqb ?a ?b] => destruct (String.eqb a b)
         end;
    unfold js_or; Rdecide; lra.
Qed.

(** X8.  The speed factor depends on the cut type alone, lies between 0.8 and
    1.3, and is 1.0 for every cut type outside the six-entry table. *)
Theorem X8_speed_factor (this : Request) :
  0.8 <= getSpeedFactor this <= 1.3 /\
  (lookup speedFactors (cutType this) = None -> getSpeedFactor this = 1.0) /\
  (forall other, cutType other = cutType this ->
                 getSpeedFactor other = getSpeedFactor this).
Proof.
  split; [apply getSpeedFactor_bounds|]. unfold getSpeedFactor. split.
  - intros ->. reflexivity.
  - intros other ->. reflexivity.
Qed.

(** X9.  Raising the aggressiveness never lowers the nominal surface speed
    when the material's speed range has a non-negative midpoint, and never
    lowers the nominal chip load when the chip-load range has a non-negative
    midpoint and the tool's chip-load factor is not negative; the chip-load
    range looked up is the same. *)
Theorem X9_aggressiveness_monotone (this : Request) (a1 a2 : R) (t1 t2 : Trace) :
  a1 <= a2 ->
  calculate_trace (with_aggressiveness this a1) = Some t1 ->
  calculate_trace (with_aggressiveness this a2) = Some t2 ->
  t_fzRange t1 = t_fzRange t2 /\
  (0 <= fst (vc_range (material this)) + snd (vc_range (material this)) ->
   t_vc t1 <= t_vc t2) /\
  (0 <= fst (t_fzRange t1) + snd (t_fzRange t1) ->
   0 <= js_or (toolChiploadFactors (material this) (type (tool this))) 1.0 ->
   t_fz_nominal t1 <= t_fz_nominal t2).
Proof.
  intros Hle H1 H2.
  destruct (calculate_trace_fields _ t1 H1) as (HD1 & _ & _ & Hr1 & _).
  destruct (calculate_trace_fields _ t2 H2) as (HD2 & _ & _ & Hr2 & _).
  destruct (calculate_trace_nominal _ t1 H1) as (Hvc1 & _ & Hfz1 & _).
  destruct (calculate_trace_nominal _ t2 H2) as (Hvc2 & _ & Hfz2 & _).
  assert (Hrange : t_fzRange t1 = t_fzRange t2).
  { rewrite HD1 in Hr1. rewrite HD2 in Hr2.
    change (getChiploadRange this (getEffectiveDiameter this) = Some (t_fzRange t1)) in Hr1.
    change (getChiploadRange this (getEffectiveDiameter this) = Some (t_fzRange t2)) in Hr2.
    congruence. }
  split; [exact Hrange|]. split.
  - intros Hmid. rewrite Hvc1, Hvc2.
    change (getSpeedFactor (with_aggressiveness this a1)) with (getSpeedFactor this).
    change (getSpeedFactor (with_aggressiveness this a2)) with (getSpeedFactor this).
    cbn [material aggressiveness with_aggressiveness].
    pose proof (proj1 (getSpeedFactor_bounds this)) as Hs.
    apply Rmult_le_compat_l; [|exact Hle].
    apply Rmult_le_pos; [lra|lra].
  - intros Hmid Hf. rewrite Hfz1, Hfz2, <- Hrange.
    cbn [material tool aggressiveness with_aggressiveness].
    apply Rmult_le_compat_r; [exact Hf|].
    apply Rmult_le_compat_l; [lra|exact Hle].
Qed.

Lemma X9_aggressiveness_monotone_witness :
  exists t1 t2,
    1 <= 2 /\
    calculate_trace (with_aggressiveness example_request 1) = Some t1 /\
    calculate_trace (with_aggressiveness example_request 2) = Some t2 /\
    t_vc t1 <= t_vc t2.
Proof.
  destruct (calculate_trace_returns (with_aggressiveness example_request 1)) as [t1 H1];
    [discriminate|].
  destruct (calculate_trace_returns (with_aggressiveness example_request 2)) as [t2 H2];
    [discriminate|].
  exists t1, t2.
  assert (Hle : 1 <= 2) by lra.
  split; [exact Hle|]. split; [exact H1|]. split; [exact H2|].
  destruct (X9_aggressiveness_monotone example_request 1 2 t1 t2 Hle H1 H2)
    as (_ & Hvc & _).
  apply Hvc. cbn. lra.
Defined.

(** ** The chip-load table lookup *)

Lemma firstBucket_spec (ranges : list FzBucket) (d : R) :
  match firstBucket ranges d with
  | Some r =>
      exists pre b post,
        ranges = pre ++ b :: post /\ r = range b /\ d <= max_d_mm b /\
        forall b', In b' pre -> max_d_mm b' < d
  | None => forall b', In b' ranges -> max_d_mm b' < d
  end.
Proof.
  induction ranges as [|b ranges IH]; cbn.
  - intros b' [].
  - destruct (Rle_dec d (max_d_mm b)) as [Hle|Hn].
    + exists [], b, ranges. repeat split; auto. intros b' [].
    + destruct (firstBucket ranges d) as [r|].
      * destruct IH as (pre & b0 & post & -> & Hr & Hd & Hpre).
        exists (b :: pre), b0, post. repeat split; auto.
        intros b' [<-|Hin]; [lra|auto].
      * intros b' [<-|Hin]; [lra|auto].
Qed.

Lemma lastBucket_spec (ranges : list FzBucket) :
  match lastBucket ranges with
  | Some b => exists pre, ranges = pre ++ [b]
  | None => ranges = []
  end.
Proof.
  induction ranges as [|b ranges IH]; [reflexivity|].
  cbn. destruct ranges as [|b' ranges'].
  - exists []. reflexivity.
  - destruct (lastBucket (b' :: ranges')) as [l|].
    + destruct IH as [pre ->]. exists (b :: pre). reflexivity.
    + discriminate IH.
Qed.

(** X10.  The chip-load lookup fails exactly on an empty table.  Otherwise it
    returns the range of a bucket of the table: the first bucket whose
    breakpoint is at least the diameter, every bucket before it having a
    smaller breakpoint, or, when the diameter exceeds every breakpoint, the
    last bucket.  On a table with ascending breakpoints the bucket found is
    the tightest one that covers the diameter. *)
Theorem X10_chipload_lookup (this : Request) (d : R) :
  let ranges := fz_mm_per_tooth_by_diameter (material this) in
  (getChiploadRange this d = None <-> ranges = []) /\
  (forall r, getChiploadRange this d = Some r ->
     exists pre b post,
       ranges = pre ++ b :: post /\ r = range b /\
       (forall b', In b' pre -> max_d_mm b' < d) /\
       (d <= max_d_mm b \/ (post = [] /\ max_d_mm b < d))) /\
  (ascending ranges ->
   forall r b', getChiploadRange this d = Some r ->
     In b' ranges -> d <= max_d_mm b' ->
     exists b, In b ranges /\ r = range b /\
               d <= max_d_mm b /\ max_d_mm b <= max_d_mm b').
Proof.
  intros ranges. unfold getChiploadRange. fold ranges.
  pose proof (firstBucket_spec ranges d) as Hfirst.
  pose proof (lastBucket_spec ranges) as Hlast.
  split; [|split].
  - destruct (firstBucket ranges d) as [r|].
    + destruct Hfirst as (pre & b & post & -> & _).
      split; [discriminate|]. intros H. destruct pre; discriminate H.
    + destruct (lastBucket ranges) as [b|]; cbn.
      * destruct Hlast as [pre ->]. split; [discriminate|].
        intros H. destruct pre; discriminate H.
      * split; auto.
  - intros r Hr. destruct (firstBucket ranges d) as [r0|].
    + injection Hr as <-. destruct Hfirst as (pre & b & post & -> & Hr0 & Hd & Hpre).
      exists pre, b, post. repeat split; auto.
    + destruct (lastBucket ranges) as [b|]; [|discriminate Hr].
      cbn in Hr. injection Hr as <-. destruct Hlast as [pre Hpre].
      exists pre, b, []. rewrite Hpre in Hfirst.
      repeat split; auto.
      * intros b' Hin. apply Hfirst. apply in_or_app. left. exact Hin.
      * right. split; [reflexivity|]. apply Hfirst. apply in_or_app. right.
        left; reflexivity.
  - intros Hasc r b' Hr Hin Hcover.
    destruct (firstBucket ranges d) as [r0|].
    + injection Hr as <-. destruct Hfirst as (pre & b & post & Heq & Hr0 & Hd & Hpre).
      exists b. rewrite Heq in Hin |- *.
      split; [apply in_or_app; right; left; reflexivity|].
      split; [exact Hr0|]. split; [exact Hd|].
      apply in_app_or in Hin. destruct Hin as [Hin|[<-|Hin]].
      * specialize (Hpre b' Hin). lra.
      * lra.
      * clear - Hasc Heq Hin. subst ranges. rewrite Heq in Hasc. clear Heq.
        induction pre as [|p pre IH]; cbn in Hasc.
        -- apply Hasc. exact Hin.
        -- apply IH. apply Hasc.
    + specialize (Hfirst b' Hin). lra.
Qed.

(** ** Chip-load validation *)

(** X11.  The "rubbing risk" danger is present exactly when the final chip
    load is below half the range minimum and the tool is neither a drill nor a
    boring bar; the "very high" warning exactly when it is above 1.5 times the
    range maximum.  When half the minimum does not exceed 1.5 times the
    maximum, the two never occur together. *)
Theorem X11_chipload_validation (this : Request) (t : Trace) :
  calculate_trace this = Some t ->
  (In rubbing_risk (t_warnings t) <->
     t_fzAdjusted t < fst (t_fzRange t) * 0.5 /\
     type (tool this) <> drill /\ type (tool this) <> boring) /\
  (In chipload_very_high (t_warnings t) <->
     t_fzAdjusted t > snd (t_fzRange t) * 1.5) /\
  (fst (t_fzRange t) * 0.5 <= snd (t_fzRange t) * 1.5 ->
   ~ (In rubbing_risk (t_warnings t) /\ In chipload_very_high (t_warnings t))).
Proof.
  intros Ht.
  assert (Hstage : forall w, In w (validateChipload this (t_fzAdjusted t) (t_fzRange t)) ->
                             In w (t_warnings t)).
  { intros w Hin. apply (in_warnings_iff _ _ Ht). tauto. }
  assert (Hrub : In rubbing_risk (t_warnings t) <->
                 t_fzAdjusted t < fst (t_fzRange t) * 0.5 /\
                 type (tool this) <> drill /\ type (tool this) <> boring).
  { split.
    - intros Hin. unfold rubbing_risk in Hin. by_stage Ht Hin.
      unfold validateChipload in Hin. apply in_app_or in Hin.
      destruct Hin as [Hin|Hin].
      + destruct (Rlt_dec _ _) as [Hlt|]; [|contradiction].
        destruct (type (tool this)); cbn in Hin; try contradiction;
          repeat split; try assumption; discriminate.
      + destruct (Rgt_dec _ _); cbn in Hin; [|contradiction].
        destruct Hin as [Hin|[]]; discriminate Hin.
    - intros (Hlt & Hd & Hb). apply Hstage. unfold validateChipload.
      apply in_or_app. left. destruct (Rlt_dec _ _); [|contradiction].
      destruct (type (tool this)); cbn; try (left; reflexivity); contradiction. }
  assert (Hhigh : In chipload_very_high (t_warnings t) <->
                  t_fzAdjusted t > snd (t_fzRange t) * 1.5).
  { split.
    - intros Hin. unfold chipload_very_high in Hin. by_stage Ht Hin.
      unfold validateChipload in Hin. apply in_app_or in Hin.
      destruct Hin as [Hin|Hin].
      + destruct (Rlt_dec _ _); [|contradiction].
        destruct (negb _); cbn in Hin; [|contradiction].
        destruct Hin as [Hin|[]]; discriminate Hin.
      + destruct (Rgt_dec _ _); [assumption|contradiction].
    - intros Hgt. apply Hstage. unfold validateChipload.
      apply in_or_app. right. destruct (Rgt_dec _ _); [|contradiction].
      left; reflexivity. }
  split; [exact Hrub|]. split; [exact Hhigh|].
  intros Hle [H1 H2]. apply Hrub in H1. apply Hhigh in H2. lra.
Qed.

Lemma X11_chipload_validation_witness :
  exists t,
    calculate_trace example_request = Some t /\
    (In chipload_very_high (t_warnings t) <->
     t_fzAdjusted t > snd (t_fzRange t) * 1.5).
Proof.
  destruct example_request_returns as [t Ht]. exists t.
  split; [exact Ht|].
  exact (proj1 (proj2 (X11_chipload_validation example_request t Ht))).
Defined.

(** ** The depth-of-cut override and its warnings *)

(** Reduces [In w (addToolSpecificWarnings ...)] to the checks that can
    push [w]. *)
Ltac tool_cases Hin :=
  unfold addToolSpecificWarnings in Hin;
  repeat (apply in_app_or in Hin; destruct Hin as [Hin|Hin]);
  repeat match type of Hin with
         | context [match ?x with _ => _ end] => destruct x
         | context [if ?c then _ else _] => destruct c
         end;
  try contradiction; try (destruct Hin as [Hin|[]]; discriminate Hin).

(** X12.  An override is never rejected: the axial engagement is the
    override itself.  The "User DOC ... exceeds recommended maximum" warning,
    carrying both values to 2 decimals, is present exactly when the override
    is above [D * material fraction], and the "Very deep DOC" warning exactly
    when it is above [2 D]; without an override neither can occur.  When the
    material fraction is at most 2 and D is not negative, "Very deep DOC"
    implies the other warning. *)
Theorem X12_user_doc_warnings (this : Request) (t : Trace) :
  calculate_trace this = Some t ->
  let limit := getMaxAllowableDOC this (t_D t) in
  match userDOC this with
  | Some d =>
      t_ap t = d /\
      (In (user_doc_exceeds d limit) (t_warnings t) <-> d > limit) /\
      (In very_deep_doc (t_warnings t) <-> d > t_D t * 2) /\
      (js_or (lookup (max_axial_per_pass_D (material this)) (cutType this)) 1.0 <= 2 ->
       0 <= t_D t ->
       In very_deep_doc (t_warnings t) ->
       In (user_doc_exceeds d limit) (t_warnings t))
  | None =>
      (forall a m, ~ In (user_doc_exceeds a m) (t_warnings t)) /\
      ~ In very_deep_doc (t_warnings t)
  end.
Proof.
  intros Ht limit.
  destruct (calculate_trace_fields this t Ht) as (_ & _ & _ & _ & _ & Hap & _).
  rewrite getEngagementParams_ap in Hap.
  assert (Hdoc : forall a m, In (user_doc_exceeds a m) (t_warnings t) ->
            In (user_doc_exceeds a m) (snd (getEngagementParams this (t_D t)))).
  { intros a m Hin. unfold user_doc_exceeds in Hin. by_stage Ht Hin. exact Hin. }
  assert (Hdeep : In very_deep_doc (t_warnings t) ->
            In very_deep_doc
               (addToolSpecificWarnings this (t_D t) (t_ap t) (t_vf t) (t_cuttingForce t))).
  { intros Hin. unfold very_deep_doc in Hin. by_stage Ht Hin. exact Hin. }
  unfold getEngagementParams in Hdoc.
  destruct (getBaseEngagementParams this (t_D t)) as [baseAe baseAp].
  destruct (userDOC this) as [d|] eqn:Hu.
  - fold limit in Hdoc.
    assert (Hex : In (user_doc_exceeds d limit) (t_warnings t) <-> d > limit).
    { split.
      - intros Hin. apply Hdoc in Hin. cbn [snd] in Hin.
        destruct (Rgt_dec d limit); [assumption|contradiction].
      - intros Hgt. apply (in_warnings_iff _ _ Ht). right. left.
        unfold getEngagementParams.
        destruct (getBaseEngagementParams this (t_D t)) as [bAe bAp].
        rewrite Hu. fold limit. cbn [snd].
        destruct (Rgt_dec d limit); [|contradiction]. left; reflexivity. }
    assert (Hvd : In very_deep_doc (t_warnings t) <-> d > t_D t * 2).
    { split.
      - intros Hin. apply Hdeep in Hin. unfold addToolSpecificWarnings in Hin. rewrite Hu in Hin.
        tool_cases Hin. assumption.
      - intros Hgt. apply (in_warnings_iff _ _ Ht). do 7 right.
        unfold addToolSpecificWarnings. rewrite Hu.
        do 4 (apply in_or_app; right).
        destruct (Rgt_dec d (t_D t * 2)); [|contradiction]. left; reflexivity. }
    split; [exact Hap|]. split; [exact Hex|]. split; [exact Hvd|].
    intros Hfrac HD Hin. apply Hex. apply Hvd in Hin.
    unfold limit, getMaxAllowableDOC. nra.
  - split.
    + intros a m Hin. apply Hdoc in Hin. exact Hin.
    + intros Hin. apply Hdeep in Hin. unfold addToolSpecificWarnings in Hin. rewrite Hu in Hin. tool_cases Hin.
Qed.

(** The slotting request with a 15 mm override resolves D = 6 and a limit
    of 6 mm. *)
Lemma deep_doc_request_limit (t : Trace) :
  calculate_trace deep_doc_request = Some t ->
  t_D t = 6 /\ getMaxAllowableDOC deep_doc_request (t_D t) = 6.
Proof.
  intros Ht.
  destruct (calculate_trace_fields deep_doc_request t Ht) as (HD & _).
  change (getEffectiveDiameter deep_doc_request) with 6 in HD.
  split; [exact HD|]. rewrite HD.
  unfold getMaxAllowableDOC. cbn. Rdecide. lra.
Qed.

Lemma X12_user_doc_warnings_witness :
  exists t,
    calculate_trace deep_doc_request = Some t /\
    t_ap t = 15 /\
    In (user_doc_exceeds 15 6) (t_warnings t) /\
    In very_deep_doc (t_warnings t).
Proof.
  destruct (calculate_trace_returns deep_doc_request) as [t Ht]; [discriminate|].
  exists t.
  destruct (deep_doc_request_limit t Ht) as (HD & Hlimit).
  pose proof (X12_user_doc_warnings deep_doc_request t Ht) as H.
  cbn [userDOC deep_doc_request with_userDOC] in H.
  destruct H as (Hap & Hex & Hvd & _).
  rewrite Hlimit in Hex. rewrite HD in Hvd.
  split; [exact Ht|]. split; [exact Hap|]. split.
  - apply Hex. lra.
  - apply Hvd. lra.
Defined.

(** ** Tool-specific warnings *)

(** X13.  Each tool-specific warning belongs to its tool type and threshold:
    "Deep V-carve" to a V-bit with [ap > D / 2], "High feed for slitting saw"
    to a slitting saw with a final feed above 500, "High boring force" to a
    boring bar with a force above 100, and "Small tool" to any tool with
    [D < 1] and a force above 10. *)
Theorem X13_tool_specific_warnings (this : Request) (t : Trace) :
  calculate_trace this = Some t ->
  (In deep_vcarve (t_warnings t) <->
     type (tool this) = vbit /\ t_ap t > t_D t * 0.5) /\
  (In high_feed_slitting (t_warnings t) <->
     type (tool this) = slitting /\ t_vf t > 500) /\
  (In high_boring_force (t_warnings t) <->
     type (tool this) = boring /\ t_cuttingForce t > 100) /\
  (In small_tool (t_warnings t) <-> t_D t < 1.0 /\ t_cuttingForce t > 10).
Proof.
  intros Ht.
  assert (Hstage : forall w,
            In w (addToolSpecificWarnings this (t_D t) (t_ap t) (t_vf t) (t_cuttingForce t))
            -> In w (t_warnings t)).
  { intros w Hin. apply (in_warnings_iff _ _ Ht). tauto. }
  unfold addToolSpecificWarnings in Hstage.
  split; [|split; [|split]]; split.
  - intros Hin. unfold deep_vcarve in Hin. by_stage Ht Hin.
    tool_cases Hin. split; [reflexivity|assumption].
  - intros [Hty Hgt]. apply Hstage. rewrite Hty. cbv beta iota.
    apply in_or_app. left.
    destruct (Rgt_dec (t_ap t) (t_D t * 0.5)); [|contradiction]. left; reflexivity.
  - intros Hin. unfold high_feed_slitting in Hin. by_stage Ht Hin.
    tool_cases Hin. split; [reflexivity|assumption].
  - intros [Hty Hgt]. apply Hstage. rewrite Hty. cbv beta iota.
    apply in_or_app. right. apply in_or_app. left.
    destruct (Rgt_dec (t_vf t) 500); [|contradiction]. left; reflexivity.
  - intros Hin. unfold high_boring_force in Hin. by_stage Ht Hin.
    tool_cases Hin. split; [reflexivity|assumption].
  - intros [Hty Hgt]. apply Hstage. rewrite Hty. cbv beta iota.
    do 2 (apply in_or_app; right). apply in_or_app. left.
    destruct (Rgt_dec (t_cuttingForce t) 100); [|contradiction]. left; reflexivity.
  - intros Hin. unfold small_tool in Hin. by_stage Ht Hin.
    tool_cases Hin; split; assumption.
  - intros [HD Hgt]. apply Hstage.
    do 3 (apply in_or_app; right). apply in_or_app. left.
    destruct (Rlt_dec (t_D t) 1.0); [|contradiction].
    destruct (Rgt_dec (t_cuttingForce t) 10); [|contradiction]. left; reflexivity.
Qed.

(** ** V-bits *)

Lemma tan_half_angle_lt_1 (angle_deg : R) :
  0 <= angle_deg < 90 -> tan ((angle_deg * PI) / 180 / 2) < 1.
Proof.
  intros [H0 H90]. pose proof PI_RGT_0 as Hpi.
  rewrite <- tan_PI4. apply tan_increasing; nra.
Qed.

(** X14.  For a V-bit with an included angle from 0 up to (not including)
    90 degrees and a non-negative tip diameter, run without an override, the
    resolved depth [tip + 2] always exceeds half the effective diameter: the
    "Deep V-carve" warning is always present. *)
Theorem X14_vbit_always_deep (this : Request) (t : Trace) :
  type (tool this) = vbit ->
  userDOC this = None ->
  0 <= angle_deg (tool this) < 90 ->
  0 <= tip_diameter_mm (tool this) ->
  calculate_trace this = Some t ->
  t_ap t = tip_diameter_mm (tool this) + 2 /\
  t_ap t > t_D t * 0.5 /\
  In deep_vcarve (t_warnings t).
Proof.
  intros Hty Hu Hangle Htip Ht.
  destruct (calculate_trace_fields this t Ht) as (HD & _ & _ & _ & _ & Hap & _).
  rewrite getEngagementParams_ap, Hu in Hap.
  unfold getBaseEngagementParams in Hap. rewrite Hty in Hap. cbn [snd] in Hap.
  unfold getEffectiveDiameter in HD. rewrite Hty in HD.
  pose proof (tan_half_angle_lt_1 _ Hangle) as Htan.
  assert (Hgt : t_ap t > t_D t * 0.5) by (rewrite Hap, HD; lra).
  split; [exact Hap|]. split; [exact Hgt|].
  apply (in_warnings_iff _ _ Ht). do 7 right.
  unfold addToolSpecificWarnings. rewrite Hty.
  apply in_or_app. left.
  destruct (Rgt_dec (t_ap t) (t_D t * 0.5)); [|contradiction]. left; reflexivity.
Qed.

Lemma X14_vbit_always_deep_witness :
  exists t,
    type (tool vbit_request) = vbit /\
    userDOC vbit_request = None /\
    0 <= angle_deg (tool vbit_request) < 90 /\
    0 <= tip_diameter_mm (tool vbit_request) /\
    calculate_trace vbit_request = Some t /\
    t_ap t = 2.2 /\ In deep_vcarve (t_warnings t).
Proof.
  destruct (calculate_trace_returns vbit_request) as [t Ht]; [discriminate|].
  exists t.
  assert (Hangle : 0 <= angle_deg (tool vbit_request) < 90) by (cbn; lra).
  assert (Htip : 0 <= tip_diameter_mm (tool vbit_request)) by (cbn; lra).
  destruct (X14_vbit_always_deep vbit_request t eq_refl eq_refl Hangle Htip Ht)
    as (Hap & _ & Hin).
  repeat split; try assumption; try (cbn; lra).
  rewrite Hap. cbn. lra.
Defined.

Lemma X13_tool_specific_warnings_witness :
  exists t,
    calculate_trace vbit_request = Some t /\
    type (tool vbit_request) = vbit /\ t_ap t > t_D t * 0.5.
Proof.
  destruct (calculate_trace_returns vbit_request) as [t Ht]; [discriminate|].
  exists t.
  assert (Hangle : 0 <= angle_deg (tool vbit_request) < 90) by (cbn; lra).
  assert (Htip : 0 <= tip_diameter_mm (tool vbit_request)) by (cbn; lra).
  assert (Hin : In deep_vcarve (t_warnings t)).
  { apply (in_warnings_iff _ _ Ht). do 7 right.
    destruct (calculate_trace_fields vbit_request t Ht) as (HD & _ & _ & _ & _ & Hap & _).
    rewrite getEngagementParams_ap in Hap.
    pose proof (tan_half_angle_lt_1 60) as Htan.
    change (getEffectiveDiameter vbit_request)
      with (0.2 + 2 * 2 * tan (60 * PI / 180 / 2)) in HD.
    change (t_ap t = 0.2 + 2) in Hap.
    unfold addToolSpecificWarnings. cbn [type tool vbit_request request_of vbit_60].
    apply in_or_app. left.
    destruct (Rgt_dec (t_ap t) (t_D t * 0.5)) as [|Hn]; [left; reflexivity|].
    exfalso. apply Hn. rewrite Hap, HD. assert (tan (60 * PI / 180 / 2) < 1) by (apply Htan; lra).
    lra. }
  split; [exact Ht|].
  exact (proj1 (proj1 (X13_tool_specific_warnings vbit_request t Ht)) Hin).
Defined.

(** ** When chip thinning can and cannot apply *)

(** X15.  With a chip-thinning threshold of at most 1 and a non-negative
    effective diameter, a drill, and any tool other than a V-bit in a slot
    cut, is engaged over its full diameter, so the chip-thinning correction
    never applies to it. *)
Theorem X15_no_chip_thinning_at_full_width (this : Request) (t : Trace) :
  (forall ct, chip_thinning (material this) = Some ct -> enable_below_fraction ct <= 1) ->
  type (tool this) = drill \/
    (type (tool this) <> vbit /\ cutType this = "slot"%string) ->
  calculate_trace this = Some t ->
  0 <= t_D t ->
  t_ae t = t_D t /\
  t_fz t = t_fz_nominal t /\
  ~ In chip_thinning_applied (t_warnings t).
Proof.
  intros Hthr Hcase Ht HD.
  destruct (calculate_trace_fields this t Ht)
    as (_ & _ & _ & _ & Hae & _ & Hfz & _).
  rewrite getEngagementParams_ae in Hae.
  assert (Hfull : t_ae t = t_D t).
  { rewrite Hae. unfold getBaseEngagementParams.
    destruct Hcase as [Hd|[Hv Hslot]].
    - rewrite Hd. reflexivity.
    - rewrite Hslot. cbn [String.eqb Ascii.eqb Bool.eqb].
      destruct (type (tool this)); try reflexivity. contradiction. }
  assert (Hstage : applyChipThinning this (t_D t) (t_ae t) (t_fz_nominal t)
                   = (t_fz_nominal t, [])).
  { unfold applyChipThinning.
    destruct (chip_thinning (material this)) as [ct|] eqn:Hct; [|reflexivity].
    specialize (Hthr ct eq_refl).
    destruct (Rlt_dec _ _) as [Hlt|]; [|reflexivity].
    exfalso. rewrite Hfull in Hlt. nra. }
  split; [exact Hfull|]. split.
  - rewrite Hfz, Hstage. reflexivity.
  - intros Hin. apply (chip_thinning_only_from_applyChipThinning this t Ht) in Hin.
    rewrite Hstage in Hin. exact Hin.
Qed.

Lemma slot_request_diameter (t : Trace) :
  calculate_trace slot_request = Some t -> t_D t = 6.
Proof.
  intros Ht. destruct (calculate_trace_fields slot_request t Ht) as (HD & _).
  exact HD.
Qed.

Lemma X15_no_chip_thinning_at_full_width_witness :
  exists t,
    calculate_trace slot_request = Some t /\
    0 <= t_D t /\ t_ae t = t_D t /\ ~ In chip_thinning_applied (t_warnings t).
Proof.
  destruct slot_request_returns as [t Ht]. exists t.
  assert (HD : 0 <= t_D t) by (rewrite (slot_request_diameter t Ht); lra).
  assert (Hthr : forall ct, chip_thinning (material slot_request) = Some ct ->
                            enable_below_fraction ct <= 1).
  { intros ct Hct. cbn in Hct. inversion Hct. cbn. lra. }
  assert (Hcase : type (tool slot_request) = drill \/
                  (type (tool slot_request) <> vbit /\ cutType slot_request = "slot"%string)).
  { right. split; [discriminate|reflexivity]. }
  destruct (X15_no_chip_thinning_at_full_width slot_request t Hthr Hcase Ht HD)
    as (Hae & _ & Hno).
  split; [exact Ht|]. split; [exact HD|]. split; assumption.
Defined.

(** X16.  For every variant other than drill and V-bit, in every cut other
    than a slot, the radial engagement is at most [0.3 D] times the radial
    aggressiveness; so with a positive effective diameter, a non-negative
    radial aggressiveness and a chip-thinning threshold above 0.3 times that
    aggressiveness, the chip-thinning correction always applies. *)
Theorem X16_chip_thinning_always_off_slot (this : Request) (t : Trace) (ct : ChipThinning) :
  type (tool this) <> drill ->
  type (tool this) <> vbit ->
  String.eqb (cutType this) "slot" = false ->
  chip_thinning (material this) = Some ct ->
  0 <= radial (machine_aggressiveness (machine this)) ->
  0.3 * radial (machine_aggressiveness (machine this)) < enable_below_fraction ct ->
  calculate_trace this = Some t ->
  0 < t_D t ->
  t_ae t <= t_D t * 0.3 * radial (machine_aggressiveness (machine this)) /\
  t_fz t = t_fz_nominal t * sqrt (t_D t / t_ae t) /\
  In chip_thinning_applied (t_warnings t).
Proof.
  intros Hd Hv Hslot Hct Hr Hthr Ht HD.
  destruct (calculate_trace_fields this t Ht)
    as (_ & _ & _ & _ & Hae & _ & Hfz & _).
  rewrite getEngagementParams_ae in Hae.
  rewrite getBaseEngagementParams_standard in Hae by assumption.
  rewrite Hslot in Hae. cbn [fst] in Hae.
  assert (Hle : t_ae t <= t_D t * 0.3 * radial (machine_aggressiveness (machine this))).
  { rewrite Hae. apply Rmult_le_compat_r; [exact Hr|]. apply Rmin_l. }
  assert (Hlt : t_ae t < t_D t * enable_below_fraction ct) by nra.
  split; [exact Hle|].
  unfold applyChipThinning in Hfz. rewrite Hct in Hfz.
  destruct (Rlt_dec (t_ae t) _) as [Hy|Hn] eqn:Hdec; [|contradiction].
  cbn [fst] in Hfz. split; [exact Hfz|].
  apply (in_warnings_iff _ _ Ht). right. right. left.
  unfold applyChipThinning. rewrite Hct, Hdec. left; reflexivity.
Qed.

Lemma X16_chip_thinning_always_off_slot_witness :
  exists t,
    calculate_trace example_request = Some t /\
    0 < t_D t /\
    t_ae t <= t_D t * 0.3 * 1.0 /\
    In chip_thinning_applied (t_warnings t).
Proof.
  destruct example_request_returns as [t Ht]. exists t.
  destruct (example_trace_engagement t Ht) as (HD & _).
  assert (Hpos : 0 < t_D t) by (rewrite HD; lra).
  assert (Hr : 0 <= radial (machine_aggressiveness (machine example_request)))
    by (cbn; lra).
  assert (Hthr : 0.3 * radial (machine_aggressiveness (machine example_request))
                 < enable_below_fraction {| enable_below_fraction := 0.5 |})
    by (cbn; lra).
  assert (Hd : type (tool example_request) <> drill) by discriminate.
  assert (Hv : type (tool example_request) <> vbit) by discriminate.
  destruct (X16_chip_thinning_always_off_slot example_request t
              {| enable_below_fraction := 0.5 |} Hd Hv eq_refl eq_refl Hr Hthr Ht Hpos)
    as (Hle & _ & Hin).
  split; [exact Ht|]. split; [exact Hpos|]. split; [exact Hle|exact Hin].
Defined.

(** ** The resolver's own depth of cut *)

(** X17.  Without an override, for every variant other than drill and
    V-bit, with a non-negative effective diameter, an axial aggressiveness
    between 0 and 1 and a non-negative material fraction, the resolved depth
    of cut is not negative, at most [0.75 D] times the axial aggressiveness,
    and never above the maximum allowable depth that an override is checked
    against. *)
Theorem X17_base_depth_within_limit (this : Request) (t : Trace) :
  type (tool this) <> drill ->
  type (tool this) <> vbit ->
  userDOC this = None ->
  0 <= axial (machine_aggressiveness (machine this)) <= 1 ->
  0 <= js_or (lookup (max_axial_per_pass_D (material this)) (cutType this)) 1.0 ->
  calculate_trace this = Some t ->
  0 <= t_D t ->
  0 <= t_ap t /\
  t_ap t <= t_D t * 0.75 * axial (machine_aggressiveness (machine this)) /\
  t_ap t <= getMaxAllowableDOC this (t_D t).
Proof.
  intros Hd Hv Hu [Ha0 Ha1] Hfrac Ht HD.
  destruct (calculate_trace_fields this t Ht) as (_ & _ & _ & _ & _ & Hap & _).
  rewrite getEngagementParams_ap, Hu in Hap.
  rewrite getBaseEngagementParams_standard in Hap by assumption.
  cbn [snd] in Hap.
  assert (Hlimit : maxAp this (t_D t) = getMaxAllowableDOC this (t_D t)) by reflexivity.
  assert (Hlim0 : 0 <= maxAp this (t_D t)) by (unfold maxAp; nra).
  pose proof (Rmin_l (t_D t * 0.75) (maxAp this (t_D t))) as Hl.
  pose proof (Rmin_r (t_D t * 0.75) (maxAp this (t_D t))) as Hr.
  assert (Hm0 : 0 <= Rmin (t_D t * 0.75) (maxAp this (t_D t)))
    by (apply Rmin_glb; lra).
  rewrite <- Hlimit, Hap. repeat split; nra.
Qed.

Lemma X17_base_depth_within_limit_witness :
  exists t,
    calculate_trace slot_request = Some t /\
    0 <= t_D t /\ t_ap t <= getMaxAllowableDOC slot_request (t_D t).
Proof.
  destruct slot_request_returns as [t Ht]. exists t.
  assert (HD : 0 <= t_D t) by (rewrite (slot_request_diameter t Ht); lra).
  assert (Hd : type (tool slot_request) <> drill) by discriminate.
  assert (Hv : type (tool slot_request) <> vbit) by discriminate.
  assert (Ha : 0 <= axial (machine_aggressiveness (machine slot_request)) <= 1)
    by (cbn; lra).
  assert (Hf : 0 <= js_or (lookup (max_axial_per_pass_D (material slot_request))
                                  (cutType slot_request)) 1.0)
    by (cbn; Rdecide; lra).
  split; [exact Ht|]. split; [exact HD|].
  exact (proj2 (proj2 (X17_base_depth_within_limit slot_request t Hd Hv eq_refl Ha Hf Ht HD))).
Defined.

(** ** Actual surface speed *)

(** X18.  With a non-zero effective diameter, the actual surface speed
    computed back from the RPM equals the nominal surface speed whenever the
    nominal RPM is within the spindle range; with a positive diameter it is
    lower when the RPM was clamped to the maximum and higher when it was
    raised to the minimum. *)
Theorem X18_actual_surface_speed (this : Request) (t : Trace) :
  calculate_trace this = Some t ->
  t_D t <> 0 ->
  let s := spindle this in
  (rpm_min s <= t_rpm_nominal t <= rpm_max s -> t_vcActual t = t_vc t) /\
  (0 < t_D t -> ~ t_rpm_nominal t < rpm_min s -> t_rpm_nominal t > rpm_max s ->
   t_vcActual t < t_vc t) /\
  (0 < t_D t -> t_rpm_nominal t < rpm_min s -> t_vcActual t > t_vc t).
Proof.
  intros Ht HD s.
  destruct (calculate_trace_fields this t Ht) as (_ & _ & Hrpm & _).
  destruct (calculate_trace_nominal this t Ht) as (_ & Hrpm0 & _ & Hact & _).
  pose proof PI_RGT_0 as Hpi.
  assert (Hq : PI * t_D t <> 0) by (apply Rmult_integral_contrapositive; split; lra).
  assert (Hvc : t_vc t = (PI * t_D t * t_rpm_nominal t) / 1000).
  { rewrite Hrpm0. field. split; lra. }
  unfold clampRPM in Hrpm. fold s in Hrpm.
  rewrite Hact, Hvc. repeat split.
  - intros [H1 H2]. destruct (Rlt_dec _ _); [lra|].
    destruct (Rgt_dec _ _); [lra|]. cbn [fst] in Hrpm. rewrite Hrpm. reflexivity.
  - intros Hpos Hn Hgt. destruct (Rlt_dec _ _); [contradiction|].
    destruct (Rgt_dec _ _); [|contradiction]. cbn [fst] in Hrpm. rewrite Hrpm.
    assert (0 < PI * t_D t) by (apply Rmult_lt_0_compat; lra). nra.
  - intros Hpos Hlt. destruct (Rlt_dec _ _); [|contradiction].
    cbn [fst] in Hrpm. rewrite Hrpm.
    assert (0 < PI * t_D t) by (apply Rmult_lt_0_compat; lra). nra.
Qed.

Lemma X18_actual_surface_speed_witness :
  exists t,
    calculate_trace overloaded_request = Some t /\
    t_D t <> 0 /\ t_vcActual t < t_vc t.
Proof.
  destruct (slot_1mm_request_returns 0.1 2.0 5.0 0.7) as [t Ht]. exists t.
  destruct (calculate_trace_fields overloaded_request t Ht) as (HD & _).
  change (getEffectiveDiameter overloaded_request) with 1 in HD.
  assert (Hnz : t_D t <> 0) by (rewrite HD; lra).
  pose proof (slot_1mm_rpm_nominal 0.1 2.0 5.0 0.7 t Ht) as Hhigh.
  destruct (X18_actual_surface_speed overloaded_request t Ht Hnz) as (_ & Hlow & _).
  split; [exact Ht|]. split; [exact Hnz|].
  apply Hlow; [rewrite HD; lra | cbn; lra | cbn; lra].
Defined.

(** ** Deflection *)

Section DeflectionTerms.

Variable this : Request.

Let L := js_or (stickout_mm (tool this)) 20.
Let d := js_or (shank_mm (tool this)) (diameter_mm (tool this)).
Let E := if String.eqb (tool_material (tool this)) "hss" then 210000 else 600000.

Lemma calculateImprovedDeflection_terms (force : R) :
  calculateImprovedDeflection this force
  = (force * L ^ 3) / (3 * E * (PI * d ^ 4 / 64))
    + (1.2 * force * L) / (E / 2.6 * (PI * d ^ 2 / 4))
    + force * 0.002.
Proof.
  unfold calculateImprovedDeflection, L, d, E,
    MATERIAL_CONSTANTS.HSS_YOUNGS_MODULUS, MATERIAL_CONSTANTS.CARBIDE_YOUNGS_MODULUS.
  destruct (String.eqb _ _); reflexivity.
Qed.

Lemma deflection_denominators_pos :
  d <> 0 ->
  0 < 3 * E * (PI * d ^ 4 / 64) /\ 0 < E / 2.6 * (PI * d ^ 2 / 4).
Proof.
  intros Hd. pose proof PI_RGT_0 as Hpi.
  assert (HE : 0 < E) by (unfold E; destruct (String.eqb _ _); lra).
  assert (Hd2 : 0 < d ^ 2) by (simpl; nra).
  assert (Hd4 : 0 < d ^ 4).
  { replace (d ^ 4) with (d ^ 2 * d ^ 2) by ring. apply Rmult_lt_0_compat; assumption. }
  split.
  - apply Rmult_lt_0_compat; [lra|]. apply Rdiv_lt_0_compat; [|lra].
    apply Rmult_lt_0_compat; assumption.
  - apply Rmult_lt_0_compat; [lra|]. apply Rdiv_lt_0_compat; [|lra].
    apply Rmult_lt_0_compat; assumption.
Qed.

Lemma calculateImprovedDeflection_lower_bound (force : R) :
  d <> 0 -> 0 <= L -> 0 <= force ->
  force * 0.002 <= calculateImprovedDeflection this force.
Proof.
  intros Hd HL HF. rewrite calculateImprovedDeflection_terms.
  destruct (deflection_denominators_pos Hd) as [H1 H2].
  assert (0 <= L ^ 3) by (apply pow_le; exact HL).
  assert (0 <= (force * L ^ 3) / (3 * E * (PI * d ^ 4 / 64))).
  { apply Rmult_le_pos; [nra|]. left. apply Rinv_0_lt_compat. exact H1. }
  assert (0 <= (1.2 * force * L) / (E / 2.6 * (PI * d ^ 2 / 4))).
  { apply Rmult_le_pos; [nra|]. left. apply Rinv_0_lt_compat. exact H2. }
  lra.
Qed.

End DeflectionTerms.

(** X19.  For a slender-shank variant with a non-zero shank diameter, a
    non-negative stickout and a non-negative cutting force, the deflection is
    at least the holder term [0.002 x force]; so a force above 25 N always
    gives the danger diagnostic, and a force above 10 N always gives one of
    the two deflection diagnostics. *)
Theorem X19_holder_term_forces_diagnostics (this : Request) (t : Trace) :
  slender (type (tool this)) ->
  js_or (shank_mm (tool this)) (diameter_mm (tool this)) <> 0 ->
  0 <= js_or (stickout_mm (tool this)) 20 ->
  calculate_trace this = Some t ->
  0 <= t_cuttingForce t ->
  t_cuttingForce t * 0.002 <= t_deflection t /\
  (t_cuttingForce t > 25 -> In (high_deflection (t_deflection t)) (t_warnings t)) /\
  (t_cuttingForce t > 10 ->
   In (high_deflection (t_deflection t)) (t_warnings t) \/
   In (moderate_deflection (t_deflection t)) (t_warnings t)).
Proof.
  intros Hs Hd HL Ht HF.
  destruct (calculate_trace_fields this t Ht)
    as (_ & _ & _ & _ & _ & _ & _ & _ & _ & _ & _ & _ & _ & _ & _ & Hdefl & _).
  destruct (checkDeflection_slender this (t_cuttingForce t) Hs)
    as (Hfst & Hhigh & Hmod & _).
  rewrite <- Hdefl in Hfst. rewrite <- Hfst in Hhigh, Hmod.
  pose proof (calculateImprovedDeflection_lower_bound this (t_cuttingForce t) Hd HL HF)
    as Hlow.
  rewrite <- Hfst in Hlow.
  assert (Hstage : forall w, In w (snd (checkDeflection this (t_cuttingForce t))) ->
                             In w (t_warnings t)).
  { intros w Hin. apply (in_warnings_iff _ _ Ht). tauto. }
  split; [exact Hlow|]. split.
  - intros Hgt. apply Hstage. rewrite Hhigh by lra. left; reflexivity.
  - intros Hgt. destruct (Rgt_dec (t_deflection t) 0.05) as [Hbig|Hsmall].
    + left. apply Hstage. rewrite (Hhigh Hbig). left; reflexivity.
    + right. apply Hstage. rewrite Hmod by lra. left; reflexivity.
Qed.

Lemma X19_holder_term_forces_diagnostics_witness :
  exists t,
    slender (type (tool boundary_request)) /\
    js_or (shank_mm (tool boundary_request)) (diameter_mm (tool boundary_request)) <> 0 /\
    0 <= js_or (stickout_mm (tool boundary_request)) 20 /\
    calculate_trace boundary_request = Some t /\
    0 <= t_cuttingForce t /\
    t_cuttingForce t * 0.002 <= t_deflection t.
Proof.
  destruct (slot_1mm_request_returns 2.2 1.0 0.5 (0.05 / (16.5 * endmill_1mm_compliance)))
    as [t Ht].
  exists t.
  assert (Hs : slender (type (tool boundary_request))) by (left; reflexivity).
  assert (Hd : js_or (shank_mm (tool boundary_request))
                     (diameter_mm (tool boundary_request)) <> 0)
    by (cbn; Rdecide; lra).
  assert (HL : 0 <= js_or (stickout_mm (tool boundary_request)) 20)
    by (cbn; Rdecide; lra).
  destruct (boundary_trace_facts t Ht) as (Hforce & _).
  assert (HF : 0 <= t_cuttingForce t).
  { rewrite Hforce. pose proof endmill_1mm_compliance_pos. left.
    apply Rdiv_lt_0_compat; lra. }
  repeat split; try assumption; try (cbn; Rdecide; lra).
  exact (proj1 (X19_holder_term_forces_diagnostics boundary_request t Hs Hd HL Ht HF)).
Defined.

Lemma cube_lt (a b : R) : 0 < a < b -> a ^ 3 < b ^ 3.
Proof.
  intros [Ha Hab]. simpl.
  assert (a * a < b * b) by nra.
  assert (0 < a * a) by nra.
  nra.
Qed.

Lemma deflection_of_stickout (this : Request) (Ls : option R) (force : R) :
  calculateImprovedDeflection (with_tool this (tool_with_stickout (tool this) Ls)) force
  = let L := js_or Ls 20 in
    let d := js_or (shank_mm (tool this)) (diameter_mm (tool this)) in
    let E := if String.eqb (tool_material (tool this)) "hss" then 210000 else 600000 in
    (force * L ^ 3) / (3 * E * (PI * d ^ 4 / 64))
    + (1.2 * force * L) / (E / 2.6 * (PI * d ^ 2 / 4))
    + force * 0.002.
Proof. rewrite calculateImprovedDeflection_terms. reflexivity. Qed.

(** X20.  For a positive force and a non-zero shank diameter the deflection
    strictly increases with a positive stickout.  A stickout of 0, like a
    missing one, is replaced by 20 mm. *)
Theorem X20_deflection_increases_with_stickout
        (this : Request) (force L1 L2 : R) :
  0 < force ->
  js_or (shank_mm (tool this)) (diameter_mm (tool this)) <> 0 ->
  0 < L1 < L2 ->
  let at_stickout Ls :=
    calculateImprovedDeflection (with_tool this (tool_with_stickout (tool this) Ls)) force in
  at_stickout (Some L1) < at_stickout (Some L2) /\
  at_stickout (Some 0) = at_stickout (Some 20) /\
  at_stickout None = at_stickout (Some 20).
Proof.
  intros HF Hd [H1 H12] at_stickout. unfold at_stickout.
  rewrite !deflection_of_stickout.
  split; [|split].
  - destruct (deflection_denominators_pos this Hd) as [Hb Hs].
    cbv zeta in Hb, Hs |- *.
    set (d := js_or (shank_mm (tool this)) (diameter_mm (tool this))) in *.
    set (den1 := 3 * _ * _) in *. set (den2 := _ / 2.6 * _) in *.
    unfold js_or.
    destruct (Req_dec_T L1 0); [lra|]. destruct (Req_dec_T L2 0); [lra|].
    pose proof (cube_lt L1 L2 (conj H1 H12)) as Hcube.
    assert (Hi1 : 0 < / den1) by (apply Rinv_0_lt_compat; exact Hb).
    assert (Hi2 : 0 < / den2) by (apply Rinv_0_lt_compat; exact Hs).
    unfold Rdiv.
    assert (force * L1 ^ 3 * / den1 < force * L2 ^ 3 * / den1)
      by (apply Rmult_lt_compat_r; [exact Hi1|nra]).
    assert (1.2 * force * L1 * / den2 < 1.2 * force * L2 * / den2)
      by (apply Rmult_lt_compat_r; [exact Hi2|nra]).
    lra.
  - cbv zeta.
    set (d := js_or (shank_mm (tool this)) (diameter_mm (tool this))) in *.
    unfold js_or.
    destruct (Req_dec_T 0 0); [|lra]. destruct (Req_dec_T 20 0); [lra|]. reflexivity.
  - cbv zeta.
    set (d := js_or (shank_mm (tool this)) (diameter_mm (tool this))) in *.
    unfold js_or.
    destruct (Req_dec_T 20 0); [lra|]. reflexivity.
Qed.

Lemma X20_deflection_increases_with_stickout_witness :
  0 < 80 /\
  js_or (shank_mm (tool example_request)) (diameter_mm (tool example_request)) <> 0 /\
  0 < 20 < 40 /\
  calculateImprovedDeflection
    (with_tool example_request (tool_with_stickout (tool example_request) (Some 20))) 80
  < calculateImprovedDeflection
      (with_tool example_request (tool_with_stickout (tool example_request) (Some 40))) 80.
Proof.
  assert (HF : 0 < 80) by lra.
  assert (Hd : js_or (shank_mm (tool example_request))
                     (diameter_mm (tool example_request)) <> 0)
    by (cbn; Rdecide; lra).
  assert (HL : 0 < 20 < 40) by lra.
  split; [exact HF|]. split; [exact Hd|]. split; [exact HL|].
  exact (proj1 (X20_deflection_increases_with_stickout example_request 80 20 40 HF Hd HL)).
Defined.

Lemma deflection_of_material (this : Request) (m : string) (force : R) :
  calculateImprovedDeflection (with_tool this (tool_with_material (tool this) m)) force
  = let L := js_or (stickout_mm (tool this)) 20 in
    let d := js_or (shank_mm (tool this)) (diameter_mm (tool this)) in
    let E := if String.eqb m "hss" then 210000 else 600000 in
    (force * L ^ 3) / (3 * E * (PI * d ^ 4 / 64))
    + (1.2 * force * L) / (E / 2.6 * (PI * d ^ 2 / 4))
    + force * 0.002.
Proof. rewrite calculateImprovedDeflection_terms. reflexivity. Qed.

(** X21.  Only the exact tool material "hss" selects the HSS modulus: every
    other material string deflects like carbide.  For a positive force, a
    positive stickout and a non-zero shank diameter, the HSS tool deflects
    strictly more than the carbide one. *)
Theorem X21_tool_material_and_deflection (this : Request) (force : R) :
  let of_material m :=
    calculateImprovedDeflection (with_tool this (tool_with_material (tool this) m)) force in
  (forall m, String.eqb m "hss" = false -> of_material m = of_material "carbide"%string) /\
  (0 < force ->
   0 < js_or (stickout_mm (tool this)) 20 ->
   js_or (shank_mm (tool this)) (diameter_mm (tool this)) <> 0 ->
   of_material "carbide"%string < of_material "hss"%string).
Proof.
  intros of_material. unfold of_material. split.
  - intros m Hm. rewrite !deflection_of_material. rewrite Hm. reflexivity.
  - intros HF HL Hd. rewrite !deflection_of_material.
    cbn [String.eqb Ascii.eqb Bool.eqb]. cbv zeta.
    set (L := js_or (stickout_mm (tool this)) 20) in *.
    set (d := js_or (shank_mm (tool this)) (diameter_mm (tool this))) in *.
    pose proof PI_RGT_0 as Hpi.
    assert (Hd2 : 0 < d ^ 2) by (simpl; nra).
    assert (Hd4 : 0 < d ^ 4).
    { replace (d ^ 4) with (d ^ 2 * d ^ 2) by ring. apply Rmult_lt_0_compat; assumption. }
    assert (HI : 0 < PI * d ^ 4 / 64) by nra.
    assert (HA : 0 < PI * d ^ 2 / 4) by nra.
    assert (HL3 : 0 < L ^ 3) by (apply pow_lt; exact HL).
    assert (Hb : (force * L ^ 3) / (3 * 600000 * (PI * d ^ 4 / 64))
                 < (force * L ^ 3) / (3 * 210000 * (PI * d ^ 4 / 64))).
    { unfold Rdiv. apply Rmult_lt_compat_l; [nra|].
      apply Rinv_lt_contravar; nra. }
    assert (Hs : (1.2 * force * L) / (600000 / 2.6 * (PI * d ^ 2 / 4))
                 < (1.2 * force * L) / (210000 / 2.6 * (PI * d ^ 2 / 4))).
    { unfold Rdiv. apply Rmult_lt_compat_l; [nra|].
      apply Rinv_lt_contravar; nra. }
    lra.
Qed.

(** ** The specific cutting energy and its fallback *)

Lemma getSpecificCuttingEnergy_bounds (this : Request) :
  0.05 <= getSpecificCuttingEnergy this <= 5.0.
Proof.
  unfold getSpecificCuttingEnergy.
  repeat match goal with
         | |- context [if ?c then _ else _] => destruct c
         end; lra.
Qed.

Lemma getToolPowerFactor_bounds (this : Request) :
  0.7 <= getToolPowerFactor this <= 1.2.
Proof. unfold getToolPowerFactor. destruct (type (tool this)); lra. Qed.

(** X22.  A material energy of 0 is treated like a missing one: the power
    is then computed from the category fallback, which always lies between
    0.05 and 5.  With non-negative engagement, feed and rigidity, and a
    material energy that is missing or not negative, the required power is
    never negative. *)
Theorem X22_energy_fallback (this : Request) (ae ap vf : R) :
  0.05 <= getSpecificCuttingEnergy this <= 5.0 /\
  (specific_cutting_energy_J_mm3 (material this) = None \/
   specific_cutting_energy_J_mm3 (material this) = Some 0 ->
   calculateImprovedPower this ae ap vf
   = (ae * ap * vf * getSpecificCuttingEnergy this / 60)
     * getToolPowerFactor this * K_rigidity (machine this) * 1.15) /\
  (0 <= ae -> 0 <= ap -> 0 <= vf -> 0 <= K_rigidity (machine this) ->
   (forall e, specific_cutting_energy_J_mm3 (material this) = Some e -> 0 <= e) ->
   0 <= calculateImprovedPower this ae ap vf).
Proof.
  pose proof (getSpecificCuttingEnergy_bounds this) as He.
  pose proof (getToolPowerFactor_bounds this) as Hf.
  split; [exact He|]. split.
  - intros [Hn|Hz]; unfold calculateImprovedPower; rewrite ?Hn, ?Hz.
    + lra.
    + destruct (Req_dec_T 0 0); [lra|contradiction].
  - intros Hae Hap Hvf HK Hpos. unfold calculateImprovedPower.
    assert (Henergy : 0 <= match specific_cutting_energy_J_mm3 (material this) with
                            | Some e => if Req_dec_T e 0 then getSpecificCuttingEnergy this
                                        else e
                            | None => getSpecificCuttingEnergy this
                            end).
    { destruct (specific_cutting_energy_J_mm3 (material this)) as [e|]; [|lra].
      destruct (Req_dec_T e 0); [lra|]. apply Hpos. reflexivity. }
    cbv zeta. set (energy := match _ with Some _ => _ | None => _ end) in *.
    assert (0 <= ae * ap * vf) by (repeat apply Rmult_le_pos; assumption).
    assert (0 <= ae * ap * vf * energy / 60) by nra.
    assert (0 <= ae * ap * vf * energy / 60 * getToolPowerFactor this) by nra.
    assert (0 <= ae * ap * vf * energy / 60 * getToolPowerFactor this
                 * K_rigidity (machine this)) by nra.
    lra.
Qed.

(** ** The rounding of the returned values *)

Lemma scaled_round_near (p x : R) :
  0 < p -> Rabs (IZR (Int_part (x * p + / 2)) / p - x) <= / 2 / p.
Proof.
  intros Hp. pose proof (Int_part_bounds (x * p + / 2)) as [H1 H2].
  set (k := IZR (Int_part (x * p + / 2))) in *.
  assert (Hip : 0 < / p) by (apply Rinv_0_lt_compat; exact Hp).
  replace (k / p - x) with ((k - x * p) * / p) by (field; lra).
  apply Rabs_le. unfold Rdiv. split.
  - replace (- (/ 2 * / p)) with ((- / 2) * / p) by ring.
    apply Rmult_le_compat_r; lra.
  - apply Rmult_le_compat_r; lra.
Qed.

Lemma toFixed_near (n : nat) (x : R) : Rabs (toFixed n x - x) <= / 2 / 10 ^ n.
Proof.
  assert (Hp : 0 < 10 ^ n) by (apply pow_lt; lra).
  unfold toFixed. destruct (Rlt_dec x 0).
  - pose proof (scaled_round_near (10 ^ n) (- x) Hp) as H.
    replace (- (IZR (Int_part (- x * 10 ^ n + / 2)) / 10 ^ n) - x)
      with (- (IZR (Int_part (- x * 10 ^ n + / 2)) / 10 ^ n - - x)) by ring.
    rewrite Rabs_Ropp. exact H.
  - apply scaled_round_near. exact Hp.
Qed.



(** X24.  When the spindle limits are whole numbers in order, the RPM of a
    returned result lies within them: rounding never carries the clamped
    RPM out of the spindle range. *)
Theorem X24_reported_rpm_within_limits (this : Request) (r : Result) (lo hi : Z) :
  calculate this = Some r ->
  rpm_min (spindle this) = IZR lo ->
  rpm_max (spindle this) = IZR hi ->
  (lo <= hi)%Z ->
  rpm_min (spindle this) <= rpm r <= rpm_max (spindle this).
Proof.
  unfold calculate. intros Hr Hlo Hhi Hle.
  destruct (calculate_trace this) as [t|] eqn:Ht; [|discriminate].
  cbn in Hr. injection Hr as <-. cbn [rpm result_of].
  destruct (calculate_trace_fields this t Ht) as (_ & _ & Hrpm & _).
  assert (Hord : rpm_min (spindle this) <= rpm_max (spindle this))
    by (rewrite Hlo, Hhi; apply IZR_le; exact Hle).
  pose proof (clampRPM_in_range this (t_rpm_nominal t) Hord) as [H1 H2].
  rewrite <- Hrpm in H1, H2.
  split.
  - rewrite Hlo, <- (Math_round_IZR lo). apply Math_round_monotone. lra.
  - rewrite Hhi, <- (Math_round_IZR hi). apply Math_round_monotone. lra.
Qed.

Lemma X24_reported_rpm_within_limits_witness :
  exists r,
    calculate example_request = Some r /\
    rpm_min (spindle example_request) <= rpm r <= rpm_max (spindle example_request).
Proof.
  destruct (calculate_trace_returns example_request) as [t Ht]; [discriminate|].
  assert (Hr : calculate example_request = Some (result_of example_request t))
    by (unfold calculate; rewrite Ht; reflexivity).
  exists (result_of example_request t). split; [exact Hr|].
  apply (X24_reported_rpm_within_limits example_request _ 8000 24000 Hr);
    [cbn; lra | cbn; lra | lia].
Defined.

(** ** The spindle validator and the solver *)

Lemma validateSpindle_sound (s : Spindle) :
  Validation.errors (Validation.validateSpindle (Some s)) = [] ->
  0 < rated_power_kW s /\ 0 < rpm_min s /\ 0 < rpm_max s /\ rpm_min s < rpm_max s /\
  (base_rpm s = 0 \/ rpm_min s <= base_rpm s <= rpm_max s).
Proof.
  unfold Validation.validateSpindle, Validation.isValidNumber.
  cbn [negb orb Validation.errors].
  destruct (Rle_dec (rated_power_kW s) 0); [discriminate|].
  destruct (Rle_dec (rpm_min s) 0).
  { destruct (Rlt_dec _ _); [|destruct (Rgt_dec _ _)]; discriminate. }
  destruct (Rle_dec (rpm_max s) 0).
  { destruct (Rlt_dec (rated_power_kW s) _); [|destruct (Rgt_dec (rated_power_kW s) _)];
      (destruct (Rlt_dec (rpm_min s) _); discriminate). }
  destruct (Rge_dec (rpm_min s) (rpm_max s)).
  { destruct (Rlt_dec (rated_power_kW s) _); [|destruct (Rgt_dec (rated_power_kW s) _)];
      (destruct (Rlt_dec (rpm_min s) _);
       (destruct (Rgt_dec (rpm_max s) _); discriminate)). }
  destruct (Req_dec_T (base_rpm s) 0); [intros _; repeat split; lra|].
  destruct (Rlt_dec (base_rpm s) (rpm_min s)).
  { destruct (Rlt_dec (rated_power_kW s) _); [|destruct (Rgt_dec (rated_power_kW s) _)];
      (destruct (Rlt_dec (rpm_min s) _);
       (destruct (Rgt_dec (rpm_max s) _); discriminate)). }
  destruct (Rgt_dec (base_rpm s) (rpm_max s)).
  { destruct (Rlt_dec (rated_power_kW s) _); [|destruct (Rgt_dec (rated_power_kW s) _)];
      (destruct (Rlt_dec (rpm_min s) _);
       (destruct (Rgt_dec (rpm_max s) _); discriminate)). }
  intros _. repeat split; lra.
Qed.

Lemma validateSpindle_complete (s : Spindle) :
  0 < rated_power_kW s -> 0 < rpm_min s -> 0 < rpm_max s -> rpm_min s < rpm_max s ->
  (base_rpm s = 0 \/ rpm_min s <= base_rpm s <= rpm_max s) ->
  Validation.errors (Validation.validateSpindle (Some s)) = [].
Proof.
  intros Hp Hlo Hhi Hord Hbase.
  unfold Validation.validateSpindle, Validation.isValidNumber.
  cbn [negb orb Validation.errors].
  destruct (Rle_dec (rated_power_kW s) 0); [lra|].
  destruct (Rle_dec (rpm_min s) 0); [lra|].
  destruct (Rle_dec (rpm_max s) 0); [lra|].
  destruct (Rge_dec (rpm_min s) (rpm_max s)); [lra|].
  assert (Hb : (if Req_dec_T (base_rpm s) 0 then []
                else if (if Rlt_dec (base_rpm s) (rpm_min s) then true else false)
                        || (if Rgt_dec (base_rpm s) (rpm_max s) then true else false)
                     then ["Base RPM must be within min/max RPM range"%string] else [])
               = []).
  { destruct (Req_dec_T _ _); [reflexivity|].
    destruct (Rlt_dec _ _); [lra|]. destruct (Rgt_dec _ _); [lra|]. reflexivity. }
  rewrite Hb.
  destruct (Rlt_dec (rated_power_kW s) _); [|destruct (Rgt_dec (rated_power_kW s) _)];
    (destruct (Rlt_dec (rpm_min s) _);
     (destruct (Rgt_dec (rpm_max s) _); reflexivity)).
Qed.

Lemma validateSpindle_spindle_valid (s : Spindle) :
  Validation.errors (Validation.validateSpindle (Some s)) = [] -> spindle_valid s.
Proof.
  intros H. destruct (validateSpindle_sound s H) as (Hp & Hlo & _ & Hord & _).
  unfold spindle_valid. lra.
Qed.

(** X25.  The spindle validator reports no error exactly when the rated
    power and both RPM limits are positive, the minimum RPM is strictly below
    the maximum, and the base RPM is either 0 (not checked) or within the
    limits; a missing spindle is always an error.  The typical-range checks
    only ever add warnings. *)
Theorem X25_validateSpindle_accepts (s : Spindle) :
  (Validation.errors (Validation.validateSpindle (Some s)) = [] <->
   0 < rated_power_kW s /\ 0 < rpm_min s /\ 0 < rpm_max s /\ rpm_min s < rpm_max s /\
   (base_rpm s = 0 \/ rpm_min s <= base_rpm s <= rpm_max s)) /\
  Validation.errors (Validation.validateSpindle None) <> [].
Proof.
  split; [split|discriminate].
  - apply validateSpindle_sound.
  - intros (Hp & Hlo & Hhi & Hord & Hbase). now apply validateSpindle_complete.
Qed.

Lemma getSpindlePowerAtRPM_le_rated (this : Request) (rpm : R) :
  spindle_valid (spindle this) ->
  getSpindlePowerAtRPM this rpm <= rated_power_kW (spindle this) * 1000 * 0.85.
Proof.
  intros (Hp & Hlo & Hord). unfold getSpindlePowerAtRPM.
  destruct (Rlt_dec _ _); [lra|]. destruct (Rgt_dec _ _); [lra|].
  destruct (Rle_dec _ _) as [Hb|Hb]; [|lra].
  cbv zeta.
  set (s := spindle this) in *.
  assert (Hr : 0 < rpm) by lra.
  assert (Hbase : 0 < base_rpm s) by lra.
  assert (Hq : 0 < rpm / base_rpm s <= 1).
  { split; [apply Rdiv_lt_0_compat; assumption|].
    apply Rmult_le_reg_r with (base_rpm s); [exact Hbase|].
    unfold Rdiv. rewrite Rmult_assoc, Rinv_l by lra. lra. }
  assert (Ht : 0 < Rmin (rpm / (rpm_min s * 1.5)) 1.0 <= 1).
  { unfold Rmin. destruct (Rle_dec _ _); [|lra].
    split; [|lra]. apply Rdiv_lt_0_compat; lra. }
  set (q := rpm / base_rpm s) in *. set (tr := Rmin _ _) in *.
  assert (q * tr <= 1) by nra.
  assert (rated_power_kW s * 1000 * q * tr <= rated_power_kW s * 1000).
  { replace (rated_power_kW s * 1000 * q * tr)
      with (rated_power_kW s * 1000 * (q * tr)) by ring. nra. }
  lra.
Qed.

(** X26.  A spindle that the validator accepts without error makes the
    solver well behaved: the RPM it settles on lies within the spindle
    limits, the available power there is positive and at most 85% of the
    rated power, and the power at the final feed is within 90% of it.  This
    holds also for a base RPM of 0, which the validator does not check. *)
Theorem X26_accepted_spindle_in_solver (this : Request) (t : Trace) :
  Validation.errors (Validation.validateSpindle (Some (spindle this))) = [] ->
  calculate_trace this = Some t ->
  rpm_min (spindle this) <= t_rpm t <= rpm_max (spindle this) /\
  0 < t_powerAvailable t <= rated_power_kW (spindle this) * 1000 * 0.85 /\
  calculateImprovedPower this (t_ae t) (t_ap t) (t_vf t) <= t_powerAvailable t * 0.9.
Proof.
  intros Hacc Ht.
  pose proof (validateSpindle_spindle_valid _ Hacc) as Hvalid.
  destruct (calculate_trace_fields this t Ht)
    as (_ & _ & Hrpm & _ & _ & _ & _ & _ & _ & _ & _ & _ & Hav & _).
  split; [|split; [split|]].
  - rewrite Hrpm. apply clampRPM_in_range. apply Hvalid.
  - exact (power_available_pos this t Hvalid Ht).
  - rewrite Hav. apply getSpindlePowerAtRPM_le_rated. exact Hvalid.
  - exact (final_power_le_budget this t Hvalid Ht).
Qed.

Lemma X26_accepted_spindle_in_solver_witness :
  exists t,
    Validation.errors (Validation.validateSpindle (Some (spindle example_request))) = [] /\
    calculate_trace example_request = Some t /\
    rpm_min (spindle example_request) <= t_rpm t <= rpm_max (spindle example_request).
Proof.
  destruct (calculate_trace_returns example_request) as [t Ht]; [discriminate|].
  assert (Hacc : Validation.errors
                   (Validation.validateSpindle (Some (spindle example_request))) = [])
    by (apply validateSpindle_complete; cbn; lra).
  exists t. split; [exact Hacc|]. split; [exact Ht|].
  exact (proj1 (X26_accepted_spindle_in_solver example_request t Hacc Ht)).
Defined.

(** ** The power module and the solver *)

Lemma module_power_in_range (s : Spindle) (rpm : R) :
  spindle_valid s ->
  rpm_min s <= rpm <= rpm_max s ->
  0 < Power.getSpindlePowerAtRPM s rpm.
Proof.
  intros (Hp & Hlo & Hord) [H1 H2]. unfold Power.getSpindlePowerAtRPM.
  destruct (Rlt_dec _ _); [lra|]. destruct (Rgt_dec _ _); [lra|].
  cbv zeta. destruct (Rle_dec _ _) as [Hb|Hb]; [|lra].
  assert (0 < rpm / base_rpm s) by (apply Rdiv_lt_0_compat; lra).
  apply Rmult_lt_0_compat; lra.
Qed.

Lemma solver_power_le_module (this : Request) (rpm : R) :
  spindle_valid (spindle this) ->
  getSpindlePowerAtRPM this rpm <= 0.85 * Power.getSpindlePowerAtRPM (spindle this) rpm.
Proof.
  intros (Hp & Hlo & Hord).
  unfold getSpindlePowerAtRPM, Power.getSpindlePowerAtRPM.
  destruct (Rlt_dec _ _); [lra|]. destruct (Rgt_dec _ _); [lra|].
  cbv zeta. destruct (Rle_dec _ _) as [Hb|Hb]; [|lra].
  set (s := spindle this) in *.
  assert (Hq : 0 < rpm / base_rpm s) by (apply Rdiv_lt_0_compat; lra).
  assert (Ht : 0 < Rmin (rpm / (rpm_min s * 1.5)) 1.0 <= 1).
  { unfold Rmin. destruct (Rle_dec _ _); [|lra].
    split; [|lra]. apply Rdiv_lt_0_compat; lra. }
  set (q := rpm / base_rpm s) in *. set (tr := Rmin _ _) in *.
  assert (0 < rated_power_kW s * 1000 * q) by (apply Rmult_lt_0_compat; lra).
  nra.
Qed.

(** X27.  For a valid spindle the solver's available power and the power
    module's agree on where the spindle delivers nothing (exactly outside
    the RPM limits); inside, the solver's value is never more than 85% of the
    module's, and it is exactly 85% of it above the base RPM or from one and
    a half times the minimum RPM on. *)
Theorem X27_available_power_of_both_modules (this : Request) (rpm : R) :
  spindle_valid (spindle this) ->
  let s := spindle this in
  let solver := getSpindlePowerAtRPM this rpm in
  let module := Power.getSpindlePowerAtRPM s rpm in
  0 <= solver <= 0.85 * module /\
  (module = 0 <-> rpm < rpm_min s \/ rpm > rpm_max s) /\
  (solver = 0 <-> module = 0) /\
  (base_rpm s < rpm \/ rpm_min s * 1.5 <= rpm -> solver = 0.85 * module).
Proof.
  intros Hvalid s solver module.
  assert (Hout : rpm < rpm_min s \/ rpm > rpm_max s -> solver = 0 /\ module = 0).
  { intros H. unfold solver, module, getSpindlePowerAtRPM, Power.getSpindlePowerAtRPM.
    fold s. destruct (Rlt_dec _ _); [split; reflexivity|].
    destruct (Rgt_dec _ _); [split; reflexivity|]. lra. }
  assert (Hin : ~ (rpm < rpm_min s \/ rpm > rpm_max s) -> 0 < solver /\ 0 < module).
  { intros H. assert (Hr : rpm_min s <= rpm <= rpm_max s) by lra. split.
    - apply getSpindlePowerAtRPM_pos; assumption.
    - apply module_power_in_range; assumption. }
  pose proof (solver_power_le_module this rpm Hvalid) as Hle.
  fold solver s module in Hle.
  destruct (Rlt_dec rpm (rpm_min s)) as [Hl|Hl];
    [|destruct (Rgt_dec rpm (rpm_max s)) as [Hg|Hg]].
  - destruct Hout as [H1 H2]; [left; exact Hl|].
    rewrite H1, H2. repeat split; intros; lra.
  - destruct Hout as [H1 H2]; [right; exact Hg|].
    rewrite H1, H2. repeat split; intros; lra.
  - destruct Hin as [H1 H2]; [lra|].
    split; [lra|]. split; [split; intros; lra|]. split; [split; intros; lra|].
    intros Hreg. destruct Hvalid as (Hp & Hlo & Hord). fold s in Hp, Hlo, Hord.
    unfold solver, module, getSpindlePowerAtRPM, Power.getSpindlePowerAtRPM. fold s.
    destruct (Rlt_dec _ _); [lra|]. destruct (Rgt_dec _ _); [lra|].
    cbv zeta. destruct (Rle_dec _ _) as [Hb|Hb]; [|lra].
    destruct Hreg as [Hreg|Hreg]; [lra|].
    assert (Hone : Rmin (rpm / (rpm_min s * 1.5)) 1.0 = 1).
    { unfold Rmin. destruct (Rle_dec _ _) as [Hc|Hc]; [|lra].
      assert (1 <= rpm / (rpm_min s * 1.5)).
      { apply Rmult_le_reg_r with (rpm_min s * 1.5); [lra|].
        unfold Rdiv. rewrite Rmult_assoc, Rinv_l by lra. lra. }
      lra. }
    rewrite Hone. lra.
Qed.

Lemma X27_available_power_of_both_modules_witness :
  spindle_valid (spindle example_request) /\
  getSpindlePowerAtRPM example_request 9000
  <= 0.85 * Power.getSpindlePowerAtRPM (spindle example_request) 9000.
Proof.
  assert (Hvalid : spindle_valid (spindle example_request))
    by (apply vfd_spindle_valid; lra).
  split; [exact Hvalid|].
  exact (proj2 (proj1 (X27_available_power_of_both_modules example_request 9000 Hvalid))).
Defined.

(** X28.  On a valid spindle the operating point the solver ends at is
    always rated "good" by the power module's utilization analysis: the power
    at the final feed is at most 76.5% of the module's available power at the
    final RPM, well under its 80% warning level, and the RPM is never
    reported as outside the operating range. *)
Theorem X28_final_point_has_good_utilization (this : Request) (t : Trace) :
  spindle_valid (spindle this) ->
  calculate_trace this = Some t ->
  let u := Power.analyzePowerUtilization
             (calculateImprovedPower this (t_ae t) (t_ap t) (t_vf t))
             (spindle this) (t_rpm t) in
  Power.status u = "good"%string /\
  Power.utilization_percent u <= 76.5 /\
  Power.available_power_W u = Power.getSpindlePowerAtRPM (spindle this) (t_rpm t).
Proof.
  intros Hvalid Ht u.
  destruct (calculate_trace_fields this t Ht)
    as (_ & _ & Hrpm & _ & _ & _ & _ & _ & _ & _ & _ & _ & Hav & _).
  pose proof (final_power_le_budget this t Hvalid Ht) as Hbudget.
  pose proof (solver_power_le_module this (t_rpm t) Hvalid) as Hle.
  rewrite <- Hav in Hle.
  assert (Hrange : rpm_min (spindle this) <= t_rpm t <= rpm_max (spindle this))
    by (rewrite Hrpm; apply clampRPM_in_range; apply Hvalid).
  pose proof (module_power_in_range (spindle this) (t_rpm t) Hvalid Hrange) as Hpos.
  unfold u, Power.analyzePowerUtilization.
  set (req := calculateImprovedPower this (t_ae t) (t_ap t) (t_vf t)) in *.
  set (avail := Power.getSpindlePowerAtRPM (spindle this) (t_rpm t)) in *.
  cbv zeta.
  destruct (Req_dec_T avail 0); [lra|].
  assert (Hu : req / avail * 100 <= 76.5).
  { assert (Hq : req / avail <= 0.765).
    { apply Rmult_le_reg_r with avail; [exact Hpos|].
      unfold Rdiv. rewrite Rmult_assoc, Rinv_l by lra. lra. }
    lra. }
  destruct (Rle_dec (req / avail * 100) 80); [|lra].
  cbn. split; [reflexivity|]. split; [exact Hu|reflexivity].
Qed.

Lemma X28_final_point_has_good_utilization_witness :
  exists t,
    spindle_valid (spindle overloaded_request) /\
    calculate_trace overloaded_request = Some t /\
    Power.status
      (Power.analyzePowerUtilization
         (calculateImprovedPower overloaded_request (t_ae t) (t_ap t) (t_vf t))
         (spindle overloaded_request) (t_rpm t)) = "good"%string.
Proof.
  destruct (slot_1mm_request_returns 0.1 2.0 5.0 0.7) as [t Ht]. exists t.
  assert (Hvalid : spindle_valid (spindle overloaded_request))
    by (apply vfd_spindle_valid; lra).
  split; [exact Hvalid|]. split; [exact Ht|].
  exact (proj1 (X28_final_point_has_good_utilization overloaded_request t Hvalid Ht)).
Defined.

(** ** The deflection module and the solver *)

Lemma checkDeflection_cases (this : Request) (force : R) :
  let d := fst (checkDeflection this force) in
  (d > 0.05 /\ snd (checkDeflection this force) = [high_deflection d]) \/
  (0.02 < d <= 0.05 /\ snd (checkDeflection this force) = [moderate_deflection d]) \/
  (d <= 0.02 /\ snd (checkDeflection this force) = []).
Proof.
  unfold checkDeflection.
  destruct (includes_type _ _).
  - cbv zeta. destruct (Rgt_dec _ 0.05); [|destruct (Rgt_dec _ 0.02)]; cbn [fst snd].
    + left. split; [assumption|reflexivity].
    + right; left. split; [lra|reflexivity].
    + right; right. split; [lra|reflexivity].
  - cbn [fst snd]. right; right. split; [lra|reflexivity].
Qed.

Lemma analyzeDeflection_severity (d : R) (tool : Tool) :
  let a := Deflection.analyzeDeflection d tool in
  (d > 0.05 -> Deflection.severity a = "danger"%string) /\
  (0.02 < d <= 0.05 -> Deflection.severity a = "warning"%string) /\
  (d <= 0.02 -> Deflection.severity a = "info"%string).
Proof.
  unfold Deflection.analyzeDeflection, Deflection.FINISH, Deflection.SEMI_FINISH,
    Deflection.ROUGH.
  destruct (Rle_dec d 0.005); [|destruct (Rle_dec d 0.02); [|destruct (Rle_dec d 0.05)]];
    cbn; repeat split; intros; try reflexivity; lra.
Qed.

(** X29.  The deflection module grades the solver's deflection the way the
    solver's own warnings do: its severity is "danger" exactly when the
    solver emits the high-deflection warning, "warning" exactly when it emits
    the moderate-deflection warning, and "info" exactly when the result
    carries no deflection warning at all. *)
Theorem X29_deflection_severity_agrees (this : Request) (t : Trace) :
  calculate_trace this = Some t ->
  let d := t_deflection t in
  let a := Deflection.analyzeDeflection d (tool this) in
  (Deflection.severity a = "danger"%string <-> In (high_deflection d) (t_warnings t)) /\
  (Deflection.severity a = "warning"%string <->
   In (moderate_deflection d) (t_warnings t)) /\
  (Deflection.severity a = "info"%string <->
   forall w, In w (t_warnings t) -> ~ deflection_diagnostic w).
Proof.
  intros Ht d a.
  destruct (calculate_trace_fields this t Ht)
    as (_ & _ & _ & _ & _ & _ & _ & _ & _ & _ & _ & _ & _ & _ & _ & Hdefl & _).
  pose proof (checkDeflection_cases this (t_cuttingForce t)) as Hc.
  cbv zeta in Hc. rewrite <- Hdefl in Hc. fold d in Hc.
  destruct (analyzeDeflection_severity d (tool this)) as (Hdanger & Hwarn & Hinfo).
  fold a in Hdanger, Hwarn, Hinfo.
  assert (Hstage : forall w, In w (snd (checkDeflection this (t_cuttingForce t))) ->
                             In w (t_warnings t)).
  { intros w Hin. apply (in_warnings_iff _ _ Ht). tauto. }
  assert (Hback : forall w, In w (t_warnings t) -> deflection_diagnostic w ->
                            In w (snd (checkDeflection this (t_cuttingForce t)))).
  { intros w Hin Hd. exact (deflection_diagnostic_only_from_checkDeflection this t w Ht Hin Hd). }
  assert (Hhd : deflection_diagnostic (high_deflection d))
    by (exists 3%nat, d; left; reflexivity).
  assert (Hmd : deflection_diagnostic (moderate_deflection d))
    by (exists 3%nat, d; right; reflexivity).
  destruct Hc as [[Hr Hw]|[[Hr Hw]|[Hr Hw]]]; rewrite Hw in Hstage, Hback.
  - rewrite (Hdanger Hr). split; [|split]; split; intros H; try discriminate.
    + apply Hstage. left; reflexivity.
    + reflexivity.
    + destruct (Hback _ H Hmd) as [E|[]]. discriminate.
    + exfalso. apply (H (high_deflection d)); [apply Hstage; left; reflexivity|exact Hhd].
  - rewrite (Hwarn Hr). split; [|split]; split; intros H; try discriminate.
    + destruct (Hback _ H Hhd) as [E|[]]. discriminate.
    + apply Hstage. left; reflexivity.
    + reflexivity.
    + exfalso.
      apply (H (moderate_deflection d)); [apply Hstage; left; reflexivity|exact Hmd].
  - rewrite (Hinfo Hr). split; [|split]; split; intros H; try discriminate.
    + destruct (Hback _ H Hhd).
    + destruct (Hback _ H Hmd).
    + intros w Hin Hd. destruct (Hback _ Hin Hd).
    + reflexivity.
Qed.

Lemma X29_deflection_severity_agrees_witness :
  exists t,
    calculate_trace example_request = Some t /\
    (Deflection.severity (Deflection.analyzeDeflection (t_deflection t) (tool example_request))
     = "danger"%string <->
     In (high_deflection (t_deflection t)) (t_warnings t)).
Proof.
  destruct (calculate_trace_returns example_request) as [t Ht]; [discriminate|].
  exists t. split; [exact Ht|].
  exact (proj1 (X29_deflection_severity_agrees example_request t Ht)).
Defined.

Lemma getToolModulus_bounds (material : string) :
  210 <= Deflection.getToolModulus material <= 1000.
Proof.
  unfold Deflection.getToolModulus, Deflection.moduli, Deflection.CARBIDE_E_GPA,
    Deflection.HSS_E_GPA.
  generalize (JsString.toLowerCase material). intros s. unfold lookup.
  repeat match goal with
         | |- context [String.eqb ?a s] => destruct (String.eqb a s)
         end; unfold js_or; Rdecide; lra.
Qed.

Lemma holder_compliance_bounds (holderType : string) :
  0.0003 <= js_or (Deflection.holder_compliance_get (JsString.toUpperCase holderType))
                  (DEFLECTION_CONSTANTS.TOOL_HOLDER_COMPLIANCE COLLET) <= 0.005.
Proof.
  unfold Deflection.holder_compliance_get.
  generalize (JsString.toUpperCase holderType). intros s.
  repeat match goal with
         | |- context [String.eqb s ?a] => destruct (String.eqb s a)
         end; unfold js_or, DEFLECTION_CONSTANTS.TOOL_HOLDER_COMPLIANCE; Rdecide; lra.
Qed.

(** X30.  In the deflection module's report, for a non-negative force and a
    non-negative effective length, the bending and shear parts are never
    negative whatever the tool material and diameter (a diameter of 0 is
    replaced by 6, an unknown material by carbide), and the holder part lies
    between 0.0003 and 0.005 times the force whatever the holder name; so a
    force above 167 N is graded "excessive" with severity "danger" for every
    tool and holder. *)
Theorem X30_module_deflection_report
        (tool : Tool) (force : R) (stickout : option R) (holderType : option string) :
  0 <= force ->
  0 <= js_or stickout (js_or (stickout_mm tool) 25) ->
  let r := Deflection.calculateToolDeflection tool force stickout holderType in
  0 <= Deflection.bending_deflection_mm r /\
  0 <= Deflection.shear_deflection_mm r /\
  force * 0.0003 <= Deflection.holder_compliance_mm r <= force * 0.005 /\
  force * 0.0003 <= Deflection.total_deflection_mm r /\
  (force > 167 ->
   Deflection.status (Deflection.deflection_analysis r) = "excessive"%string /\
   Deflection.severity (Deflection.deflection_analysis r) = "danger"%string).
Proof.
  intros HF HL r.
  unfold r, Deflection.calculateToolDeflection.
  cbn [Deflection.bending_deflection_mm Deflection.shear_deflection_mm
       Deflection.holder_compliance_mm Deflection.total_deflection_mm
       Deflection.deflection_analysis].
  set (h := match holderType with Some h => h | None => "collet"%string end).
  set (m := if String.eqb (tool_material tool) "" then "carbide"%string
            else tool_material tool).
  pose proof (getToolModulus_bounds m) as HE.
  pose proof (holder_compliance_bounds h) as Hh.
  assert (Hd : js_or (Some (diameter_mm tool)) 6 <> 0) by (apply js_or_nonzero; lra).
  set (d := js_or (Some (diameter_mm tool)) 6) in *.
  set (L := js_or stickout (js_or (stickout_mm tool) 25)) in *.
  set (E := Deflection.getToolModulus m) in *.
  pose proof PI_RGT_0 as Hpi.
  assert (Hd2 : 0 < d * d) by nra.
  assert (Hd4 : 0 < d ^ 4).
  { replace (d ^ 4) with ((d * d) * (d * d)) by ring. apply Rmult_lt_0_compat; assumption. }
  assert (Hb : 0 <= Deflection.calculateBendingDeflection d L force E).
  { unfold Deflection.calculateBendingDeflection.
    assert (0 <= L ^ 3) by (apply pow_le; exact HL).
    assert (0 < 3 * (E * 1000) * (PI * d ^ 4 / 64)).
    { apply Rmult_lt_0_compat; [lra|]. apply Rdiv_lt_0_compat; [|lra].
      apply Rmult_lt_0_compat; assumption. }
    apply Rmult_le_pos; [apply Rmult_le_pos; assumption|].
    left. apply Rinv_0_lt_compat. assumption. }
  assert (Hs : 0 <= Deflection.calculateShearDeflection d L force E).
  { unfold Deflection.calculateShearDeflection.
    assert (0 < E / 2.6 * 1000 * (PI * d * d / 4)).
    { apply Rmult_lt_0_compat; [lra|]. apply Rdiv_lt_0_compat; [|lra].
      rewrite Rmult_assoc. apply Rmult_lt_0_compat; assumption. }
    apply Rmult_le_pos; [|left; apply Rinv_0_lt_compat; assumption].
    apply Rmult_le_pos; [|exact HL]. apply Rmult_le_pos; [lra|exact HF]. }
  assert (Hc : force * 0.0003 <= Deflection.calculateHolderCompliance force h <= force * 0.005).
  { unfold Deflection.calculateHolderCompliance. cbv zeta.
    set (c := js_or _ _) in *. split; apply Rmult_le_compat_l; lra. }
  split; [exact Hb|]. split; [exact Hs|]. split; [exact Hc|]. split; [lra|].
  intros Hbig.
  set (total := _ + _ + _).
  assert (Ht : total > 0.05) by (unfold total; lra).
  unfold Deflection.analyzeDeflection, Deflection.FINISH, Deflection.SEMI_FINISH,
    Deflection.ROUGH.
  destruct (Rle_dec total 0.005); [lra|]. destruct (Rle_dec total 0.02); [lra|].
  destruct (Rle_dec total 0.05); [lra|]. cbn. split; reflexivity.
Qed.

Lemma X30_module_deflection_report_witness :
  0 <= 200 /\
  0 <= js_or None (js_or (stickout_mm endmill_6mm) 25) /\
  Deflection.severity
    (Deflection.deflection_analysis
       (Deflection.calculateToolDeflection endmill_6mm 200 None None)) = "danger"%string.
Proof.
  assert (HF : 0 <= 200) by lra.
  assert (HL : 0 <= js_or None (js_or (stickout_mm endmill_6mm) 25))
    by (cbn; Rdecide; lra).
  split; [exact HF|]. split; [exact HL|].
  destruct (X30_module_deflection_report endmill_6mm 200 None None HF HL)
    as (_ & _ & _ & _ & Hbig).
  apply Hbig. lra.
Defined.
